(** * gunpowder: the [Chunk] node (gunpowder/nodes/chunk.py)

    A shallow embedding of the chunk scheduler ([Chunk.__prepare_requests])
    and of the chunk assembler ([Chunk.provide], [Chunk.__setup_batch],
    [Chunk.__fill]), with the properties of the specification stated and
    settled against it.

    Python values are modelled as follows.
    - A [Coordinate] (a tuple of ints) and a 1-D integer numpy array are
      lists of [Z].  The stride buffer [np.zeros([3])] is a float array that
      only ever holds integer values; it is a list of [Z] as well.
    - A dict keyed by volume type ([BatchSpec.volumes], [Batch.volumes]) is a
      [gmap]; iterating [items()] walks [map_to_list].
    - An exception is a result [Raise e]; a [while] loop carries fuel and
      gives [OutOfFuel] when the fuel does not suffice; a [get] on an empty
      queue never returns, which is the result [Blocked]. *)

From stdpp Require Import base numbers option list gmap.

Open Scope Z_scope.

(** ** Exceptions and results *)

Inductive exn : Type :=
| KeyError
| IndexError
| ValueError
| AssertionError
| AttributeError.

Inductive outcome (A : Type) : Type :=
| Return (a : A)
| Raise (e : exn)
| Blocked
| OutOfFuel.

Arguments Return {A} a.
Arguments Raise {A} e.
Arguments Blocked {A}.
Arguments OutOfFuel {A}.

Definition obind {A B} (f : A -> outcome B) (m : outcome A) : outcome B :=
  match m with
  | Return a => f a
  | Raise e => Raise e
  | Blocked => Blocked
  | OutOfFuel => OutOfFuel
  end.

#[global] Instance outcome_ret : MRet outcome := @Return.
#[global] Instance outcome_bind : MBind outcome := @obind.

(** A [for] loop whose body may raise. *)
Fixpoint foldM {A S} (f : S -> A -> outcome S) (s : S) (l : list A) : outcome S :=
  match l with
  | [] => Return s
  | x :: l' => s' ← f s x; foldM f s' l'
  end.

(** [l[i]] and [l[i] = x] for a tuple or a 1-D array: Python raises
    [IndexError] out of range (the indices used here come from [range] and
    are never negative). *)
Definition getitem {A} (l : list A) (i : nat) : outcome A :=
  match l !! i with
  | Some x => Return x
  | None => Raise IndexError
  end.

Definition setitem {A} (l : list A) (i : nat) (x : A) : outcome (list A) :=
  if decide (i < length l)%nat then Return (<[i:=x]> l) else Raise IndexError.

(** ** Volume types *)

(** The members of [gunpowder.volume.VolumeType] that the nodes of the
    repository name. *)
Inductive VolumeType : Type :=
| RAW
| ALPHA_MASK
| GT_LABELS
| GT_AFFINITIES
| GT_MASK
| PRED_AFFINITIES
| GT_BM_PRESYN
| GT_BM_POSTSYN
| GT_MASK_EXCLUSIVEZONE_PRESYN
| GT_MASK_EXCLUSIVEZONE_POSTSYN.

#[global] Instance VolumeType_eq_dec : EqDecision VolumeType.
Proof. solve_decision. Defined.

Definition VolumeType_code (v : VolumeType) : nat :=
  match v with
  | RAW => 0 | ALPHA_MASK => 1 | GT_LABELS => 2 | GT_AFFINITIES => 3
  | GT_MASK => 4 | PRED_AFFINITIES => 5 | GT_BM_PRESYN => 6
  | GT_BM_POSTSYN => 7 | GT_MASK_EXCLUSIVEZONE_PRESYN => 8
  | GT_MASK_EXCLUSIVEZONE_POSTSYN => 9
  end%nat.

Definition VolumeType_of_code (n : nat) : VolumeType :=
  match n with
  | 0 => RAW | 1 => ALPHA_MASK | 2 => GT_LABELS | 3 => GT_AFFINITIES
  | 4 => GT_MASK | 5 => PRED_AFFINITIES | 6 => GT_BM_PRESYN
  | 7 => GT_BM_POSTSYN | 8 => GT_MASK_EXCLUSIVEZONE_PRESYN
  | _ => GT_MASK_EXCLUSIVEZONE_POSTSYN
  end%nat.

#[global] Instance VolumeType_countable : Countable VolumeType.
Proof.
  refine (inj_countable' VolumeType_code VolumeType_of_code _).
  intros []; reflexivity.
Defined.

(** ** Coordinates and regions of interest *)

Abbreviation Coordinate := (list Z).

(** Modelled from the spec: [Coordinate] (gunpowder/coordinate.py is not
    among the sources).  "Immutable integer vector of fixed dimensionality D.
    Supports elementwise addition, subtraction"; the operands of one
    computation share the same D. *)
Definition coord_add (a b : Coordinate) : Coordinate := zip_with Z.add a b.
Definition coord_sub (a b : Coordinate) : Coordinate := zip_with Z.sub a b.

(** Modelled from the spec: [Roi] (gunpowder/roi.py is not among the
    sources).  "(offset, shape) ... begin = offset, end = offset + shape". *)
Record Roi : Type := mkRoi { roi_offset : Coordinate; roi_shape : Coordinate }.

#[global] Instance Roi_eq_dec : EqDecision Roi.
Proof. solve_decision. Defined.

Definition get_offset (r : Roi) : Coordinate := roi_offset r.
Definition get_begin (r : Roi) : Coordinate := roi_offset r.
Definition get_shape (r : Roi) : Coordinate := roi_shape r.
Definition get_end (r : Roi) : Coordinate := coord_add (roi_offset r) (roi_shape r).
Definition roi_dims (r : Roi) : nat := length (roi_offset r).

(** [roi + delta] and [roi - delta]: the spec's [shift]. *)
Definition roi_shift (r : Roi) (delta : Coordinate) : Roi :=
  mkRoi (coord_add (roi_offset r) delta) (roi_shape r).
Definition roi_unshift (r : Roi) (delta : Coordinate) : Roi :=
  mkRoi (coord_sub (roi_offset r) delta) (roi_shape r).

(** A ROI is well formed in dimension [D] when offset and shape both have
    [D] components. *)
Definition roi_wf (D : nat) (r : Roi) : Prop :=
  length (roi_offset r) = D /\ length (roi_shape r) = D.

(** Membership of a point, axis by axis: [begin <= p < end]. *)
Definition roi_contains_point (r : Roi) (p : Coordinate) : bool :=
  bool_decide (length p = length (roi_offset r)) &&
  forallb id (zip_with Z.leb (get_begin r) p) &&
  forallb id (zip_with Z.ltb p (get_end r)).

(** A request and a chunk template are both a [BatchSpec]: its [volumes]
    dict maps a volume type to a ROI. *)
Abbreviation BatchSpec := (gmap VolumeType Roi).

(** [d[k]] on a dict. *)
Definition dict_get {V} (d : gmap VolumeType V) (k : VolumeType) : outcome V :=
  match d !! k with
  | Some v => Return v
  | None => Raise KeyError
  end.

(** ** numpy on 1-D arrays *)

(** [np.min(rows, axis=0)] and [np.max(rows, axis=0)] over a list of rows of
    one length: the reduction of an empty list has no identity and raises
    [ValueError]. *)
Definition columnwise (f : Z -> Z -> Z) (r : list Z) (rs : list (list Z)) : list Z :=
  foldl (zip_with f) r rs.

Definition np_reduce_axis0 (f : Z -> Z -> Z) (rows : list (list Z)) : outcome (list Z) :=
  match rows with
  | [] => Raise ValueError
  | r :: rs => Return (columnwise f r rs)
  end.

Definition np_min_axis0 := np_reduce_axis0 Z.min.
Definition np_max_axis0 := np_reduce_axis0 Z.max.

(** An elementwise binary operation on two 1-D operands with numpy's
    broadcasting: the lengths agree, or one of them is 1; anything else is
    "operands could not be broadcast together", a [ValueError]. *)
Definition np_broadcast (f : Z -> Z -> Z) (a b : list Z) : outcome (list Z) :=
  if decide (length a = length b) then Return (zip_with f a b)
  else match a, b with
       | [x], _ => Return (map (f x) b)
       | _, [y] => Return (map (fun x => f x y) a)
       | _, _ => Raise ValueError
       end.

(** [a.clip(a_min)]: elementwise maximum with the lower bound. *)
Definition np_clip_min (a a_min : list Z) : outcome (list Z) := np_broadcast Z.max a a_min.

(** [(a < b).all()] for two arrays of one length. *)
Definition np_all_lt (a b : list Z) : bool := forallb id (zip_with Z.ltb a b).

(** [np.zeros([n])]. *)
Definition np_zeros (n : nat) : list Z := replicate n 0.

(** ** The chunk scheduler *)

(** Modelled from the spec: [BatchSpec.get_common_roi] (gunpowder/batch_spec.py
    is not among the sources); the scheduler uses only the shape of its
    result.  "min_stride[d] = the smallest template shape along axis d, taken
    over all entities." *)
Definition get_common_roi_shape (spec : BatchSpec) : Coordinate :=
  match map (fun item => get_shape item.2) (map_to_list spec) with
  | [] => []
  | r :: rs => columnwise Z.min r rs
  end.

(** The attributes of a [Chunk] object.  [requests] and [num_requests] do
    not exist before [setup] has run. *)
Record Chunk : Type := mkChunk {
  chunk_spec_template : BatchSpec;
  dims : nat;
  request : BatchSpec;
  num_workers : Z;
  requests : option (list BatchSpec);
  num_requests : option nat
}.

(** [Chunk.__init__]: [dims] is read from the first template volume, and
    every template volume is asserted to have it. *)
Definition init (request chunk_spec : BatchSpec) (num_workers : Z) : outcome Chunk :=
  match map_to_list chunk_spec with
  | [] => Raise IndexError
  | (_, roi0) :: _ =>
      if forallb (fun item => bool_decide (roi_dims roi0 = roi_dims item.2))
                 (map_to_list chunk_spec)
      then Return (mkChunk chunk_spec (roi_dims roi0) request num_workers None None)
      else Raise AssertionError
  end.

(** The walk bounds of [__prepare_requests] (lines 115-128): [min_stride],
    [begin] and [end]. *)
Definition initial_offset (request : BatchSpec) (item : VolumeType * Roi) : outcome Coordinate :=
  r ← dict_get request item.1;
  Return (coord_sub (get_begin r) (get_begin item.2)).

Definition max_offset (request template : BatchSpec) (item : VolumeType * Roi) : outcome Coordinate :=
  r ← dict_get request item.1;
  t ← dict_get template item.1;
  Return (coord_sub (get_end r) (get_shape t)).

Definition walk_bounds (self : Chunk) : outcome (Coordinate * list Z * list Z) :=
  let min_stride := get_common_roi_shape (chunk_spec_template self) in
  all_initial_offsets ← mapM (initial_offset (request self))
                             (map_to_list (chunk_spec_template self));
  begin ← np_min_axis0 all_initial_offsets;
  all_max_offsets ← mapM (max_offset (request self) (chunk_spec_template self))
                         (map_to_list (chunk_spec_template self));
  top ← np_max_axis0 all_max_offsets;
  endv ← np_broadcast Z.add top min_stride;
  Return (min_stride, begin, endv).

(** One pass of [for dim in range(roi.dims())] (lines 144-148): the candidate
    stride of one entity along [dim], written into the buffer [max_stride]. *)
Definition stride_candidate (self_request chunk_request : BatchSpec)
    (volume_type : VolumeType) (endv offset : list Z)
    (max_stride : list Z) (dim : nat) : outcome (list Z) :=
  r ← dict_get self_request volume_type;
  request_end ← getitem (get_end r) dim;
  c ← dict_get chunk_request volume_type;
  chunk_end ← getitem (get_end c) dim;
  if decide (request_end > chunk_end) then
    request_begin ← getitem (get_begin r) dim;
    chunk_begin ← getitem (get_begin c) dim;
    setitem max_stride dim (request_begin - chunk_begin)
  else
    end_d ← getitem endv dim;
    offset_d ← getitem offset dim;
    setitem max_stride dim (end_d - offset_d).

(** The body of [for volume_type, roi in ...template.volumes.items()]
    (lines 137-149); the loop state is [chunk_request] and [max_strides]. *)
Definition visit_volume (self_request : BatchSpec) (min_stride : Coordinate)
    (endv offset : list Z) (st : BatchSpec * list (list Z))
    (item : VolumeType * Roi) : outcome (BatchSpec * list (list Z)) :=
  let chunk_request := <[item.1 := roi_shift item.2 offset]> st.1 in
  max_stride ← foldM (stride_candidate self_request chunk_request item.1 endv offset)
                     (np_zeros 3) (seq 0 (roi_dims item.2));
  clipped ← np_clip_min max_stride min_stride;
  Return (chunk_request, st.2 ++ [clipped]).

(** The odometer step (lines 156-163), from axis [d] on; [n] counts the axes
    still to look at. *)
Fixpoint odometer (self_dims : nat) (begin endv stride : list Z)
    (offset : list Z) (d n : nat) : outcome (list Z) :=
  match n with
  | O => Return offset
  | S n' =>
      offset_d ← getitem offset d;
      stride_d ← getitem stride d;
      offset ← setitem offset d (offset_d + stride_d);
      end_d ← getitem endv d;
      if decide (offset_d + stride_d >= end_d) then
        if decide (d = self_dims - 1)%nat then Return offset
        else
          begin_d ← getitem begin d;
          offset ← setitem offset d begin_d;
          odometer self_dims begin endv stride offset (S d) n'
      else Return offset
  end.

(** One pass of the [while] body (lines 133-163): the sub-request put on the
    queue, the stride, and the next offset. *)
Definition walk_step (self : Chunk) (min_stride : Coordinate)
    (begin endv offset : list Z) : outcome (BatchSpec * list Z * list Z) :=
  st ← foldM (visit_volume (request self) min_stride endv offset)
             (request self, []) (map_to_list (chunk_spec_template self));
  stride ← np_min_axis0 st.2;
  offset' ← odometer (dims self) begin endv stride offset 0 (dims self);
  Return (st.1, stride, offset').

(** The [while (offset < end).all()] loop. *)
Fixpoint walk (fuel : nat) (self : Chunk) (min_stride : Coordinate)
    (begin endv offset : list Z) (queue : list BatchSpec) : outcome (list BatchSpec) :=
  if np_all_lt offset endv then
    match fuel with
    | O => OutOfFuel
    | S fuel' =>
        step ← walk_step self min_stride begin endv offset;
        walk fuel' self min_stride begin endv step.2 (queue ++ [step.1.1])
    end
  else Return queue.

(** The object with its queue and its count of sub-requests replaced. *)
Definition set_requests (self : Chunk) (queue : list BatchSpec) (n : nat) : Chunk :=
  mkChunk (chunk_spec_template self) (dims self) (request self)
          (num_workers self) (Some queue) (Some n).

(** [Chunk.__prepare_requests]: the queue is filled and counted. *)
Definition prepare_requests (fuel : nat) (self : Chunk) : outcome Chunk :=
  bounds ← walk_bounds self;
  queue ← walk fuel self bounds.1.1 bounds.1.2 bounds.2 bounds.1.2 [];
  Return (set_requests self queue (length queue)).

(** [Chunk.setup]: the schedule is built here, once ([workers.start()] has
    no effect on the attributes modelled). *)
Definition setup (fuel : nat) (self : Chunk) : outcome Chunk := prepare_requests fuel self.

(** ** Arrays, volumes and batches *)

(** An N-D numpy array: its shape, and the value at each index vector.  The
    values are floats that the assembler only copies; they are opaque
    integers here. *)
Record ndarray : Type := mkArray { arr_shape : list Z; arr_at : list Z -> Z }.

(** [np.zeros(shape)]: a negative dimension is a [ValueError]. *)
Definition np_zeros_nd (shape : list Z) : outcome ndarray :=
  if forallb (Z.leb 0) shape then Return (mkArray shape (fun _ => 0))
  else Raise ValueError.

(** [slice(None)] and [slice(start, stop)]. *)
Inductive slice : Type :=
| SliceAll
| SliceRange (start stop : Z).

(** [slice.indices(n)] for step 1, as first index and length: a negative
    bound counts from the end, both bounds are clipped to the axis. *)
Definition slice_clamp (n x : Z) : Z :=
  if decide (x < 0) then Z.max (x + n) 0 else Z.min x n.

Definition slice_bounds (n : Z) (s : slice) : Z * Z :=
  match s with
  | SliceAll => (0, n)
  | SliceRange start stop =>
      (slice_clamp n start, Z.max (slice_clamp n stop - slice_clamp n start) 0)
  end.

(** The axes a tuple of slices does not mention are taken whole. *)
Definition pad_slices (ndim : nat) (sl : list slice) : list slice :=
  sl ++ replicate (ndim - length sl) SliceAll.

Definition region (a : ndarray) (sl : list slice) : list (Z * Z) :=
  zip_with slice_bounds (arr_shape a) (pad_slices (length (arr_shape a)) sl).

(** [b[slices]]: more slices than axes is an [IndexError]. *)
Definition np_getitem (b : ndarray) (sl : list slice) : outcome ndarray :=
  if decide (length sl <= length (arr_shape b))%nat then
    Return (mkArray (map snd (region b sl))
                    (fun i => arr_at b (zip_with Z.add (map fst (region b sl)) i)))
  else Raise IndexError.

Definition in_region (reg : list (Z * Z)) (i : list Z) : bool :=
  bool_decide (length i = length reg) &&
  forallb id (zip_with (fun r x => (r.1 <=? x) && (x <? r.1 + r.2)) reg i).

(** [a[slices] = v] for a value of the shape of the region.  (numpy also
    accepts a value whose unit axes broadcast to the region; that case is
    not modelled and is reported like every other mismatch of shapes, as a
    [ValueError].) *)
Definition np_setitem (a : ndarray) (sl : list slice) (v : ndarray) : outcome ndarray :=
  if decide (length sl <= length (arr_shape a))%nat then
    if decide (arr_shape v = map snd (region a sl)) then
      Return (mkArray (arr_shape a)
                (fun i => if in_region (region a sl) i
                          then arr_at v (zip_with Z.sub i (map fst (region a sl)))
                          else arr_at a i))
    else Raise ValueError
  else Raise IndexError.

(** Modelled from the spec: [Roi.intersect] and [Roi.get_bounding_box]
    (gunpowder/roi.py is not among the sources).  "[intersect] of two ROIs
    with no overlap ... returns an explicit no-overlap result, never a
    negative-shape ROI"; the bounding box is the tuple of the slices
    [begin[d]:end[d]]. *)
Definition intersect (a b : Roi) : option Roi :=
  let begin := zip_with Z.max (get_begin a) (get_begin b) in
  let endv := zip_with Z.min (get_end a) (get_end b) in
  if forallb id (zip_with Z.ltb begin endv)
  then Some (mkRoi begin (coord_sub endv begin))
  else None.

Definition get_bounding_box (r : Roi) : list slice :=
  zip_with SliceRange (get_begin r) (get_end r).

(** A [Volume]; the resolution is a vector the assembler passes on. *)
Record Volume : Type := mkVolume {
  data : ndarray;
  roi : Roi;
  resolution : list Z;
  interpolate : bool
}.

(** A [Batch]: its [volumes] dict. *)
Abbreviation Batch := (gmap VolumeType Volume).

(** ** The chunk assembler *)

(** The dict literal of [__setup_batch] (lines 72-78), indexed. *)
Definition interpolate_table (volume_type : VolumeType) : outcome bool :=
  match volume_type with
  | RAW => Return true
  | GT_LABELS => Return false
  | GT_AFFINITIES => Return false
  | GT_MASK => Return false
  | PRED_AFFINITIES => Return false
  | _ => Raise KeyError
  end.

(** The body of the loop of [__setup_batch] (lines 67-83).  The arguments of
    [Volume(...)] are evaluated in the order written: [np.zeros(shape)]
    before [chunk_batch.volumes[VolumeType.RAW]]. *)
Definition setup_volume (chunk_batch : Batch) (batch : Batch)
    (item : VolumeType * Roi) : outcome Batch :=
  let shape :=
    if decide (item.1 = PRED_AFFINITIES \/ item.1 = GT_AFFINITIES)
    then 3 :: get_shape item.2 else get_shape item.2 in
  interp ← interpolate_table item.1;
  zeros ← np_zeros_nd shape;
  raw ← dict_get chunk_batch RAW;
  Return (<[item.1 := mkVolume zeros item.2 (resolution raw) interp]> batch).

(** [Chunk.__setup_batch]. *)
Definition setup_batch (request : BatchSpec) (chunk_batch : Batch) : outcome Batch :=
  foldM (setup_volume chunk_batch) ∅ (map_to_list request).

(** [Chunk.__fill]: the new contents of [a]. *)
Definition fill (a b : ndarray) (roi_a roi_b : Roi) : outcome ndarray :=
  match intersect roi_a roi_b with
  | None => Return a
  | Some common_roi =>
      let common_in_a_roi := roi_unshift common_roi (get_offset roi_a) in
      let common_in_b_roi := roi_unshift common_roi (get_offset roi_b) in
      let slices_a := get_bounding_box common_in_a_roi in
      let slices_b := get_bounding_box common_in_b_roi in
      let lead_a := (length (arr_shape a) - length slices_a)%nat in
      let lead_b := (length (arr_shape b) - length slices_b)%nat in
      let extra := bool_decide (length slices_a < length (arr_shape a))%nat in
      let slices_a' := if extra then replicate lead_a SliceAll ++ slices_a else slices_a in
      let slices_b' := if extra then replicate lead_b SliceAll ++ slices_b else slices_b in
      v ← np_getitem b slices_b';
      np_setitem a slices_a' v
  end.

(** The body of the loop of [provide] over the volumes of a chunk (lines
    57-59); [__fill] writes into the array of the output volume. *)
Definition fill_volume (request : BatchSpec) (batch : Batch)
    (item : VolumeType * Volume) : outcome Batch :=
  out ← dict_get batch item.1;
  roi_a ← dict_get request item.1;
  filled ← fill (data out) (data item.2) roi_a (roi item.2);
  Return (<[item.1 := mkVolume filled (roi out) (resolution out) (interpolate out)]> batch).

(** Lines 56-59: fill the returned chunk into the batch. *)
Definition fill_chunk (request : BatchSpec) (batch chunk : Batch) : outcome Batch :=
  foldM (fill_volume request) batch (map_to_list chunk).

(** Lines 53-59: allocate on the first chunk, then fill the chunk in. *)
Definition merge_chunk (request : BatchSpec) (batch : option Batch)
    (chunk : Batch) : outcome Batch :=
  batch' ← match batch with
           | None => setup_batch request chunk
           | Some b => Return b
           end;
  fill_chunk request batch' chunk.

Section Provide.

(** The upstream provider: [request_batch] may change the state [U] of
    the provider and may raise. *)
Context {U : Type}.
Variable request_batch : U -> BatchSpec -> outcome (Batch * U).

(** Modelled from the spec: [ProducerPool.get] (gunpowder/producer_pool.py
    is not among the sources).  "returning results as an unordered bounded
    stream - completion order is not guaranteed to match submission
    order"; each worker dequeues one sub-request and forwards it upstream.
    [pick i] says which of the pending sub-requests completes [i]-th. *)
Variable pick : nat -> nat.

Definition workers_get (i : nat) (queue : list BatchSpec) (u : U)
    : outcome (Batch * list BatchSpec * U) :=
  match queue with
  | [] => Blocked
  | _ :: _ =>
      let k := (pick i mod length queue)%nat in
      match queue !! k with
      | Some chunk_request =>
          r ← request_batch u chunk_request;
          Return (r.1, delete k queue, r.2)
      | None => Blocked
      end
  end.

(** [self.requests.get()] on the queue built by [setup]: it waits for
    ever when the queue is empty. *)
Definition queue_get (queue : list BatchSpec) : outcome (BatchSpec * list BatchSpec) :=
  match queue with
  | [] => Blocked
  | chunk_request :: queue' => Return (chunk_request, queue')
  end.

(** Lines 47-51: get a chunk. *)
Definition get_chunk (self : Chunk) (i : nat) (queue : list BatchSpec) (u : U)
    : outcome (Batch * list BatchSpec * U) :=
  if decide (num_workers self > 1) then workers_get i queue u
  else
    q ← queue_get queue;
    r ← request_batch u q.1;
    Return (r.1, q.2, r.2).

(** The loop of [provide] from pass [i] on, [n] passes to go. *)
Fixpoint provide_loop (self : Chunk) (request : BatchSpec) (n i : nat)
    (queue : list BatchSpec) (u : U) (batch : option Batch)
    : outcome (option Batch * list BatchSpec * U) :=
  match n with
  | O => Return (batch, queue, u)
  | S n' =>
      c ← get_chunk self i queue u;
      batch' ← merge_chunk request batch c.1.1;
      provide_loop self request n' (S i) c.1.2 c.2 (Some batch')
  end.

(** [Chunk.provide]: the batch returned ([None] when nothing was
    scheduled), the engine with what is left of its queue, and the state
    of the upstream provider. *)
Definition provide (self : Chunk) (request : BatchSpec) (u : U)
    : outcome (option Batch * Chunk * U) :=
  match num_requests self, requests self with
  | Some n, Some queue =>
      r ← provide_loop self request n 0 queue u None;
      Return (r.1.1, set_requests self r.1.2 n, r.2)
  | _, _ => Raise AttributeError
  end.

End Provide.

(** ** Vocabulary of the properties *)

#[global] Instance Roi_inhabited : Inhabited Roi := populate (mkRoi [] []).

(** The scheduler's precondition in dimension [D]: every template ROI has
    [D] axes, and every templated volume type is in the request with a ROI
    of [D] axes. *)
Definition entity_wf (D : nat) (request : BatchSpec) (vt : VolumeType) (t : Roi) : Prop :=
  roi_wf D t /\ from_option (roi_wf D) False (request !! vt).

Definition templated_wf (D : nat) (self : Chunk) : Prop :=
  map_Forall (entity_wf D (request self)) (chunk_spec_template self).

#[global] Instance roi_wf_dec (D : nat) (r : Roi) : Decision (roi_wf D r).
Proof. unfold roi_wf. apply _. Defined.

#[global] Instance entity_wf_dec (D : nat) (request : BatchSpec) (vt : VolumeType) (t : Roi) :
  Decision (entity_wf D request vt t).
Proof. unfold entity_wf. destruct (request !! vt); cbn; apply _. Defined.

#[global] Instance templated_wf_dec (D : nat) (self : Chunk) : Decision (templated_wf D self).
Proof. unfold templated_wf. apply _. Defined.

(** [v] is the minimum (the maximum) of [g] over the entities of a
    template. *)
Definition min_over (tmpl : BatchSpec) (g : VolumeType -> Roi -> Z) (v : Z) : Prop :=
  (exists vt t, tmpl !! vt = Some t /\ g vt t = v) /\
  (forall vt t, tmpl !! vt = Some t -> v <= g vt t).

Definition max_over (tmpl : BatchSpec) (g : VolumeType -> Roi -> Z) (v : Z) : Prop :=
  (exists vt t, tmpl !! vt = Some t /\ g vt t = v) /\
  (forall vt t, tmpl !! vt = Some t -> g vt t <= v).

(** The walk bounds in the words of the specification (section 4.2, steps
    1 to 3), per entity and axis. *)
Definition spec_shape (d : nat) (_ : VolumeType) (t : Roi) : Z := get_shape t !!! d.

Definition spec_initial_shift (request : BatchSpec) (d : nat) (vt : VolumeType) (t : Roi) : Z :=
  get_offset (request !!! vt) !!! d - get_offset t !!! d.

Definition spec_max_shift (request : BatchSpec) (d : nat) (vt : VolumeType) (t : Roi) : Z :=
  get_end (request !!! vt) !!! d - get_shape t !!! d.

(** The rows of [__prepare_requests] lines 119-121 and 125-127. *)
Definition initial_offset_row (request : BatchSpec) (item : VolumeType * Roi) : Coordinate :=
  coord_sub (get_begin (request !!! item.1)) (get_begin item.2).

Definition max_offset_row (request : BatchSpec) (item : VolumeType * Roi) : Coordinate :=
  coord_sub (get_end (request !!! item.1)) (get_shape item.2).

(** The candidate stride of one entity along axis [d] at the offset
    [offset], in the words of the specification (section 4.2, step 5): if
    the far edge of the chunk has not yet reached the far edge of the outer
    request, the distance from the near edge of the chunk to the near edge
    of the request; otherwise the remaining distance to [end[d]]. *)
Definition spec_candidate (request : BatchSpec) (endv offset : list Z) (d : nat)
    (vt : VolumeType) (t : Roi) : Z :=
  let chunk := roi_shift t offset in
  if decide (get_end chunk !!! d < get_end (request !!! vt) !!! d)
  then get_begin (request !!! vt) !!! d - get_begin chunk !!! d
  else endv !!! d - offset !!! d.

(** What one entity contributes to [max_strides]: a row of three
    components whose first [D] are the clamped candidates. *)
Definition clipped_row (request : BatchSpec) (D : nat) (min_stride endv offset : list Z)
    (item : VolumeType * Roi) (row : list Z) : Prop :=
  length row = 3%nat /\
  forall d, (d < D)%nat ->
    row !!! d = Z.max (spec_candidate request endv offset d item.1 item.2)
                      (min_stride !!! d).

(** ** The scenario of section 8, item 7 *)

Definition roi_1d (o s : Z) : Roi := mkRoi [o] [s].

Definition scenario_request : BatchSpec := {[ RAW := roi_1d 0 100 ]}.
Definition scenario_template : BatchSpec := {[ RAW := roi_1d 0 30 ]}.

Definition scenario_chunk : Chunk :=
  mkChunk scenario_template 1 scenario_request 1 None None.

(** The sub-request that places the chunk at [o]. *)
Definition scenario_sub_request (o : Z) : BatchSpec := {[ RAW := roi_1d o 30 ]}.

(** ** Coverage *)

(** The point [p] lies in the ROI that some sub-request of the queue assigns
    to the volume type [vt]. *)
Definition covered (queue : list BatchSpec) (vt : VolumeType) (p : Coordinate) : bool :=
  existsb (fun q => from_option (fun r => roi_contains_point r p) false (q !! vt)) queue.

(** A template centred on the origin: request [0, 100), template
    [-15, 15). *)
Definition centred_template : BatchSpec := {[ RAW := roi_1d (-15) 30 ]}.

Definition centred_chunk : Chunk :=
  mkChunk centred_template 1 scenario_request 1 None None.



(** Every request ROI is longer along axis 0 than the template of its
    volume type. *)
Definition requests_longer (self : Chunk) : Prop :=
  map_Forall (fun vt t => get_shape t !!! 0%nat < get_shape (request self !!! vt) !!! 0%nat)
             (chunk_spec_template self).

#[global] Instance requests_longer_dec (self : Chunk) : Decision (requests_longer self).
Proof. unfold requests_longer. apply _. Defined.


(** Every template ROI has a positive shape on every axis. *)
Definition shapes_positive (self : Chunk) : Prop :=
  map_Forall (fun _ t => Forall (Z.lt 0) (get_shape t)) (chunk_spec_template self).

#[global] Instance shapes_positive_dec (self : Chunk) : Decision (shapes_positive self).
Proof. unfold shapes_positive. apply _. Defined.

(** ** Vocabulary of the assembler *)

(** The array [a] holds the ROI [r], after the leading axes [lead]. *)
Definition array_on (lead : list Z) (r : Roi) (a : ndarray) : Prop :=
  arr_shape a = lead ++ get_shape r.

(** The index [idx] lies within the axes [shape]. *)
Definition in_bounds (shape idx : list Z) : bool :=
  bool_decide (length idx = length shape) &&
  forallb id (zip_with (fun n i => (0 <=? i) && (i <? n)) shape idx).

(** The value that an array holding the ROI [r] has for the point [p], at
    the index [c] of the leading axes. *)
Definition voxel (c : list Z) (r : Roi) (a : ndarray) (p : Coordinate) : Z :=
  arr_at a (c ++ coord_sub p (get_offset r)).

(** What [__fill] needs of a chunk, in dimension [D] and with the leading
    axes [lead vt] for the arrays of type [vt]: the output batch and the
    request know every volume type of the chunk, the ROIs have [D] axes,
    and the arrays hold their ROIs. *)
Definition fillable_volume (D : nat) (lead : VolumeType -> list Z)
    (request : BatchSpec) (batch : Batch) (vt : VolumeType) (vol : Volume) : Prop :=
  roi_wf D (roi vol) /\ array_on (lead vt) (roi vol) (data vol) /\
  from_option
    (fun out => from_option
                  (fun roi_a => roi_wf D roi_a /\ array_on (lead vt) roi_a (data out))
                  False (request !! vt))
    False (batch !! vt).

Definition fillable (D : nat) (lead : VolumeType -> list Z)
    (request : BatchSpec) (batch chunk : Batch) : Prop :=
  map_Forall (fillable_volume D lead request batch) chunk.

#[global] Instance fillable_volume_dec D lead request batch vt vol :
  Decision (fillable_volume D lead request batch vt vol).
Proof.
  unfold fillable_volume, array_on.
  destruct (batch !! vt); destruct (request !! vt); cbn; apply _.
Defined.

#[global] Instance fillable_dec D lead request batch chunk :
  Decision (fillable D lead request batch chunk).
Proof. unfold fillable. apply _. Defined.

(** Two sub-batches that overlap on [80, 90): the first is filled with 1
    on [60, 90), the second with 2 on [80, 110); the output holds the
    request [0, 100). *)
Definition constant_volume (v : Z) (r : Roi) : Volume :=
  mkVolume (mkArray (get_shape r) (fun _ => v)) r [4] true.

Definition overlap_output : Batch := {[ RAW := constant_volume 0 (roi_1d 0 100) ]}.
Definition overlap_first : Batch := {[ RAW := constant_volume 1 (roi_1d 60 30) ]}.
Definition overlap_second : Volume := constant_volume 2 (roi_1d 80 30).

(** The ROIs of a request have no negative shape (the invariant of a ROI
    in section 3 of the specification). *)
Definition shapes_nonneg (request : BatchSpec) : Prop :=
  map_Forall (fun _ r => Forall (Z.le 0) (get_shape r)) request.

#[global] Instance shapes_nonneg_dec (request : BatchSpec) : Decision (shapes_nonneg request).
Proof. unfold shapes_nonneg. apply _. Defined.

(** The volume types of the dict literal of [__setup_batch]. *)
Definition interpolate_keys : list VolumeType :=
  [RAW; GT_LABELS; GT_AFFINITIES; GT_MASK; PRED_AFFINITIES].

(** ** Vocabulary of [provide] *)

(** An upstream provider that also records the requests it is given, in
    the order of the calls. *)
Definition recording {U} (request_batch : U -> BatchSpec -> outcome (Batch * U))
    (s : U * list BatchSpec) (q : BatchSpec) : outcome (Batch * (U * list BatchSpec)) :=
  r ← request_batch s.1 q;
  Return (r.1, (r.2, s.2 ++ [q])).

(** An upstream provider without state that answers every request with
    volumes filled with 1. *)
Definition ones_upstream (u : unit) (q : BatchSpec) : outcome (Batch * unit) :=
  Return (constant_volume 1 <$> q, u).

(** The scenario after [setup]. *)
Definition scenario_ready : Chunk :=
  set_requests scenario_chunk
    [scenario_sub_request 0; scenario_sub_request 30;
     scenario_sub_request 60; scenario_sub_request 90] 4.

(** A request for labels only, scheduled: the chunks that [ones_upstream]
    returns for it hold no RAW volume. *)
Definition labels_request : BatchSpec := {[ GT_LABELS := roi_1d 0 100 ]}.

Definition labels_ready : Chunk :=
  mkChunk {[ GT_LABELS := roi_1d 0 30 ]} 1 labels_request 1
          (Some [{[ GT_LABELS := roi_1d 0 30 ]}; {[ GT_LABELS := roi_1d 30 30 ]};
                 {[ GT_LABELS := roi_1d 60 30 ]}; {[ GT_LABELS := roi_1d 90 30 ]}])
          (Some 4%nat).

(** ** Vocabulary of the schedule *)

(** The sub-request that places the chunk template at [offset]: the
    request, with the ROI of every templated volume type replaced by the
    template ROI shifted by [offset]. *)
Definition placed (self : Chunk) (offset : list Z) : BatchSpec :=
  ((fun t => roi_shift t offset) <$> chunk_spec_template self) ∪ request self.

(** [offset] lies in the box of the walk: [begin <= offset < end] on every
    axis. *)
Definition in_box (begin endv offset : list Z) : Prop :=
  Forall2 Z.le begin offset /\ Forall2 Z.lt offset endv.

(** The order in which the odometer counts: the last axis is the most
    significant one. *)
Fixpoint lex_lt (a b : list Z) : Prop :=
  match a, b with
  | x :: a', y :: b' => x < y \/ (x = y /\ lex_lt a' b')
  | _, _ => False
  end.

Definition odometer_lt (a b : list Z) : Prop := lex_lt (rev a) (rev b).

(** Every offset of the list comes before the ones after it. *)
Fixpoint ascending (l : list (list Z)) : Prop :=
  match l with
  | [] => True
  | a :: l' => Forall (odometer_lt a) l' /\ ascending l'
  end.

(** ** Vocabulary of the coverage by a template of one entity *)

(** Along one axis: the offset [y] places the chunk [j] template shapes [s]
    after the beginning [a] of a request of shape [n], the template
    beginning at [o]; the chunk begins within the request. *)
Definition on_axis (a n o s : Z) (j y : Z) : Prop :=
  0 <= j /\ j * s < n /\ y = a - o + j * s.

(** ** Vocabulary of the assembly *)

(** The leading axes of the arrays of a volume type: the affinities have
    three channels (lines 67-70 of [__setup_batch]). *)
Definition lead_of (vt : VolumeType) : list Z :=
  if decide (vt = PRED_AFFINITIES \/ vt = GT_AFFINITIES) then [3] else [].

(** The output volume of type [vt] for the request ROI [r], before anything
    is filled in. *)
Definition allocated (res : list Z) (vt : VolumeType) (r : Roi) : Volume :=
  mkVolume (mkArray (lead_of vt ++ get_shape r) (fun _ => 0)) r res (bool_decide (vt = RAW)).

(** The batch [b] answers the sub-request [q] from the data [world]: it
    holds the volume types of [q], each with the ROI asked for and an array
    on that ROI whose voxels are those of the world. *)
Definition serves (world : VolumeType -> list Z -> Coordinate -> Z)
    (q : BatchSpec) (b : Batch) : Prop :=
  dom b = dom q /\
  forall vt vol, b !! vt = Some vol ->
    q !! vt = Some (roi vol) /\
    array_on (lead_of vt) (roi vol) (data vol) /\
    forall c p, in_bounds (lead_of vt) c = true -> roi_contains_point (roi vol) p = true ->
      voxel c (roi vol) (data vol) p = world vt c p.

(** A sub-request for [request]: the same volume types, with ROIs of [D]
    axes. *)
Definition sub_request_of (D : nat) (request q : BatchSpec) : Prop :=
  dom q = dom request /\ map_Forall (fun _ r => roi_wf D r) q.

#[global] Instance sub_request_of_dec D request q : Decision (sub_request_of D request q).
Proof. unfold sub_request_of. apply _. Defined.

(** What [__setup_batch] and [__fill] need of a request: ROIs of [D] axes
    and of non-negative shape, for volume types of the table of
    [__setup_batch]. *)
Definition allocatable (D : nat) (request : BatchSpec) : Prop :=
  map_Forall (fun vt r => roi_wf D r /\ (vt ∈ interpolate_keys) /\ Forall (Z.le 0) (get_shape r))
             request.

#[global] Instance allocatable_dec D request : Decision (allocatable D request).
Proof. unfold allocatable. apply _. Defined.

(** The output [batch] after the sub-requests [done] have been filled in:
    it holds the requested volume types on their ROIs, and a voxel has the
    value of the world where a sub-request of [done] covered it, and is
    zero elsewhere. *)
Definition assembled (D : nat) (world : VolumeType -> list Z -> Coordinate -> Z)
    (request : BatchSpec) (done : list BatchSpec) (batch : Batch) : Prop :=
  dom batch = dom request /\
  forall vt r, request !! vt = Some r ->
    exists out, batch !! vt = Some out /\ roi out = r /\
      array_on (lead_of vt) r (data out) /\
      forall c p, length c = length (lead_of vt) -> length p = D ->
        voxel c r (data out) p
        = if in_bounds (lead_of vt) c && roi_contains_point r p && covered done vt p
          then world vt c p else 0.

(** An upstream provider without state that reads every volume from the
    data [world]. *)
Definition world_volume (world : VolumeType -> list Z -> Coordinate -> Z)
    (vt : VolumeType) (r : Roi) : Volume :=
  mkVolume
    (mkArray (lead_of vt ++ get_shape r)
       (fun idx => world vt (take (length (lead_of vt)) idx)
                     (coord_add (drop (length (lead_of vt)) idx) (get_offset r))))
    r [1] (bool_decide (vt = RAW)).

Definition world_upstream (world : VolumeType -> list Z -> Coordinate -> Z)
    (u : unit) (q : BatchSpec) : outcome (Batch * unit) :=
  Return (map_imap (fun vt r => Some (world_volume world vt r)) q, u).

(** The data in which a voxel of any volume type holds its coordinate along
    axis 0. *)
Definition ramp (vt : VolumeType) (c : list Z) (p : Coordinate) : Z := p !!! 0%nat.

(** ** Further scenarios *)

(** The scenario after [setup], with a pool of two workers. *)
Definition scenario_pool : Chunk :=
  mkChunk scenario_template 1 scenario_request 2
    (Some [scenario_sub_request 0; scenario_sub_request 30;
           scenario_sub_request 60; scenario_sub_request 90])
    (Some 4%nat).

(** A template for labels on a request for RAW only. *)
Definition labels_on_raw : Chunk :=
  mkChunk {[ GT_LABELS := roi_1d 0 30 ]} 1 scenario_request 1 None None.

(** A request of empty extent: [0, 0), with the template [0, 30). *)
Definition empty_request_chunk : Chunk :=
  mkChunk scenario_template 1 {[ RAW := roi_1d 0 0 ]} 1 None None.

(** The ROIs of the template, and of the request where it has the volume
    type of a template, have [D] axes. *)
Definition present_wf (D : nat) (self : Chunk) : Prop :=
  map_Forall (fun vt t => roi_wf D t /\ from_option (roi_wf D) True (request self !! vt))
             (chunk_spec_template self).

#[global] Instance present_wf_dec D self : Decision (present_wf D self).
Proof.
  unfold present_wf. apply map_Forall_dec. intros vt t.
  destruct (request self !! vt); cbn; apply _.
Defined.

(** ** The schedule of a template of one entity *)

(** The offsets of a regular grid along one axis: [K] steps of [s] from
    [b]. *)
Definition grid_axis (b s K : Z) : list Z := (fun k => b + k * s) <$> seqZ 0 K.

(** The points with one coordinate from each axis, the first axis running
    fastest, as the odometer counts. *)
Fixpoint grid (axes : list (list Z)) : list (list Z) :=
  match axes with
  | [] => [[]]
  | xs :: rest => tl ← grid rest; (fun x => x :: tl) <$> xs
  end.

(** The number of chunks of shape [s] that it takes to span [n]. *)
Definition ceil_div (n s : Z) : Z := (n + s - 1) / s.

(** The offsets at which a template [t] of one entity is placed for the
    request ROI [r]: from the beginning of [r] minus the offset of [t], in
    steps of the shape of [t], as many as it takes to span [r]. *)
Definition chunk_grid (t r : Roi) : list (list Z) :=
  grid (zip_with (fun b sn => grid_axis b sn.1 (ceil_div sn.2 sn.1))
                 (coord_sub (get_begin r) (get_begin t))
                 (zip (get_shape t) (get_shape r))).

(** * The nodes that add ground-truth volumes
    (gunpowder/nodes/add_gt_binary_map_points.py and
    gunpowder/nodes/add_gt_mask_exclusive_zone.py)

    Both nodes are batch filters: [setup] derives the spec of the node from
    the spec of the upstream provider, [prepare] turns the request of the
    node into the request sent upstream, and [process] adds the volumes of
    the node to the batch that came back.  What is modelled here is their
    handling of specs and requests; the volumes themselves come out of
    [scipy.ndimage.gaussian_filter], which is outside this development. *)

(** The members of [gunpowder.points.PointsType] that the nodes name. *)
Inductive PointsType : Type :=
| PRESYN
| POSTSYN.

#[global] Instance PointsType_eq_dec : EqDecision PointsType.
Proof. solve_decision. Defined.

#[global] Instance PointsType_countable : Countable PointsType.
Proof.
  refine (inj_countable' (fun p => match p with PRESYN => false | POSTSYN => true end)
                         (fun b : bool => if b then POSTSYN else PRESYN) _).
  intros []; reflexivity.
Defined.

(** A provider spec and a request hold two dicts: [volumes], from volume
    types to ROIs, and [points], from points types to ROIs. *)
Record ProviderSpec : Type := mkSpec {
  spec_volumes : gmap VolumeType Roi;
  spec_points : gmap PointsType Roi
}.

(** [k in d], [d[k]] and [del d[k]] on a dict: the last two raise
    [KeyError] when the dict does not hold [k]. *)
Definition dict_in {K V} `{Countable K} (d : gmap K V) (k : K) : bool :=
  match d !! k with
  | Some _ => true
  | None => false
  end.

Definition dict_getitem {K V} `{Countable K} (d : gmap K V) (k : K) : outcome V :=
  match d !! k with
  | Some v => Return v
  | None => Raise KeyError
  end.

Definition dict_delitem {K V} `{Countable K} (d : gmap K V) (k : K) : outcome (gmap K V) :=
  match d !! k with
  | Some _ => Return (delete k d)
  | None => Raise KeyError
  end.

(** Modelled from the spec: [Roi.contains] (gunpowder/roi.py is not among
    the sources).  "contains(other) (other fully inside)". *)
Definition roi_contains_roi (a b : Roi) : bool :=
  bool_decide (roi_dims a = roi_dims b) &&
  forallb id (zip_with Z.leb (get_begin a) (get_begin b)) &&
  forallb id (zip_with Z.leb (get_end b) (get_end a)).

Module AddGtBinaryMapOfPoints.

(** The attributes of the node; [upstream_spec] and [spec] do not exist
    before [setup] has run. *)
Record node : Type := mkNode {
  pointstype_to_volumetypes : gmap PointsType VolumeType;
  skip_next : bool;
  upstream_spec : option ProviderSpec;
  spec : option ProviderSpec
}.

(** [__init__] (lines 23-24). *)
Definition init (pointstype_to_volumetypes : gmap PointsType VolumeType) : node :=
  mkNode pointstype_to_volumetypes false None None.

(** The body of the loop of [setup] (lines 33-34). *)
Definition setup_entry (spec : ProviderSpec) (item : PointsType * VolumeType)
    : outcome ProviderSpec :=
  if dict_in (spec_points spec) item.1 then
    roi ← dict_getitem (spec_points spec) item.1;
    Return (mkSpec (<[item.2 := roi]> (spec_volumes spec)) (spec_points spec))
  else Raise AssertionError.

(** [setup] (lines 27-34); [upstream] is the spec of the upstream
    provider. *)
Definition setup (self : node) (upstream : ProviderSpec) : outcome node :=
  spec ← foldM setup_entry upstream (map_to_list (pointstype_to_volumetypes self));
  Return (mkNode (pointstype_to_volumetypes self) (skip_next self) (Some upstream) (Some spec)).

(** [get_spec] (lines 37-38). *)
Definition get_spec (self : node) : outcome ProviderSpec :=
  match spec self with
  | Some s => Return s
  | None => Raise AttributeError
  end.

(** One pass of the loop of [prepare] (lines 46-59) for the item
    [(points_type, volume_type)] of the copy of the dict; the state is the
    dict of the node and the request. *)
Definition prepare_entry (st : gmap PointsType VolumeType * ProviderSpec)
    (item : PointsType * VolumeType) : outcome (gmap PointsType VolumeType * ProviderSpec) :=
  let request := st.2 in
  p2v ← (if dict_in (spec_volumes request) item.2 then Return st.1
         else dict_delitem st.1 item.1);
  p2v ← (if dict_in (spec_points request) item.1 then Return p2v
         else dict_delitem p2v item.1);
  points_roi ← dict_getitem (spec_points request) item.1;
  volume_roi ← dict_getitem (spec_volumes request) item.2;
  if roi_contains_roi points_roi volume_roi then
    volumes ← dict_delitem (spec_volumes request) item.2;
    Return (p2v, mkSpec volumes (spec_points request))
  else Raise AssertionError.

(** [prepare] (lines 41-62): the node and the request as the call leaves
    them. *)
Definition prepare (self : node) (request : ProviderSpec) : outcome (node * ProviderSpec) :=
  st ← foldM prepare_entry (pointstype_to_volumetypes self, request)
             (map_to_list (pointstype_to_volumetypes self));
  Return (mkNode st.1
                 (if bool_decide (size st.1 = 0%nat) then true else skip_next self)
                 (upstream_spec self) (spec self),
          st.2).

End AddGtBinaryMapOfPoints.

Module AddGtMaskExclusiveZone.

(** The attributes of the node that its handling of specs and requests
    reads and writes ([gaussian_sigma_for_zone] is read by the computation
    of the mask only).  The attributes set by [setup] and by [prepare] do
    not exist before. *)
Record node : Type := mkNode {
  skip_next : bool;
  upstream_spec : option ProviderSpec;
  spec : option ProviderSpec;
  EZ_masks_to_binary_map : option (gmap VolumeType VolumeType);
  EZ_masks_to_create : option (list VolumeType)
}.

(** [__init__] (lines 23-24). *)
Definition init : node := mkNode false None None None None.

(** The dict literal of [setup] (lines 32-33). *)
Definition EZ_table : gmap VolumeType VolumeType :=
  {[ GT_MASK_EXCLUSIVEZONE_PRESYN := GT_BM_PRESYN;
     GT_MASK_EXCLUSIVEZONE_POSTSYN := GT_BM_POSTSYN ]}.

(** The body of the loop of [setup] (lines 35-37). *)
Definition setup_entry (upstream spec : ProviderSpec) (item : VolumeType * VolumeType)
    : outcome ProviderSpec :=
  if dict_in (spec_volumes upstream) item.2 then
    roi ← dict_getitem (spec_volumes spec) item.2;
    Return (mkSpec (<[item.1 := roi]> (spec_volumes spec)) (spec_points spec))
  else Return spec.

(** [setup] (lines 27-37). *)
Definition setup (self : node) (upstream : ProviderSpec) : outcome node :=
  spec ← foldM (setup_entry upstream) upstream (map_to_list EZ_table);
  Return (mkNode (skip_next self) (Some upstream) (Some spec) (Some EZ_table)
                 (EZ_masks_to_create self)).

(** The body of the loop of [prepare] (lines 47-58); the state is the list
    [EZ_masks_to_create] and the request. *)
Definition prepare_entry (st : list VolumeType * ProviderSpec)
    (item : VolumeType * VolumeType) : outcome (list VolumeType * ProviderSpec) :=
  let request := st.2 in
  if dict_in (spec_volumes request) item.1 then
    if dict_in (spec_volumes request) item.2 then
      binary_map_roi ← dict_getitem (spec_volumes request) item.2;
      mask_roi ← dict_getitem (spec_volumes request) item.1;
      if roi_contains_roi binary_map_roi mask_roi then
        volumes ← dict_delitem (spec_volumes request) item.1;
        Return (st.1 ++ [item.1], mkSpec volumes (spec_points request))
      else Raise AssertionError
    else Raise AssertionError
  else Return st.

(** [prepare] (lines 44-62). *)
Definition prepare (self : node) (request : ProviderSpec) : outcome (node * ProviderSpec) :=
  match EZ_masks_to_binary_map self with
  | None => Raise AttributeError
  | Some table =>
      st ← foldM prepare_entry ([], request) (map_to_list table);
      Return (mkNode (if bool_decide (length st.1 = 0%nat) then true else skip_next self)
                     (upstream_spec self) (spec self) (Some table) (Some st.1),
              st.2)
  end.

(** The dict literal of [process] (lines 76-77), indexed. *)
Definition interpolate_table (volume_type : VolumeType) : outcome bool :=
  match volume_type with
  | GT_MASK_EXCLUSIVEZONE_PRESYN => Return true
  | GT_MASK_EXCLUSIVEZONE_POSTSYN => Return true
  | _ => Raise KeyError
  end.

Section Process.

(** [__get_exclusivezone_mask] (lines 86-100): the mask for a binary map and
    the shape of the mask.  It filters the map with
    [scipy.ndimage.gaussian_filter]; [process] is modelled over what it
    returns. *)
Variable get_exclusivezone_mask : ndarray -> Coordinate -> outcome ndarray.

(** The body of the loop of [process] (lines 72-83). *)
Definition process_mask (table : gmap VolumeType VolumeType) (request : ProviderSpec)
    (batch : Batch) (EZ_mask_type : VolumeType) : outcome Batch :=
  binary_map_type ← dict_getitem table EZ_mask_type;
  binary_map ← dict_getitem batch binary_map_type;
  interp ← interpolate_table EZ_mask_type;
  mask_roi ← dict_getitem (spec_volumes request) EZ_mask_type;
  EZ_mask ← get_exclusivezone_mask (data binary_map) (get_shape mask_roi);
  Return (<[EZ_mask_type := mkVolume EZ_mask mask_roi (resolution binary_map) interp]> batch).

(** [process] (lines 65-83): the node and the batch as the call leaves
    them. *)
Definition process (self : node) (batch : Batch) (request : ProviderSpec)
    : outcome (node * Batch) :=
  if skip_next self then
    Return (mkNode false (upstream_spec self) (spec self) (EZ_masks_to_binary_map self)
                   (EZ_masks_to_create self),
            batch)
  else
    match EZ_masks_to_create self, EZ_masks_to_binary_map self with
    | Some masks, Some table =>
        batch' ← foldM (process_mask table request) batch masks;
        Return (self, batch')
    | _, _ => Raise AttributeError
    end.

End Process.

End AddGtMaskExclusiveZone.

(** ** Scenarios of the two nodes *)

(** A node that makes the binary map of the presynaptic points; a request
    for it; and a request for RAW only. *)
Definition presyn_node : AddGtBinaryMapOfPoints.node :=
  AddGtBinaryMapOfPoints.init {[ PRESYN := GT_BM_PRESYN ]}.

Definition presyn_request : ProviderSpec :=
  mkSpec {[ RAW := roi_1d 0 100; GT_BM_PRESYN := roi_1d 10 50 ]} {[ PRESYN := roi_1d 0 100 ]}.

Definition raw_request : ProviderSpec :=
  mkSpec {[ RAW := roi_1d 0 100 ]} {[ PRESYN := roi_1d 0 100 ]}.

(** The exclusive-zone node after [setup]. *)
Definition zone_node : AddGtMaskExclusiveZone.node :=
  AddGtMaskExclusiveZone.mkNode false None None (Some AddGtMaskExclusiveZone.EZ_table) None.

(** A request for the exclusive zone of the presynaptic binary map, within
    the binary map. *)
Definition zone_request : ProviderSpec :=
  mkSpec {[ GT_BM_PRESYN := roi_1d 0 100; GT_MASK_EXCLUSIVEZONE_PRESYN := roi_1d 10 50 ]} ∅.

(** * Properties *)

(** ** Results of loops *)

(** Reduce the binds of a result already computed. *)
Ltac obind := cbn [mbind outcome_bind obind mret outcome_ret].

Lemma mapM_Return {A B} (g : A -> outcome B) (h : A -> B) (l : list A) :
  (forall x, x ∈ l -> g x = Return (h x)) -> mapM g l = Return (h <$> l).
Proof.
  induction l as [|x l IH]; intros Hg; [reflexivity|].
  cbn [mapM]. rewrite (Hg x) by left. cbn.
  rewrite IH; [reflexivity|]. intros y Hy. apply Hg. by right.
Qed.

Lemma getitem_Return {A} (l : list A) (i : nat) (x : A) :
  l !! i = Some x -> getitem l i = Return x.
Proof. unfold getitem. by intros ->. Qed.

Lemma setitem_Return {A} (l : list A) (i : nat) (x : A) :
  (i < length l)%nat -> setitem l i x = Return (<[i:=x]> l).
Proof. unfold setitem. intros H. by rewrite decide_True. Qed.


(** ** Column-wise reductions *)

Section Columnwise.

Variable f : Z -> Z -> Z.
Variable R : Z -> Z -> Prop.
Hypothesis R_refl : forall x, R x x.
Hypothesis R_trans : forall x y z, R x y -> R y z -> R x z.
Hypothesis f_l : forall x y, R (f x y) x.
Hypothesis f_r : forall x y, R (f x y) y.
Hypothesis f_sel : forall x y, f x y = x \/ f x y = y.

Lemma columnwise_length (D : nat) (r : list Z) (rs : list (list Z)) :
  length r = D -> Forall (fun row => length row = D) rs ->
  length (columnwise f r rs) = D.
Proof.
  unfold columnwise. revert r.
  induction rs as [|r' rs IH]; intros r Hr Hrs; [done|].
  inversion Hrs as [|? ? Hr' Hrs']; subst. cbn [foldl].
  apply IH; [|done]. rewrite length_zip_with. lia.
Qed.

(** Component [d] of the reduction is the component [d] of one of the
    rows, and it is [R]-related to that of every row. *)
Lemma columnwise_lookup (D : nat) (r : list Z) (rs : list (list Z)) (d : nat) :
  length r = D -> Forall (fun row => length row = D) rs -> (d < D)%nat ->
  exists x, columnwise f r rs !! d = Some x /\
    (exists row, row ∈ r :: rs /\ row !! d = Some x) /\
    (forall row y, row ∈ r :: rs -> row !! d = Some y -> R x y).
Proof.
  unfold columnwise. revert r.
  induction rs as [|r' rs IH]; intros r Hr Hrs Hd.
  - destruct (lookup_lt_is_Some_2 r d) as [x Hx]; [lia|].
    exists x. cbn [foldl]. split; [done|]. split.
    + exists r. split; [by left|done].
    + intros row y Hrow Hy. apply list_elem_of_singleton in Hrow. subst row.
      rewrite Hx in Hy. by inversion Hy.
  - inversion Hrs as [|? ? Hr' Hrs']; subst. cbn [foldl].
    destruct (lookup_lt_is_Some_2 r d) as [a Ha]; [lia|].
    destruct (lookup_lt_is_Some_2 r' d) as [b Hb]; [lia|].
    assert (Hz : zip_with f r r' !! d = Some (f a b)).
    { rewrite lookup_zip_with, Ha, Hb. done. }
    destruct (IH (zip_with f r r')) as (x & Hx & (row & Hrow & Hrx) & Hall);
      [rewrite length_zip_with; lia|done|done|].
    exists x. split; [done|]. split.
    + apply elem_of_cons in Hrow as [->|Hrow].
      * rewrite Hz in Hrx. inversion Hrx as [Hfx].
        destruct (f_sel a b) as [Hs|Hs]; rewrite Hs.
        -- exists r. split; [by left|done].
        -- exists r'. split; [right; by left|done].
      * exists row. split; [by do 2 right|done].
    + intros row' y Hrow' Hy.
      assert (Hfab : R x (f a b)) by (apply (Hall (zip_with f r r')); [by left|done]).
      apply elem_of_cons in Hrow' as [->|Hrow'].
      * rewrite Ha in Hy. inversion Hy; subst. eapply R_trans; [exact Hfab|apply f_l].
      * apply elem_of_cons in Hrow' as [->|Hrow'].
        -- rewrite Hb in Hy. inversion Hy; subst. eapply R_trans; [exact Hfab|apply f_r].
        -- apply (Hall row'); [by right|done].
Qed.

End Columnwise.

Lemma columnwise_min_lookup (D : nat) (r : list Z) (rs : list (list Z)) (d : nat) :
  length r = D -> Forall (fun row => length row = D) rs -> (d < D)%nat ->
  exists x, columnwise Z.min r rs !! d = Some x /\
    (exists row, row ∈ r :: rs /\ row !! d = Some x) /\
    (forall row y, row ∈ r :: rs -> row !! d = Some y -> x <= y).
Proof.
  apply (columnwise_lookup Z.min Z.le); intros; lia.
Qed.

Lemma columnwise_max_lookup (D : nat) (r : list Z) (rs : list (list Z)) (d : nat) :
  length r = D -> Forall (fun row => length row = D) rs -> (d < D)%nat ->
  exists x, columnwise Z.max r rs !! d = Some x /\
    (exists row, row ∈ r :: rs /\ row !! d = Some x) /\
    (forall row y, row ∈ r :: rs -> row !! d = Some y -> y <= x).
Proof.
  apply (columnwise_lookup Z.max (fun x y => y <= x)); intros; lia.
Qed.

(** ** The walk bounds *)

Lemma templated_wf_lookup (D : nat) (self : Chunk) (vt : VolumeType) (t : Roi) :
  templated_wf D self ->
  chunk_spec_template self !! vt = Some t ->
  roi_wf D t /\ exists q, request self !! vt = Some q /\ roi_wf D q.
Proof.
  intros Hwf Ht. destruct (Hwf vt t Ht) as [Htwf Hq]. split; [done|].
  destruct (request self !! vt) as [q|]; [|done]. by exists q.
Qed.

Lemma lookup_total_zip_with (f : Z -> Z -> Z) (a b : list Z) (d : nat) :
  (d < length a)%nat -> (d < length b)%nat ->
  zip_with f a b !!! d = f (a !!! d) (b !!! d).
Proof.
  intros Ha Hb.
  destruct (lookup_lt_is_Some_2 a d Ha) as [x Hx].
  destruct (lookup_lt_is_Some_2 b d Hb) as [y Hy].
  apply list_lookup_total_correct.
  rewrite lookup_zip_with, Hx, Hy. cbn.
  by rewrite (list_lookup_total_correct _ _ _ Hx), (list_lookup_total_correct _ _ _ Hy).
Qed.

Lemma min_over_ext (tmpl : BatchSpec) (g g' : VolumeType -> Roi -> Z) (v : Z) :
  (forall vt t, tmpl !! vt = Some t -> g vt t = g' vt t) ->
  min_over tmpl g v -> min_over tmpl g' v.
Proof.
  intros Hext [(vt & t & Ht & Hv) Hle]. split.
  - exists vt, t. split; [done|]. by rewrite <- Hext.
  - intros vt' t' Ht'. rewrite <- Hext by done. by apply Hle.
Qed.

Lemma max_over_ext (tmpl : BatchSpec) (g g' : VolumeType -> Roi -> Z) (v : Z) :
  (forall vt t, tmpl !! vt = Some t -> g vt t = g' vt t) ->
  max_over tmpl g v -> max_over tmpl g' v.
Proof.
  intros Hext [(vt & t & Ht & Hv) Hle]. split.
  - exists vt, t. split; [done|]. by rewrite <- Hext.
  - intros vt' t' Ht'. rewrite <- Hext by done. by apply Hle.
Qed.

(** The rows computed from the items of a template, reduced column by
    column, give the minimum (maximum) over the template on every axis. *)
Section OverTemplate.

Variable tmpl : BatchSpec.
Variable D : nat.
Variable h : VolumeType * Roi -> list Z.
Variable i0 : VolumeType * Roi.
Variable items : list (VolumeType * Roi).
Hypothesis Hitems : map_to_list tmpl = i0 :: items.
Hypothesis Hlen : forall vt t, tmpl !! vt = Some t -> length (h (vt, t)) = D.

Lemma rows_length : length (h i0) = D /\ Forall (fun row => length row = D) (h <$> items).
Proof.
  split.
  - destruct i0 as [vt t]. apply Hlen. apply elem_of_map_to_list.
    rewrite Hitems. by left.
  - apply Forall_fmap, Forall_forall. intros [vt t] Hin. cbn.
    apply Hlen. apply elem_of_map_to_list. rewrite Hitems. by right.
Qed.

Lemma row_of_template (row : list Z) :
  row ∈ h i0 :: (h <$> items) ->
  exists vt t, tmpl !! vt = Some t /\ row = h (vt, t).
Proof.
  change (h i0 :: (h <$> items)) with (h <$> (i0 :: items)).
  rewrite <- Hitems. intros Hrow.
  apply list_elem_of_fmap in Hrow as ([vt t] & -> & Hin).
  apply elem_of_map_to_list in Hin. by exists vt, t.
Qed.

Lemma template_row (vt : VolumeType) (t : Roi) :
  tmpl !! vt = Some t -> h (vt, t) ∈ h i0 :: (h <$> items).
Proof.
  intros Ht. change (h i0 :: (h <$> items)) with (h <$> (i0 :: items)).
  rewrite <- Hitems. apply list_elem_of_fmap. exists (vt, t). split; [done|].
  by apply elem_of_map_to_list.
Qed.

Lemma columnwise_min_over (d : nat) :
  (d < D)%nat ->
  min_over tmpl (fun vt t => h (vt, t) !!! d) (columnwise Z.min (h i0) (h <$> items) !!! d).
Proof.
  intros Hd. destruct rows_length as [H0 Hrs].
  destruct (columnwise_min_lookup D _ _ d H0 Hrs Hd) as (x & Hx & (row & Hrow & Hrx) & Hall).
  rewrite (list_lookup_total_correct _ _ _ Hx). split.
  - apply row_of_template in Hrow as (vt & t & Ht & ->).
    exists vt, t. split; [done|]. by apply list_lookup_total_correct.
  - intros vt t Ht.
    destruct (lookup_lt_is_Some_2 (h (vt, t)) d) as [y Hy]; [rewrite Hlen; done|].
    rewrite (list_lookup_total_correct _ _ _ Hy).
    apply (Hall (h (vt, t))); [by apply template_row|done].
Qed.

Lemma columnwise_max_over (d : nat) :
  (d < D)%nat ->
  max_over tmpl (fun vt t => h (vt, t) !!! d) (columnwise Z.max (h i0) (h <$> items) !!! d).
Proof.
  intros Hd. destruct rows_length as [H0 Hrs].
  destruct (columnwise_max_lookup D _ _ d H0 Hrs Hd) as (x & Hx & (row & Hrow & Hrx) & Hall).
  rewrite (list_lookup_total_correct _ _ _ Hx). split.
  - apply row_of_template in Hrow as (vt & t & Ht & ->).
    exists vt, t. split; [done|]. by apply list_lookup_total_correct.
  - intros vt t Ht.
    destruct (lookup_lt_is_Some_2 (h (vt, t)) d) as [y Hy]; [rewrite Hlen; done|].
    rewrite (list_lookup_total_correct _ _ _ Hy).
    apply (Hall (h (vt, t))); [by apply template_row|done].
Qed.

End OverTemplate.

Lemma get_end_length (D : nat) (r : Roi) : roi_wf D r -> length (get_end r) = D.
Proof. intros [Ho Hs]. unfold get_end, coord_add. rewrite length_zip_with. lia. Qed.

Lemma np_broadcast_same (f : Z -> Z -> Z) (a b : list Z) :
  length a = length b -> np_broadcast f a b = Return (zip_with f a b).
Proof. intros H. unfold np_broadcast. by rewrite decide_True. Qed.

Section WalkBounds.

Variable self : Chunk.
Variable D : nat.
Hypothesis Hne : chunk_spec_template self ≠ ∅.
Hypothesis Hwf : templated_wf D self.

Lemma initial_offset_Return (item : VolumeType * Roi) :
  item ∈ map_to_list (chunk_spec_template self) ->
  initial_offset (request self) item = Return (initial_offset_row (request self) item).
Proof.
  destruct item as [vt t]. intros Hin. apply elem_of_map_to_list in Hin.
  destruct (templated_wf_lookup _ _ _ _ Hwf Hin) as (_ & q & Hq & _).
  unfold initial_offset, initial_offset_row, dict_get. cbn.
  by rewrite (lookup_total_correct _ _ _ Hq), Hq.
Qed.

Lemma max_offset_Return (item : VolumeType * Roi) :
  item ∈ map_to_list (chunk_spec_template self) ->
  max_offset (request self) (chunk_spec_template self) item
  = Return (max_offset_row (request self) item).
Proof.
  destruct item as [vt t]. intros Hin. apply elem_of_map_to_list in Hin.
  destruct (templated_wf_lookup _ _ _ _ Hwf Hin) as (_ & q & Hq & _).
  unfold max_offset, max_offset_row, dict_get. cbn.
  by rewrite (lookup_total_correct _ _ _ Hq), Hq, Hin.
Qed.

Lemma initial_offset_row_length (vt : VolumeType) (t : Roi) :
  chunk_spec_template self !! vt = Some t ->
  length (initial_offset_row (request self) (vt, t)) = D.
Proof.
  intros Ht. destruct (templated_wf_lookup _ _ _ _ Hwf Ht) as ([Ho _] & q & Hq & [Hqo _]).
  unfold initial_offset_row, coord_sub, get_begin. cbn.
  rewrite (lookup_total_correct _ _ _ Hq), length_zip_with. lia.
Qed.

Lemma max_offset_row_length (vt : VolumeType) (t : Roi) :
  chunk_spec_template self !! vt = Some t ->
  length (max_offset_row (request self) (vt, t)) = D.
Proof.
  intros Ht. destruct (templated_wf_lookup _ _ _ _ Hwf Ht) as ([_ Hs] & q & Hq & Hqwf).
  unfold max_offset_row, coord_sub, get_shape. cbn.
  rewrite (lookup_total_correct _ _ _ Hq), length_zip_with, (get_end_length D) by done. lia.
Qed.

Lemma shape_row_length (vt : VolumeType) (t : Roi) :
  chunk_spec_template self !! vt = Some t ->
  length ((fun item : VolumeType * Roi => get_shape item.2) (vt, t)) = D.
Proof. intros Ht. by destruct (templated_wf_lookup _ _ _ _ Hwf Ht) as ([_ Hs] & _). Qed.

(** The three vectors, as column-wise reductions over the items of the
    template. *)
Lemma walk_bounds_Return :
  exists i0 items, map_to_list (chunk_spec_template self) = i0 :: items /\
    walk_bounds self = Return
      (columnwise Z.min (get_shape i0.2) ((fun item => get_shape item.2) <$> items),
       columnwise Z.min (initial_offset_row (request self) i0)
                        (initial_offset_row (request self) <$> items),
       zip_with Z.add
         (columnwise Z.max (max_offset_row (request self) i0)
                           (max_offset_row (request self) <$> items))
         (columnwise Z.min (get_shape i0.2) ((fun item => get_shape item.2) <$> items))).
Proof.
  destruct (map_to_list (chunk_spec_template self)) as [|i0 items] eqn:Hitems.
  { by apply map_to_list_empty_iff in Hitems. }
  exists i0, items. split; [done|].
  unfold walk_bounds, get_common_roi_shape. rewrite Hitems.
  rewrite (mapM_Return (initial_offset (request self)) (initial_offset_row (request self)))
    by (intros x Hx; apply initial_offset_Return; by rewrite Hitems).
  rewrite (mapM_Return (max_offset (request self) (chunk_spec_template self)) (max_offset_row (request self)))
    by (intros x Hx; apply max_offset_Return; by rewrite Hitems).
  cbn. rewrite np_broadcast_same; [done|].
  destruct (rows_length _ D (max_offset_row (request self)) i0 items Hitems
              max_offset_row_length) as [H1 H2].
  destruct (rows_length _ D (fun item => get_shape item.2) i0 items Hitems
              shape_row_length) as [H3 H4].
  rewrite (columnwise_length Z.max D), (columnwise_length Z.min D); done.
Qed.

End WalkBounds.

(** The walk bounds exist and have [D] components; [min_stride] and
    [begin] are minima over the template on every axis. *)
Lemma walk_bounds_extrema (self : Chunk) (D : nat) :
  chunk_spec_template self ≠ ∅ ->
  templated_wf D self ->
  exists min_stride begin endv,
    walk_bounds self = Return (min_stride, begin, endv) /\
    length min_stride = D /\ length begin = D /\ length endv = D /\
    forall d, (d < D)%nat ->
      min_over (chunk_spec_template self) (spec_shape d) (min_stride !!! d) /\
      min_over (chunk_spec_template self) (spec_initial_shift (request self) d) (begin !!! d).
Proof.
  intros Hne Hwf.
  destruct (walk_bounds_Return self D Hne Hwf) as (i0 & items & Hitems & Hwb).
  destruct (rows_length _ D (max_offset_row (request self)) i0 items Hitems
              (max_offset_row_length self D Hwf)) as [H1 H2].
  destruct (rows_length _ D (fun item => get_shape item.2) i0 items Hitems
              (shape_row_length self D Hwf)) as [H3 H4].
  destruct (rows_length _ D (initial_offset_row (request self)) i0 items Hitems
              (initial_offset_row_length self D Hwf)) as [H5 H6].
  eexists _, _, _. split; [exact Hwb|].
  assert (Hlmin := columnwise_length Z.min D _ _ H3 H4).
  assert (Hlmax := columnwise_length Z.max D _ _ H1 H2).
  split; [done|]. split; [by apply (columnwise_length Z.min D)|].
  cbv beta in *.
  split. { rewrite length_zip_with, Hlmax, Hlmin. lia. }
  intros d Hd. split.
  - apply (columnwise_min_over _ D (fun item => get_shape item.2) i0 items Hitems
             (shape_row_length self D Hwf) d Hd).
  - eapply min_over_ext;
      [|apply (columnwise_min_over _ D (initial_offset_row (request self)) i0 items Hitems
                 (initial_offset_row_length self D Hwf) d Hd)].
    intros vt t Ht. destruct (templated_wf_lookup _ _ _ _ Hwf Ht) as ([Ho _] & q & Hq & [Hqo _]).
    unfold initial_offset_row, spec_initial_shift, coord_sub, get_begin, get_offset. cbn.
    apply lookup_total_zip_with; rewrite ?(lookup_total_correct _ _ _ Hq); lia.
Qed.

(** C4.  Under the scheduler's precondition, [__prepare_requests] derives
    its walk bounds as the specification says: on every axis [d],
    [min_stride[d]] is the smallest template shape, [begin[d]] is the
    minimum over the templated entities of the request offset minus the
    template offset, and [end[d]] is [min_stride[d]] plus the maximum over
    the templated entities of the request end minus the template shape. *)
Theorem walk_bounds_spec (self : Chunk) (D : nat) :
  chunk_spec_template self ≠ ∅ ->
  templated_wf D self ->
  exists min_stride begin endv,
    walk_bounds self = Return (min_stride, begin, endv) /\
    length min_stride = D /\ length begin = D /\ length endv = D /\
    forall d, (d < D)%nat ->
      min_over (chunk_spec_template self) (spec_shape d) (min_stride !!! d) /\
      min_over (chunk_spec_template self) (spec_initial_shift (request self) d) (begin !!! d) /\
      exists top,
        max_over (chunk_spec_template self) (spec_max_shift (request self) d) top /\
        endv !!! d = min_stride !!! d + top.
Proof.
  intros Hne Hwf.
  destruct (walk_bounds_extrema self D Hne Hwf)
    as (min_stride & begin & endv & Hwb & Hms & Hb & He & Hmin).
  exists min_stride, begin, endv. do 4 (split; [done|]).
  intros d Hd. destruct (Hmin d Hd) as [Hshape Hbegin].
  split; [done|]. split; [done|].
  (* [end] is the sum of the column-wise maximum and [min_stride] *)
  destruct (walk_bounds_Return self D Hne Hwf) as (i0 & items & Hitems & Hwb').
  rewrite Hwb in Hwb'. inversion Hwb' as [[Hms' Hb' He']]. clear Hwb'.
  destruct (rows_length _ D (max_offset_row (request self)) i0 items Hitems
              (max_offset_row_length self D Hwf)) as [H1 H2].
  assert (Hlmax := columnwise_length Z.max D _ _ H1 H2).
  exists (columnwise Z.max (max_offset_row (request self) i0)
                           (max_offset_row (request self) <$> items) !!! d).
  split.
  - eapply max_over_ext;
      [|apply (columnwise_max_over _ D (max_offset_row (request self)) i0 items Hitems
                 (max_offset_row_length self D Hwf) d Hd)].
    intros vt t Ht.
    destruct (templated_wf_lookup _ _ _ _ Hwf Ht) as ([_ Hs] & q & Hq & Hqwf).
    unfold max_offset_row, spec_max_shift, coord_sub, get_shape. cbn.
    apply lookup_total_zip_with;
      rewrite ?(lookup_total_correct _ _ _ Hq), ?(get_end_length D); done || lia.
  - rewrite lookup_total_zip_with by (rewrite ?Hlmax, <- ?Hms', ?Hms; lia). lia.
Qed.

Lemma walk_bounds_spec_witness :
  chunk_spec_template scenario_chunk ≠ ∅ /\
  templated_wf 1 scenario_chunk /\
  exists min_stride begin endv,
    walk_bounds scenario_chunk = Return (min_stride, begin, endv) /\
    length min_stride = 1%nat /\ length begin = 1%nat /\ length endv = 1%nat /\
    forall d, (d < 1)%nat ->
      min_over (chunk_spec_template scenario_chunk) (spec_shape d) (min_stride !!! d) /\
      min_over (chunk_spec_template scenario_chunk)
               (spec_initial_shift (request scenario_chunk) d) (begin !!! d) /\
      exists top,
        max_over (chunk_spec_template scenario_chunk)
                 (spec_max_shift (request scenario_chunk) d) top /\
        endv !!! d = min_stride !!! d + top.
Proof.
  assert (H1 : chunk_spec_template scenario_chunk ≠ ∅)
    by (apply (bool_decide_unpack _); vm_compute; exact I).
  assert (H2 : templated_wf 1 scenario_chunk)
    by (apply (bool_decide_unpack _); vm_compute; exact I).
  split; [exact H1|]. split; [exact H2|].
  exact (walk_bounds_spec scenario_chunk 1 H1 H2).
Defined.

(** ** The stride of one step *)

Lemma getitem_total (l : list Z) (i : nat) :
  (i < length l)%nat -> getitem l i = Return (l !!! i).
Proof.
  intros H. destruct (lookup_lt_is_Some_2 l i H) as [x Hx].
  rewrite (list_lookup_total_correct _ _ _ Hx). by apply getitem_Return.
Qed.

Lemma roi_shift_wf (D : nat) (t : Roi) (offset : list Z) :
  roi_wf D t -> length offset = D -> roi_wf D (roi_shift t offset).
Proof.
  intros [Ho Hs] Hl. split; cbn; [|done].
  unfold coord_add. rewrite length_zip_with. lia.
Qed.

Section Candidates.

Variable self_request chunk_request : BatchSpec.
Variable D : nat.
Variable vt : VolumeType.
Variables t q : Roi.
Variables endv offset : list Z.
Hypothesis Ht : roi_wf D t.
Hypothesis Hq : self_request !! vt = Some q.
Hypothesis Hqwf : roi_wf D q.
Hypothesis Hc : chunk_request !! vt = Some (roi_shift t offset).
Hypothesis Hend : length endv = D.
Hypothesis Hoff : length offset = D.

Lemma stride_candidate_Return (buf : list Z) (d : nat) :
  (d < D)%nat -> (d < length buf)%nat ->
  stride_candidate self_request chunk_request vt endv offset buf d
  = Return (<[d := spec_candidate self_request endv offset d vt t]> buf).
Proof.
  intros Hd Hb.
  assert (Hcwf := roi_shift_wf D t offset Ht Hoff).
  unfold stride_candidate, spec_candidate, dict_get.
  rewrite Hq, Hc, (lookup_total_correct _ _ _ Hq). obind.
  assert (Hqe := get_end_length D q Hqwf).
  assert (Hce := get_end_length D _ Hcwf).
  destruct Hqwf as [Hqo _]. destruct Hcwf as [Hco _].
  rewrite (getitem_total (get_end q)) by lia. obind.
  rewrite (getitem_total (get_end (roi_shift t offset))) by lia. obind.
  destruct (decide (get_end q !!! d > get_end (roi_shift t offset) !!! d)) as [Hgt|Hgt].
  - rewrite decide_True by lia.
    rewrite (getitem_total (get_begin q)) by (unfold get_begin; lia). obind.
    rewrite (getitem_total (get_begin (roi_shift t offset))) by (unfold get_begin; lia). obind.
    by apply setitem_Return.
  - rewrite decide_False by lia.
    rewrite (getitem_total endv) by lia. obind.
    rewrite (getitem_total offset) by lia. obind.
    by apply setitem_Return.
Qed.

(** The [for dim] loop over the axes [k, ..., k+n-1]. *)
Lemma stride_candidates_Return (n k : nat) (buf : list Z) :
  (k + n <= D)%nat -> (k + n <= length buf)%nat ->
  exists buf',
    foldM (stride_candidate self_request chunk_request vt endv offset) buf (seq k n)
    = Return buf' /\
    length buf' = length buf /\
    (forall d, (k <= d < k + n)%nat ->
       buf' !! d = Some (spec_candidate self_request endv offset d vt t)) /\
    (forall d, ~ (k <= d < k + n)%nat -> buf' !! d = buf !! d).
Proof.
  revert k buf. induction n as [|n IH]; intros k buf HD Hlen.
  - exists buf. cbn. split; [done|]. split; [done|]. split; [intros; lia|done].
  - cbn [seq foldM]. rewrite stride_candidate_Return by lia. cbn.
    destruct (IH (S k) (<[k := spec_candidate self_request endv offset k vt t]> buf))
      as (buf' & Hfold & Hl & Hin & Hout); [lia|rewrite length_insert; lia|].
    exists buf'. split; [done|]. split; [by rewrite Hl, length_insert|]. split.
    + intros d Hd. destruct (decide (d = k)) as [->|Hne].
      * rewrite Hout by lia. apply list_lookup_insert_eq. lia.
      * apply Hin. lia.
    + intros d Hd. rewrite Hout by lia. apply list_lookup_insert_ne. lia.
Qed.

End Candidates.

(** Clipping the buffer of three components against a [min_stride] of one
    or of three components. *)
Lemma np_clip_min_3 (D : nat) (buf min_stride : list Z) :
  (D = 1 \/ D = 3)%nat -> length buf = 3%nat -> length min_stride = D ->
  exists row, np_clip_min buf min_stride = Return row /\ length row = 3%nat /\
    forall d, (d < D)%nat -> row !!! d = Z.max (buf !!! d) (min_stride !!! d).
Proof.
  intros HD Hb Hm. unfold np_clip_min, np_broadcast.
  destruct buf as [|x0 [|x1 [|x2 [|]]]]; try discriminate.
  destruct HD as [-> | ->].
  - destruct min_stride as [|m0 [|]]; try discriminate. cbn.
    eexists. split; [reflexivity|]. split; [done|].
    intros d Hd. assert (d = 0%nat) as -> by lia. done.
  - destruct min_stride as [|m0 [|m1 [|m2 [|]]]]; try discriminate. cbn.
    eexists. split; [reflexivity|]. split; [done|].
    intros [|[|[|d]]] Hd; try lia; done.
Qed.


(** A loop that appends one row per item. *)
Lemma foldM_rows {A} (f : BatchSpec * list (list Z) -> A -> outcome (BatchSpec * list (list Z)))
    (upd : BatchSpec -> A -> BatchSpec) (P : A -> list Z -> Prop) (l : list A) :
  (forall st x, x ∈ l ->
     exists row, f st x = Return (upd st.1 x, st.2 ++ [row]) /\ P x row) ->
  forall st, exists rows,
    foldM f st l = Return (foldl upd st.1 l, st.2 ++ rows) /\ Forall2 P l rows.
Proof.
  induction l as [|x l IH]; intros Hf st.
  - exists []. cbn. rewrite app_nil_r. by destruct st.
  - destruct (Hf st x) as (row & Hx & HP); [by left|].
    destruct (IH (fun st' y Hy => Hf st' y (list_elem_of_further _ _ _ Hy))
                 (upd st.1 x, st.2 ++ [row])) as (rows & Hfold & Hall).
    exists (row :: rows). cbn [foldM]. rewrite Hx. cbn.
    cbn in Hfold. rewrite Hfold. rewrite <- app_assoc. split; [done|].
    by constructor.
Qed.

Lemma odometer_Return (self_dims : nat) (begin endv stride : list Z) :
  length begin = self_dims -> length endv = self_dims ->
  (self_dims <= length stride)%nat ->
  forall n d offset, (d + n <= self_dims)%nat -> length offset = self_dims ->
    exists offset', odometer self_dims begin endv stride offset d n = Return offset' /\
      length offset' = self_dims.
Proof.
  intros Hb He Hs. induction n as [|n IH]; intros d offset Hd Ho.
  - exists offset. done.
  - cbn [odometer].
    rewrite (getitem_total offset) by lia. obind.
    rewrite (getitem_total stride) by lia. obind.
    rewrite setitem_Return by lia. obind.
    rewrite (getitem_total endv) by lia. obind.
    destruct (decide (offset !!! d + stride !!! d >= endv !!! d)).
    + destruct (decide (d = self_dims - 1)%nat).
      * eexists. split; [done|]. by rewrite length_insert.
      * rewrite (getitem_total begin) by lia. obind.
        rewrite setitem_Return by (rewrite length_insert; lia). obind.
        apply IH; [lia|]. by rewrite !length_insert.
    + eexists. split; [done|]. by rewrite length_insert.
Qed.

(** The minimum over a non-empty template exists. *)
Lemma list_min_exists {A} (g : A -> Z) (l : list A) :
  l <> [] -> exists x, x ∈ l /\ forall y, y ∈ l -> g x <= g y.
Proof.
  induction l as [|a l IH]; [done|]. intros _.
  destruct l as [|b l].
  - exists a. split; [by left|]. intros y Hy.
    apply list_elem_of_singleton in Hy. subst. lia.
  - destruct IH as (x & Hx & Hmin); [done|].
    destruct (decide (g a <= g x)).
    + exists a. split; [by left|]. intros y Hy.
      apply elem_of_cons in Hy as [->|Hy]; [lia|]. specialize (Hmin y Hy). lia.
    + exists x. split; [by right|]. intros y Hy.
      apply elem_of_cons in Hy as [->|Hy]; [lia|]. by apply Hmin.
Qed.

Lemma min_over_exists (tmpl : BatchSpec) (g : VolumeType -> Roi -> Z) :
  tmpl ≠ ∅ -> exists m, min_over tmpl g m.
Proof.
  intros Hne.
  destruct (list_min_exists (fun item : VolumeType * Roi => g item.1 item.2) (map_to_list tmpl))
    as ([vt t] & Hin & Hmin).
  { intros H. by apply map_to_list_empty_iff in H. }
  exists (g vt t). split.
  - exists vt, t. split; [by apply elem_of_map_to_list|done].
  - intros vt' t' Ht'. apply (Hmin (vt', t')). by apply elem_of_map_to_list.
Qed.

Section Stride.

Variable self : Chunk.
Variable D : nat.
Variables min_stride begin endv offset : list Z.
Hypothesis HD : (D = 1 \/ D = 3)%nat.
Hypothesis Hwf : templated_wf D self.
Hypothesis Hms : length min_stride = D.
Hypothesis Hend : length endv = D.
Hypothesis Hoff : length offset = D.

Lemma visit_volume_Return (st : BatchSpec * list (list Z)) (item : VolumeType * Roi) :
  item ∈ map_to_list (chunk_spec_template self) ->
  exists row,
    visit_volume (request self) min_stride endv offset st item
    = Return (<[item.1 := roi_shift item.2 offset]> st.1, st.2 ++ [row]) /\
    clipped_row (request self) D min_stride endv offset item row.
Proof.
  destruct item as [vt t]. intros Hin. apply elem_of_map_to_list in Hin.
  destruct (templated_wf_lookup _ _ _ _ Hwf Hin) as (Htwf & q & Hq & Hqwf).
  unfold visit_volume. cbn [fst snd].
  assert (Hdims : roi_dims t = D) by apply Htwf. rewrite Hdims.
  destruct (stride_candidates_Return (request self)
              (<[vt := roi_shift t offset]> st.1) D vt t q endv offset
              Htwf Hq Hqwf (lookup_insert_eq _ _ _) Hend Hoff D 0 (np_zeros 3))
    as (buf & Hfold & Hlen & Hin' & _).
  { lia. } { unfold np_zeros. rewrite length_replicate. lia. }
  rewrite Hfold. obind.
  unfold np_zeros in Hlen. rewrite length_replicate in Hlen.
  destruct (np_clip_min_3 D buf min_stride HD Hlen Hms) as (row & Hclip & Hrl & Hrow).
  rewrite Hclip. obind. exists row. split; [done|]. split; [done|].
  intros d Hd. rewrite (Hrow d Hd). f_equal.
  apply list_lookup_total_correct, Hin'. lia.
Qed.

End Stride.

(** The loop body succeeds in dimension 1 or 3; its stride has three
    components, and on every axis it is the least of the clamped candidates
    of the entities, as the code computes it. *)
Lemma walk_step_Return (self : Chunk) (D : nat)
    (min_stride begin endv offset : list Z) :
  (D = 1 \/ D = 3)%nat ->
  dims self = D ->
  chunk_spec_template self ≠ ∅ ->
  templated_wf D self ->
  walk_bounds self = Return (min_stride, begin, endv) ->
  length offset = D ->
  exists chunk_request stride offset',
    walk_step self min_stride begin endv offset = Return (chunk_request, stride, offset') /\
    odometer (dims self) begin endv stride offset 0 (dims self) = Return offset' /\
    length stride = 3%nat /\
    forall d, (d < D)%nat ->
      min_over (chunk_spec_template self)
               (fun vt t => Z.max (spec_candidate (request self) endv offset d vt t)
                                  (min_stride !!! d))
               (stride !!! d).
Proof.
  intros HD Hdims Hne Hwf Hwb Hoff. subst D.
  destruct (walk_bounds_extrema self (dims self) Hne Hwf) as (ms & b & e & Hwb' & Hms & Hb & He & _).
  rewrite Hwb in Hwb'. inversion Hwb'; subst ms b e. clear Hwb'.
  unfold walk_step.
  destruct (foldM_rows (visit_volume (request self) min_stride endv offset)
              (fun cr item => <[item.1 := roi_shift item.2 offset]> cr)
              (clipped_row (request self) (dims self) min_stride endv offset)
              (map_to_list (chunk_spec_template self))
              (fun st x Hx => visit_volume_Return self (dims self) min_stride endv offset
                                HD Hwf Hms He Hoff st x Hx)
              (request self, [])) as (rows & Hfold & Hrows).
  rewrite Hfold. obind. cbn [fst snd app].
  destruct (map_to_list (chunk_spec_template self)) as [|i0 items] eqn:Hitems.
  { by apply map_to_list_empty_iff in Hitems. }
  inversion Hrows as [|? r0 ? rs Hr0 Hrs]; subst.
  unfold np_min_axis0, np_reduce_axis0. obind.
  assert (Hall3 : Forall (fun row => length row = 3%nat) rs).
  { apply Forall_forall. intros row Hrow.
    apply list_elem_of_lookup in Hrow as [i Hi].
    destruct (Forall2_lookup_r _ _ _ _ _ Hrs Hi) as (item & _ & Hc). apply Hc. }
  assert (Hlen : length (columnwise Z.min r0 rs) = 3%nat).
  { apply (columnwise_length Z.min 3); [apply Hr0|done]. }
  destruct (odometer_Return (dims self) begin endv (columnwise Z.min r0 rs))
    with (n := dims self) (d := 0%nat) (offset := offset) as (offset' & Hodo & _);
    try lia.
  rewrite Hodo. obind.
  eexists _, _, _. split; [reflexivity|]. split; [done|]. split; [done|].
  intros d Hd.
  destruct (columnwise_min_lookup 3 r0 rs d) as (x & Hx & (row & Hrow & Hrx) & Hle);
    [apply Hr0|done|lia|].
  rewrite (list_lookup_total_correct _ _ _ Hx). split.
  - (* the least row belongs to an entity *)
    apply list_elem_of_lookup in Hrow as [i Hi].
    destruct (Forall2_lookup_r _ _ _ _ _ Hrows Hi) as ([vt t] & Hit & [_ Hc]).
    exists vt, t. split.
    + apply elem_of_map_to_list. rewrite Hitems. apply list_elem_of_lookup. by exists i.
    + specialize (Hc d Hd). cbn [fst snd] in Hc. rewrite <- Hc.
      by apply list_lookup_total_correct.
  - (* and every entity has its row *)
    intros vt t Ht.
    assert (Hin : (vt, t) ∈ i0 :: items).
    { rewrite <- Hitems. by apply elem_of_map_to_list. }
    apply list_elem_of_lookup in Hin as [i Hi].
    destruct (Forall2_lookup_l _ _ _ _ _ Hrows Hi) as (row' & Hr' & [Hl' Hc']).
    destruct (lookup_lt_is_Some_2 row' d) as [y Hy]; [lia|].
    specialize (Hc' d Hd). rewrite (list_lookup_total_correct _ _ _ Hy) in Hc'.
    cbn [fst snd] in Hc'. rewrite <- Hc'.
    apply (Hle row' y); [|done]. apply list_elem_of_lookup. by exists i.
Qed.

(** C3.  At any offset of the walk, the loop body succeeds (the dimension
    being 1 or 3) and the stride it hands to the odometer is, on every axis
    [d], the minimum over the templated entities of the candidate of the
    specification, clamped below by [min_stride[d]]. *)
Theorem walk_step_stride_spec (self : Chunk) (D : nat)
    (min_stride begin endv offset : list Z) :
  (D = 1 \/ D = 3)%nat ->
  dims self = D ->
  chunk_spec_template self ≠ ∅ ->
  templated_wf D self ->
  walk_bounds self = Return (min_stride, begin, endv) ->
  length offset = D ->
  exists chunk_request stride offset',
    walk_step self min_stride begin endv offset = Return (chunk_request, stride, offset') /\
    odometer (dims self) begin endv stride offset 0 (dims self) = Return offset' /\
    forall d, (d < D)%nat ->
      exists m,
        min_over (chunk_spec_template self) (spec_candidate (request self) endv offset d) m /\
        stride !!! d = Z.max (min_stride !!! d) m.
Proof.
  intros HD Hdims Hne Hwf Hwb Hoff.
  destruct (walk_step_Return self D min_stride begin endv offset HD Hdims Hne Hwf Hwb Hoff)
    as (chunk_request & stride & offset' & Hstep & Hodo & _ & Hstride).
  exists chunk_request, stride, offset'. split; [done|]. split; [done|].
  intros d Hd.
  (* the code clamps every candidate and then takes the least; the least
     candidate, clamped, is the same number *)
  destruct (Hstride d Hd) as [(vt1 & t1 & Ht1 & Hs1) Hsle].
  destruct (min_over_exists (chunk_spec_template self)
              (spec_candidate (request self) endv offset d) Hne)
    as (m & (vtm & tm & Htm & Hm) & Hmin).
  exists m. split; [split; [by exists vtm, tm|done]|].
  specialize (Hsle vtm tm Htm). specialize (Hmin vt1 t1 Ht1). lia.
Qed.

Lemma walk_step_stride_spec_witness :
  chunk_spec_template scenario_chunk ≠ ∅ /\
  templated_wf 1 scenario_chunk /\
  walk_bounds scenario_chunk = Return ([30], [0], [100]) /\
  exists chunk_request stride offset',
    walk_step scenario_chunk [30] [0] [100] [90] = Return (chunk_request, stride, offset') /\
    odometer (dims scenario_chunk) [0] [100] stride [90] 0 (dims scenario_chunk)
      = Return offset' /\
    forall d, (d < 1)%nat ->
      exists m,
        min_over (chunk_spec_template scenario_chunk)
                 (spec_candidate (request scenario_chunk) [100] [90] d) m /\
        stride !!! d = Z.max ([30] !!! d) m.
Proof.
  assert (H1 : chunk_spec_template scenario_chunk ≠ ∅)
    by (apply (bool_decide_unpack _); vm_compute; exact I).
  assert (H2 : templated_wf 1 scenario_chunk)
    by (apply (bool_decide_unpack _); vm_compute; exact I).
  assert (H3 : walk_bounds scenario_chunk = Return ([30], [0], [100]))
    by (vm_compute; reflexivity).
  split; [exact H1|]. split; [exact H2|]. split; [exact H3|].
  apply (walk_step_stride_spec scenario_chunk 1 [30] [0] [100] [90]).
  - left. reflexivity.
  - reflexivity.
  - exact H1.
  - exact H2.
  - exact H3.
  - reflexivity.
Defined.

(** ** Fuel *)

Lemma walk_exit (fuel : nat) (self : Chunk) (min_stride begin endv offset : list Z)
    (queue : list BatchSpec) :
  np_all_lt offset endv = false ->
  walk fuel self min_stride begin endv offset queue = Return queue.
Proof. intros H. destruct fuel; cbn; by rewrite H. Qed.

(** Fuel that suffices keeps sufficing. *)
Lemma walk_fuel_mono (k : nat) (self : Chunk) (min_stride begin endv : list Z) :
  forall fuel offset queue r,
    walk fuel self min_stride begin endv offset queue = Return r ->
    walk (fuel + k) self min_stride begin endv offset queue = Return r.
Proof.
  induction fuel as [|fuel IH]; intros offset queue r H.
  - cbn in H. destruct (np_all_lt offset endv) eqn:Hc; [discriminate H|].
    rewrite walk_exit; done.
  - cbn in H. cbn [Nat.add walk].
    destruct (np_all_lt offset endv) eqn:Hc; [|done].
    destruct (walk_step self min_stride begin endv offset) as [step| | |];
      try discriminate H.
    revert H. obind. apply IH.
Qed.

Lemma prepare_requests_fuel_mono (k fuel : nat) (self self' : Chunk) :
  prepare_requests fuel self = Return self' ->
  prepare_requests (fuel + k) self = Return self'.
Proof.
  unfold prepare_requests. destruct (walk_bounds self) as [bounds| | |]; try done.
  obind.
  destruct (walk fuel self _ _ _ _ []) as [queue| | |] eqn:Hw; try done.
  by rewrite (walk_fuel_mono k _ _ _ _ _ _ _ _ Hw).
Qed.

(** ** The 1-D scenario: request [0, 100), template [0, 30) *)

(** C2, as stated, fails: no amount of fuel makes schedule building
    enqueue the sub-requests placed at the offsets 0, 30, 60, 70. *)
Lemma scenario_offsets_not_shrunk :
  ~ exists fuel,
      prepare_requests fuel scenario_chunk
      = Return (set_requests scenario_chunk
                  [scenario_sub_request 0; scenario_sub_request 30;
                   scenario_sub_request 60; scenario_sub_request 70] 4).
Proof.
  intros [fuel H].
  do 4 (destruct fuel as [|fuel]; [vm_compute in H; discriminate H|]).
  change (S (S (S (S fuel)))) with (4 + fuel)%nat in H.
  rewrite (prepare_requests_fuel_mono fuel 4 scenario_chunk
             (set_requests scenario_chunk
                [scenario_sub_request 0; scenario_sub_request 30;
                 scenario_sub_request 60; scenario_sub_request 90] 4)) in H
    by (vm_compute; reflexivity).
  vm_compute in H. discriminate H.
Qed.

(** C2, amended.  In the scenario, schedule building computes
    [min_stride = 30], [begin = 0] and [end = 100]; the loop body takes the
    offset from 0 to 30, 60, 90 and 120, where the loop ends, always with
    the stride 30: also at 90, where the candidate 10 is clamped to
    [min_stride]; the four sub-requests enqueued place the chunk at 0, 30,
    60 and 90. *)
Theorem scenario_schedule :
  init scenario_request scenario_template 1 = Return scenario_chunk /\
  walk_bounds scenario_chunk = Return ([30], [0], [100]) /\
  walk_step scenario_chunk [30] [0] [100] [0]
    = Return (scenario_sub_request 0, [30; 30; 30], [30]) /\
  walk_step scenario_chunk [30] [0] [100] [30]
    = Return (scenario_sub_request 30, [30; 30; 30], [60]) /\
  walk_step scenario_chunk [30] [0] [100] [60]
    = Return (scenario_sub_request 60, [30; 30; 30], [90]) /\
  spec_candidate scenario_request [100] [90] 0 RAW (roi_1d 0 30) = 10 /\
  walk_step scenario_chunk [30] [0] [100] [90]
    = Return (scenario_sub_request 90, [30; 30; 30], [120]) /\
  np_all_lt [120] [100] = false /\
  forall k, prepare_requests (4 + k) scenario_chunk
            = Return (set_requests scenario_chunk
                        [scenario_sub_request 0; scenario_sub_request 30;
                         scenario_sub_request 60; scenario_sub_request 90] 4).
Proof.
  do 8 (split; [vm_compute; reflexivity|]).
  intros k. apply prepare_requests_fuel_mono. vm_compute. reflexivity.
Qed.

(** ** A walk that advances *)

(** The stride is at least [min_stride] on every axis. *)
Lemma stride_lower_bound (self : Chunk) (D : nat) (min_stride begin endv offset : list Z)
    (chunk_request : BatchSpec) (stride offset' : list Z) :
  (D = 1 \/ D = 3)%nat ->
  dims self = D ->
  chunk_spec_template self ≠ ∅ ->
  templated_wf D self ->
  walk_bounds self = Return (min_stride, begin, endv) ->
  length offset = D ->
  walk_step self min_stride begin endv offset = Return (chunk_request, stride, offset') ->
  length stride = 3%nat /\
  odometer D begin endv stride offset 0 D = Return offset' /\
  forall d, (d < D)%nat -> min_stride !!! d <= stride !!! d.
Proof.
  intros HD Hdims Hne Hwf Hwb Hoff Hstep.
  destruct (walk_step_Return self D min_stride begin endv offset HD Hdims Hne Hwf Hwb Hoff)
    as (cr & stride' & offset'' & Hstep' & Hodo & Hlen & Hstride).
  rewrite Hstep in Hstep'. inversion Hstep'; subst cr stride' offset''. clear Hstep'.
  split; [done|]. split; [by rewrite <- Hdims|].
  intros d Hd. destruct (Hstride d Hd) as [(vt & t & _ & <-) _]. lia.
Qed.

(** With positive template shapes, [min_stride] is positive. *)
Lemma min_stride_positive (self : Chunk) (D : nat) (min_stride begin endv : list Z) :
  chunk_spec_template self ≠ ∅ ->
  templated_wf D self ->
  shapes_positive self ->
  walk_bounds self = Return (min_stride, begin, endv) ->
  forall d, (d < D)%nat -> 0 < min_stride !!! d.
Proof.
  intros Hne Hwf Hpos Hwb d Hd.
  destruct (walk_bounds_extrema self D Hne Hwf) as (ms & b & e & Hwb' & _ & _ & _ & Hext).
  rewrite Hwb in Hwb'. inversion Hwb'; subst ms b e. clear Hwb'.
  destruct (Hext d Hd) as [[(vt & t & Ht & <-) _] _].
  specialize (Hpos vt t Ht). cbn beta in Hpos.
  destruct (templated_wf_lookup _ _ _ _ Hwf Ht) as ([_ Hs] & _).
  unfold spec_shape, get_shape in *.
  destruct (lookup_lt_is_Some_2 (roi_shape t) d) as [x Hx]; [lia|].
  rewrite (list_lookup_total_correct _ _ _ Hx).
  rewrite Forall_forall in Hpos. apply Hpos. apply list_elem_of_lookup. by exists d.
Qed.

Lemma mul_ge_self (s p : Z) : 1 <= s -> 0 <= p -> p <= s * p.
Proof. intros Hs Hp. nia. Qed.

(** Three digits in a mixed radix stay below the product of the radices. *)
Lemma radix_bound (x0 x1 x2 L0 L1 L2 : Z) :
  0 <= x0 < L0 -> 0 <= x1 < L1 -> 0 <= x2 < L2 ->
  x0 + x1 * L0 + x2 * (L0 * L1) < L0 * L1 * L2.
Proof.
  intros H0 H1 H2.
  assert (x1 * L0 <= (L1 - 1) * L0) by (apply Z.mul_le_mono_nonneg_r; lia).
  assert (x2 * (L0 * L1) <= (L2 - 1) * (L0 * L1))
    by (apply Z.mul_le_mono_nonneg_r; [apply Z.mul_nonneg_nonneg|]; lia).
  lia.
Qed.

(** The odometer on one axis and on three axes, written out. *)
Lemma odometer_1 (b0 e0 o0 s0 s1 s2 : Z) :
  odometer 1 [b0] [e0] [s0; s1; s2] [o0] 0 1 = Return [o0 + s0].
Proof.
  cbn. rewrite setitem_Return by (cbn; lia). obind. cbn.
  by destruct (decide (o0 + s0 >= e0)).
Qed.

Lemma odometer_3 (b0 b1 b2 e0 e1 e2 o0 o1 o2 s0 s1 s2 : Z) :
  odometer 3 [b0; b1; b2] [e0; e1; e2] [s0; s1; s2] [o0; o1; o2] 0 3
  = Return (if decide (o0 + s0 >= e0)
            then if decide (o1 + s1 >= e1)
                 then [b0; b1; o2 + s2]
                 else [b0; o1 + s1; o2]
            else [o0 + s0; o1; o2]).
Proof.
  cbn. rewrite setitem_Return by (cbn; lia). obind. cbn.
  destruct (decide (o0 + s0 >= e0)); [|done].
  rewrite setitem_Return by (cbn; lia). obind. cbn.
  rewrite setitem_Return by (cbn; lia). obind. cbn.
  destruct (decide (o1 + s1 >= e1)); [|done].
  rewrite setitem_Return by (cbn; lia). obind. cbn.
  rewrite setitem_Return by (cbn; lia). obind. cbn.
  by destruct (decide (o2 + s2 >= e2)).
Qed.

Section Advances.

Variable self : Chunk.
Variable D : nat.
Variables min_stride begin endv : list Z.
Hypothesis HD : (D = 1 \/ D = 3)%nat.
Hypothesis Hdims : dims self = D.
Hypothesis Hne : chunk_spec_template self ≠ ∅.
Hypothesis Hwf : templated_wf D self.
Hypothesis Hwb : walk_bounds self = Return (min_stride, begin, endv).
Hypothesis Hpos : forall d, (d < D)%nat -> 0 < min_stride !!! d.

(** On one axis the distance to [end] shrinks with every step. *)
Lemma walk_terminates_1 (b0 e0 : Z) :
  D = 1%nat -> begin = [b0] -> endv = [e0] ->
  forall n o0 queue, e0 - o0 <= Z.of_nat n ->
    exists q, walk n self min_stride begin endv [o0] queue = Return q.
Proof.
  intros HD1 Hb He. induction n as [|n IH]; intros o0 queue Hn.
  - exists queue. apply walk_exit. rewrite He. cbn.
    rewrite andb_true_r. apply Z.ltb_ge. lia.
  - cbn [walk]. destruct (np_all_lt [o0] endv) eqn:Hc; [|by exists queue].
    destruct (walk_step_Return self D min_stride begin endv [o0] HD Hdims Hne Hwf Hwb)
      as (cr & stride & offset' & Hstep & _); [by rewrite HD1|].
    destruct (stride_lower_bound self D min_stride begin endv [o0] cr stride offset'
                HD Hdims Hne Hwf Hwb) as (Hlen & Hodo & Hge); [by rewrite HD1|done|].
    rewrite Hstep. obind. cbn [fst snd].
    destruct stride as [|s0 [|s1 [|s2 [|]]]]; try discriminate Hlen.
    rewrite HD1, Hb, He, odometer_1 in Hodo. inversion Hodo; subst offset'.
    apply IH. specialize (Hge 0%nat). specialize (Hpos 0%nat).
    rewrite He in Hc. cbn in Hc, Hge. lia.
Qed.

(** On three axes the offset, read as a number in the mixed radix of the
    extents [end - begin], grows with every step that stays in the
    loop. *)
Lemma walk_terminates_3 (b0 b1 b2 e0 e1 e2 : Z) :
  D = 3%nat -> begin = [b0; b1; b2] -> endv = [e0; e1; e2] ->
  forall n o0 o1 o2 queue,
    b0 <= o0 -> b1 <= o1 -> b2 <= o2 ->
    (o0 < e0 -> o1 < e1 -> o2 < e2 ->
     (e0 - b0) * (e1 - b1) * (e2 - b2)
     - ((o0 - b0) + (o1 - b1) * (e0 - b0) + (o2 - b2) * ((e0 - b0) * (e1 - b1)))
     <= Z.of_nat n) ->
    exists q, walk n self min_stride begin endv [o0; o1; o2] queue = Return q.
Proof.
  intros HD3 Hb He. induction n as [|n IH]; intros o0 o1 o2 queue H0 H1 H2 Hn.
  - destruct (np_all_lt [o0; o1; o2] endv) eqn:Hc.
    + rewrite He in Hc. cbn in Hc. rewrite !andb_true_iff, !Z.ltb_lt in Hc.
      destruct Hc as (Hc0 & Hc1 & Hc2 & _). specialize (Hn Hc0 Hc1 Hc2).
      exfalso.
      assert (Hr := radix_bound (o0 - b0) (o1 - b1) (o2 - b2)
                      (e0 - b0) (e1 - b1) (e2 - b2)).
      lia.
    + exists queue. by apply walk_exit.
  - cbn [walk]. destruct (np_all_lt [o0; o1; o2] endv) eqn:Hc; [|by exists queue].
    destruct (walk_step_Return self D min_stride begin endv [o0; o1; o2]
                HD Hdims Hne Hwf Hwb) as (cr & stride & offset' & Hstep & _);
      [by rewrite HD3|].
    destruct (stride_lower_bound self D min_stride begin endv [o0; o1; o2] cr stride offset'
                HD Hdims Hne Hwf Hwb) as (Hlen & Hodo & Hge); [by rewrite HD3|done|].
    rewrite Hstep. obind. cbn [fst snd].
    destruct stride as [|s0 [|s1 [|s2 [|]]]]; try discriminate Hlen.
    assert (Hs0 : 1 <= s0).
    { specialize (Hge 0%nat). specialize (Hpos 0%nat). cbn in Hge. lia. }
    assert (Hs1 : 1 <= s1).
    { specialize (Hge 1%nat). specialize (Hpos 1%nat). cbn in Hge. lia. }
    assert (Hs2 : 1 <= s2).
    { specialize (Hge 2%nat). specialize (Hpos 2%nat). cbn in Hge. lia. }
    clear Hge.
    rewrite He in Hc. cbn in Hc. rewrite !andb_true_iff, !Z.ltb_lt in Hc.
    destruct Hc as (Hc0 & Hc1 & Hc2 & _). specialize (Hn Hc0 Hc1 Hc2).
    rewrite HD3, Hb, He, odometer_3 in Hodo. inversion Hodo; subst offset'. clear Hodo.
    assert (Hcarry1 : (e0 - b0) <= s1 * (e0 - b0))
      by (apply mul_ge_self; lia).
    assert (Hcarry2 : (e0 - b0) * (e1 - b1) <= s2 * ((e0 - b0) * (e1 - b1)))
      by (apply mul_ge_self; [|apply Z.mul_nonneg_nonneg]; lia).
    assert (Hdigit1 : (o1 - b1) * (e0 - b0) <= (e1 - b1 - 1) * (e0 - b0))
      by (apply Z.mul_le_mono_nonneg_r; lia).
    destruct (decide (o0 + s0 >= e0)); [destruct (decide (o1 + s1 >= e1))|].
    + apply IH; lia.
    + apply IH; lia.
    + apply IH; lia.
Qed.

End Advances.

Lemma walk_terminates (self : Chunk) (D : nat) (min_stride begin endv : list Z) :
  (D = 1 \/ D = 3)%nat ->
  dims self = D ->
  chunk_spec_template self ≠ ∅ ->
  templated_wf D self ->
  walk_bounds self = Return (min_stride, begin, endv) ->
  (forall d, (d < D)%nat -> 0 < min_stride !!! d) ->
  exists fuel queue, walk fuel self min_stride begin endv begin [] = Return queue.
Proof.
  intros HD Hdims Hne Hwf Hwb Hpos.
  destruct (walk_bounds_extrema self D Hne Hwf) as (ms & b & e & Hwb' & _ & Hb & He & _).
  rewrite Hwb in Hwb'. inversion Hwb'; subst ms b e. clear Hwb'.
  destruct HD as [HD1|HD3].
  - destruct begin as [|b0 [|]] eqn:Hbegin; try (cbn in Hb; lia).
    destruct endv as [|e0 [|]] eqn:Hendv; try (cbn in He; lia).
    destruct (walk_terminates_1 self D min_stride [b0] [e0] (or_introl HD1) Hdims Hne Hwf Hwb
                Hpos b0 e0 HD1 eq_refl eq_refl (Z.to_nat (e0 - b0)) b0 [])
      as [q Hq]; [lia|].
    by exists (Z.to_nat (e0 - b0)), q.
  - destruct begin as [|b0 [|b1 [|b2 [|]]]] eqn:Hbegin; try (cbn in Hb; lia).
    destruct endv as [|e0 [|e1 [|e2 [|]]]] eqn:Hendv; try (cbn in He; lia).
    destruct (walk_terminates_3 self D min_stride [b0; b1; b2] [e0; e1; e2]
                (or_intror HD3) Hdims Hne Hwf Hwb Hpos
                b0 b1 b2 e0 e1 e2 HD3 eq_refl eq_refl
                (Z.to_nat ((e0 - b0) * (e1 - b1) * (e2 - b2))) b0 b1 b2 [])
      as [q Hq]; try lia.
    by exists (Z.to_nat ((e0 - b0) * (e1 - b1) * (e2 - b2))), q.
Qed.

(** With positive template shapes schedule building returns, in dimension 1
    or 3. *)
Lemma prepare_requests_terminates (self : Chunk) (D : nat) :
  (D = 1 \/ D = 3)%nat ->
  dims self = D ->
  chunk_spec_template self ≠ ∅ ->
  templated_wf D self ->
  shapes_positive self ->
  exists fuel queue,
    prepare_requests fuel self = Return (set_requests self queue (length queue)).
Proof.
  intros HD Hdims Hne Hwf Hpos.
  destruct (walk_bounds_extrema self D Hne Hwf) as (ms & b & e & Hwb & _).
  destruct (walk_terminates self D ms b e HD Hdims Hne Hwf Hwb
              (min_stride_positive self D ms b e Hne Hwf Hpos Hwb)) as (fuel & queue & Hwalk).
  exists fuel, queue. unfold prepare_requests. rewrite Hwb. obind. cbn [fst snd].
  by rewrite Hwalk.
Qed.

(** ** The stride buffer and the dimension of the template *)


Section BufferOverrun.

Variable self_request chunk_request : BatchSpec.
Variable D : nat.
Variable vt : VolumeType.
Variables t q : Roi.
Variables endv offset : list Z.
Hypothesis Ht : roi_wf D t.
Hypothesis Hq : self_request !! vt = Some q.
Hypothesis Hqwf : roi_wf D q.
Hypothesis Hc : chunk_request !! vt = Some (roi_shift t offset).
Hypothesis Hend : length endv = D.
Hypothesis Hoff : length offset = D.



End BufferOverrun.

Section VisitFails.

Variable self : Chunk.
Variable D : nat.
Variables min_stride endv offset : list Z.
Hypothesis Hwf : templated_wf D self.
Hypothesis Hms : length min_stride = D.
Hypothesis Hend : length endv = D.
Hypothesis Hoff : length offset = D.



End VisitFails.




(** ** Coverage of the request *)

(** C1 at a failing input.  With the request [0, 100) and the template
    [-15, 15), which meets the scheduler's preconditions, schedule building
    returns three sub-requests, [0, 30), [30, 60) and [60, 90): the point 95
    of the request ROI is in none of them. *)
Theorem centred_template_leaves_gap :
  init scenario_request centred_template 1 = Return centred_chunk /\
  templated_wf 1 centred_chunk /\
  walk_bounds centred_chunk = Return ([30], [15], [100]) /\
  (forall k, prepare_requests (3 + k) centred_chunk
             = Return (set_requests centred_chunk
                         [scenario_sub_request 0; scenario_sub_request 30;
                          scenario_sub_request 60] 3)) /\
  roi_contains_point (roi_1d 0 100) [95] = true /\
  covered [scenario_sub_request 0; scenario_sub_request 30; scenario_sub_request 60]
          RAW [95] = false.
Proof.
  split; [vm_compute; reflexivity|].
  split; [apply (bool_decide_unpack _); vm_compute; exact I|].
  split; [vm_compute; reflexivity|].
  split; [intros k; apply prepare_requests_fuel_mono; vm_compute; reflexivity|].
  split; vm_compute; reflexivity.
Qed.

(** ** A walk that does not advance *)




Section ZeroShape.

Variable self : Chunk.
Variable D : nat.
Variables min_stride begin endv : list Z.
Hypothesis HD : (D = 1 \/ D = 3)%nat.
Hypothesis Hdims : dims self = D.
Hypothesis Hne : chunk_spec_template self ≠ ∅.
Hypothesis Hwf : templated_wf D self.
Hypothesis Hwb : walk_bounds self = Return (min_stride, begin, endv).
Hypothesis Hlonger : requests_longer self.



End ZeroShape.




(** ** Slices and regions *)

Lemma forallb_zip_with_total (f : Z -> Z -> bool) (n : nat) (l k : list Z) :
  length l = n -> length k = n ->
  forallb id (zip_with f l k) = true <->
  forall d, (d < n)%nat -> f (l !!! d) (k !!! d) = true.
Proof.
  revert l k. induction n as [|n IH]; intros [|x l] [|y k] Hl Hk; try discriminate.
  - split; [intros _ d Hd; lia|done].
  - cbn [zip_with forallb id]. rewrite andb_true_iff, (IH l k) by (cbn in *; lia).
    split.
    + intros [Hxy Hrest] [|d] Hd; [done|]. apply Hrest. lia.
    + intros H. split; [apply (H 0%nat); lia|]. intros d Hd. apply (H (S d)). lia.
Qed.

Lemma roi_contains_point_spec (D : nat) (r : Roi) (p : Coordinate) :
  roi_wf D r -> length p = D ->
  roi_contains_point r p = true <->
  forall d, (d < D)%nat ->
    roi_offset r !!! d <= p !!! d < roi_offset r !!! d + roi_shape r !!! d.
Proof.
  intros [Ho Hs] Hp. unfold roi_contains_point.
  rewrite !andb_true_iff, bool_decide_eq_true.
  rewrite (forallb_zip_with_total Z.leb D), (forallb_zip_with_total Z.ltb D);
    try done; [|by apply (get_end_length D)].
  split.
  - intros [[_ Hle] Hlt] d Hd. specialize (Hle d Hd). specialize (Hlt d Hd).
    unfold get_begin, get_end, coord_add in *.
    rewrite lookup_total_zip_with in Hlt by lia. lia.
  - intros H. split; [split; [lia|]|]; intros d Hd; specialize (H d Hd);
      unfold get_begin, get_end, coord_add in *;
      rewrite ?lookup_total_zip_with by lia; lia.
Qed.

Lemma roi_contains_point_length (r : Roi) (p : Coordinate) :
  roi_contains_point r p = true -> length p = length (roi_offset r).
Proof.
  unfold roi_contains_point. rewrite !andb_true_iff, bool_decide_eq_true. tauto.
Qed.

(** The result of [intersect], axis by axis. *)
Lemma intersect_Some (D : nat) (roi_a roi_b common : Roi) :
  roi_wf D roi_a -> roi_wf D roi_b ->
  intersect roi_a roi_b = Some common ->
  roi_wf D common /\
  forall d, (d < D)%nat ->
    roi_offset common !!! d = Z.max (roi_offset roi_a !!! d) (roi_offset roi_b !!! d) /\
    roi_offset common !!! d + roi_shape common !!! d
    = Z.min (roi_offset roi_a !!! d + roi_shape roi_a !!! d)
            (roi_offset roi_b !!! d + roi_shape roi_b !!! d) /\
    0 < roi_shape common !!! d.
Proof.
  intros [Hao Has] [Hbo Hbs] H. unfold intersect in H.
  destruct (forallb id _) eqn:Hlt; [|discriminate H]. inversion H; subst common. clear H.
  assert (Hea := get_end_length D roi_a (conj Hao Has)).
  assert (Heb := get_end_length D roi_b (conj Hbo Hbs)).
  unfold get_begin, get_end, coord_add, coord_sub in *.
  rewrite (forallb_zip_with_total Z.ltb D) in Hlt by (rewrite length_zip_with; lia).
  split.
  - split; cbn; rewrite !length_zip_with; lia.
  - intros d Hd. specialize (Hlt d Hd). cbn [roi_offset roi_shape].
    rewrite !lookup_total_zip_with in Hlt by (rewrite ?length_zip_with; lia).
    rewrite !lookup_total_zip_with by (rewrite ?length_zip_with; lia).
    apply Z.ltb_lt in Hlt. lia.
Qed.

Lemma intersect_None (D : nat) (roi_a roi_b : Roi) (p : Coordinate) :
  roi_wf D roi_a -> roi_wf D roi_b ->
  intersect roi_a roi_b = None ->
  roi_contains_point roi_a p && roi_contains_point roi_b p = false.
Proof.
  intros Ha Hb H. unfold intersect in H.
  destruct (forallb id _) eqn:Hlt; [discriminate H|]. clear H.
  apply not_true_is_false. rewrite andb_true_iff. intros [Hpa Hpb].
  assert (Hp : length p = D).
  { apply roi_contains_point_length in Hpa. destruct Ha. lia. }
  rewrite (roi_contains_point_spec D) in Hpa, Hpb by done.
  assert (Hea := get_end_length D roi_a Ha). assert (Heb := get_end_length D roi_b Hb).
  destruct Ha as [Hao Has], Hb as [Hbo Hbs].
  apply not_true_iff_false in Hlt. apply Hlt.
  unfold get_begin, get_end, coord_add in *.
  apply (forallb_zip_with_total Z.ltb D); [rewrite length_zip_with; lia..|].
  intros d Hd. specialize (Hpa d Hd). specialize (Hpb d Hd).
  rewrite !lookup_total_zip_with by (rewrite ?length_zip_with; lia).
  apply Z.ltb_lt. lia.
Qed.

Lemma intersect_contains (D : nat) (roi_a roi_b common : Roi) (p : Coordinate) :
  roi_wf D roi_a -> roi_wf D roi_b ->
  intersect roi_a roi_b = Some common ->
  roi_contains_point common p
  = roi_contains_point roi_a p && roi_contains_point roi_b p.
Proof.
  intros Ha Hb H.
  destruct (intersect_Some D roi_a roi_b common Ha Hb H) as [Hc Hax].
  destruct (decide (length p = D)) as [Hp|Hp].
  - apply eq_true_iff_eq. rewrite andb_true_iff.
    rewrite !(roi_contains_point_spec D) by done.
    split.
    + intros Hin. split; intros d Hd; specialize (Hin d Hd);
        destruct (Hax d Hd) as (H1 & H2 & H3); lia.
    + intros [Hina Hinb] d Hd. specialize (Hina d Hd). specialize (Hinb d Hd).
      destruct (Hax d Hd) as (H1 & H2 & H3). lia.
  - unfold roi_contains_point.
    destruct Ha as [Hao _], Hb as [Hbo _], Hc as [Hco _].
    rewrite !bool_decide_eq_false_2 by lia. done.
Qed.

Lemma region_lead (lead : list Z) :
  zip_with slice_bounds lead (replicate (length lead) SliceAll)
  = (fun n => (0, n)) <$> lead.
Proof. induction lead as [|n lead IH]; [done|]. cbn. by rewrite IH. Qed.

(** The region selected by full slices on the leading axes and the slices
    [sl] on the axes of the ROI. *)
Lemma region_on (a : ndarray) (lead shape : list Z) (sl : list slice) :
  arr_shape a = lead ++ shape -> length sl = length shape ->
  region a (replicate (length lead) SliceAll ++ sl)
  = ((fun n => (0, n)) <$> lead) ++ zip_with slice_bounds shape sl.
Proof.
  intros Ha Hsl. unfold region, pad_slices. rewrite Ha.
  rewrite !length_app, length_replicate, Hsl, Nat.sub_diag. cbn [replicate].
  rewrite app_nil_r, zip_with_app by (by rewrite length_replicate).
  by rewrite region_lead.
Qed.

(** The bounding box of a part [common] of the ROI [r], relative to [r],
    selects [common] and is not clipped. *)
Lemma bounding_box_region (D : nat) (r common : Roi) :
  roi_wf D r -> roi_wf D common ->
  (forall d, (d < D)%nat ->
     roi_offset r !!! d <= roi_offset common !!! d /\
     roi_offset common !!! d + roi_shape common !!! d
       <= roi_offset r !!! d + roi_shape r !!! d /\
     0 < roi_shape common !!! d) ->
  zip_with slice_bounds (get_shape r)
           (get_bounding_box (roi_unshift common (get_offset r)))
  = zip (coord_sub (roi_offset common) (roi_offset r)) (roi_shape common).
Proof.
  intros [Hro Hrs] [Hco Hcs] Hax.
  unfold get_bounding_box, get_begin, get_end, get_shape, get_offset, roi_unshift,
    coord_add, coord_sub. cbn [roi_offset roi_shape].
  apply (list_eq_same_length _ _ D); [rewrite ?length_zip_with; lia..|].
  intros d x y Hd Hx Hy.
  apply lookup_zip_with_Some in Hx as (n & s & -> & Hn & Hs).
  apply lookup_zip_with_Some in Hs as (lo & hi & -> & Hlo & Hhi).
  apply lookup_zip_with_Some in Hy as (lo' & cs & -> & Hlo' & Hcs').
  rewrite Hlo in Hlo'. inversion Hlo'; subst lo'. clear Hlo'.
  apply lookup_zip_with_Some in Hhi as (lo' & cs' & -> & Hlo' & Hcs'').
  rewrite Hlo in Hlo'. inversion Hlo'; subst lo'. clear Hlo'.
  rewrite Hcs' in Hcs''. inversion Hcs''; subst cs'. clear Hcs''.
  apply lookup_zip_with_Some in Hlo as (co & ro & -> & Hco' & Hro').
  destruct (Hax d Hd) as (H1 & H2 & H3).
  rewrite (list_lookup_total_correct _ _ _ Hco'), (list_lookup_total_correct _ _ _ Hro'),
    (list_lookup_total_correct _ _ _ Hcs'), (list_lookup_total_correct _ _ _ Hn) in *.
  unfold slice_bounds, slice_clamp.
  rewrite !decide_False by lia. f_equal; lia.
Qed.

Lemma in_region_app (regL regR : list (Z * Z)) (c q : list Z) :
  length c = length regL ->
  in_region (regL ++ regR) (c ++ q) = in_region regL c && in_region regR q.
Proof.
  intros Hc. unfold in_region.
  rewrite zip_with_app, forallb_app, !length_app by done.
  rewrite (bool_decide_eq_true_2 (length c = length regL)) by done. cbn [andb].
  destruct (decide (length q = length regR)).
  - rewrite !bool_decide_eq_true_2 by lia. cbn [andb]. done.
  - rewrite !bool_decide_eq_false_2 by lia. cbn [andb]. by rewrite andb_false_r.
Qed.

Lemma in_region_lead (lead c : list Z) :
  in_region ((fun n => (0, n)) <$> lead) c = in_bounds lead c.
Proof.
  unfold in_region, in_bounds. rewrite length_fmap. f_equal.
  revert c. induction lead as [|n lead IH]; intros [|i c]; try done.
  cbn. by rewrite IH.
Qed.

Lemma in_region_roi (D : nat) (r common : Roi) (p : Coordinate) :
  roi_wf D r -> roi_wf D common -> length p = D ->
  in_region (zip (coord_sub (roi_offset common) (roi_offset r)) (roi_shape common))
            (coord_sub p (get_offset r))
  = roi_contains_point common p.
Proof.
  intros [Hro Hrs] [Hco Hcs] Hp. apply eq_true_iff_eq.
  rewrite (roi_contains_point_spec D) by done.
  unfold in_region, coord_sub, get_offset.
  rewrite andb_true_iff, bool_decide_eq_true, !length_zip_with.
  split.
  - intros [_ Hall] d Hd. rewrite forallb_forall in Hall.
    destruct (lookup_lt_is_Some_2 (roi_offset common) d) as [co Hco']; [lia|].
    destruct (lookup_lt_is_Some_2 (roi_offset r) d) as [ro Hro']; [lia|].
    destruct (lookup_lt_is_Some_2 (roi_shape common) d) as [cs Hcs']; [lia|].
    destruct (lookup_lt_is_Some_2 p d) as [x Hx]; [lia|].
    rewrite (list_lookup_total_correct _ _ _ Hco'), (list_lookup_total_correct _ _ _ Hcs'),
      (list_lookup_total_correct _ _ _ Hx).
    assert (Hin : In ((co - ro <=? x - ro) && (x - ro <? co - ro + cs))
                     (zip_with (fun (r0 : Z * Z) (x0 : Z) => (r0.1 <=? x0) && (x0 <? r0.1 + r0.2))
                        (zip (zip_with Z.sub (roi_offset common) (roi_offset r))
                             (roi_shape common))
                        (zip_with Z.sub p (roi_offset r)))).
    { apply list_elem_of_In, list_elem_of_lookup. exists d.
      rewrite !lookup_zip_with, Hco', Hro', Hcs', Hx. done. }
    apply Hall in Hin. unfold id in Hin.
    rewrite andb_true_iff, Z.leb_le, Z.ltb_lt in Hin. lia.
  - intros H. split; [lia|]. apply forallb_forall. intros t Ht.
    apply list_elem_of_In, list_elem_of_lookup in Ht as [d Hd].
    apply lookup_zip_with_Some in Hd as (reg & x & -> & Hreg & Hx).
    apply lookup_zip_with_Some in Hreg as (lo & cs & -> & Hlo & Hcs').
    apply lookup_zip_with_Some in Hlo as (co & ro & -> & Hco' & Hro').
    apply lookup_zip_with_Some in Hx as (x' & ro' & -> & Hx' & Hro'').
    rewrite Hro' in Hro''. inversion Hro''; subst ro'. clear Hro''.
    assert (Hd : (d < D)%nat) by (apply lookup_lt_Some in Hx'; lia).
    specialize (H d Hd).
    rewrite (list_lookup_total_correct _ _ _ Hco'), (list_lookup_total_correct _ _ _ Hcs'),
      (list_lookup_total_correct _ _ _ Hx') in H.
    cbn [fst snd id]. rewrite andb_true_iff, Z.leb_le, Z.ltb_lt. lia.
Qed.

(** Translating an index of the output array into the sub-batch array. *)
Lemma translate_lead (lead c : list Z) :
  length c = length lead ->
  zip_with Z.add (((fun n => (0, n)) <$> lead).*1)
           (zip_with Z.sub c (((fun n => (0, n)) <$> lead).*1)) = c.
Proof.
  revert c. induction lead as [|n lead IH]; intros [|i c] Hc; try done.
  cbn in *. rewrite IH by lia. f_equal. lia.
Qed.

Lemma translate_roi (D : nat) (roi_a roi_b common : Roi) (p : Coordinate) :
  roi_wf D roi_a -> roi_wf D roi_b -> roi_wf D common -> length p = D ->
  zip_with Z.add (coord_sub (roi_offset common) (roi_offset roi_b))
    (zip_with Z.sub (coord_sub p (get_offset roi_a))
                    (coord_sub (roi_offset common) (roi_offset roi_a)))
  = coord_sub p (get_offset roi_b).
Proof.
  intros [Hao _] [Hbo _] [Hco _] Hp. unfold coord_sub, get_offset.
  apply (list_eq_same_length _ _ D); [rewrite ?length_zip_with; lia..|].
  intros d x y Hd Hx Hy.
  apply lookup_zip_with_Some in Hx as (u & v & -> & Hu & Hv).
  apply lookup_zip_with_Some in Hu as (co & bo & -> & Hco' & Hbo').
  apply lookup_zip_with_Some in Hv as (w & z & -> & Hw & Hz).
  apply lookup_zip_with_Some in Hw as (pd & ao & -> & Hpd & Hao').
  apply lookup_zip_with_Some in Hz as (co' & ao' & -> & Hco'' & Hao'').
  apply lookup_zip_with_Some in Hy as (pd' & bo' & -> & Hpd' & Hbo'').
  simplify_eq. lia.
Qed.

(** ** Filling a chunk into the output *)

Lemma bounding_box_length (D : nat) (r : Roi) (delta : Coordinate) :
  roi_wf D r -> length delta = D ->
  length (get_bounding_box (roi_unshift r delta)) = D.
Proof.
  intros [Ho Hs] Hd.
  unfold get_bounding_box, get_begin, get_end, roi_unshift, coord_add, coord_sub.
  cbn [roi_offset roi_shape]. rewrite !length_zip_with. lia.
Qed.

Section Fill.

Variable D : nat.
Variable lead : list Z.
Variables a b : ndarray.
Variables roi_a roi_b common : Roi.
Hypothesis Ha : roi_wf D roi_a.
Hypothesis Hb : roi_wf D roi_b.
Hypothesis Hon_a : array_on lead roi_a a.
Hypothesis Hon_b : array_on lead roi_b b.
Hypothesis Hcommon : intersect roi_a roi_b = Some common.

Lemma common_in (r : Roi) :
  r = roi_a \/ r = roi_b ->
  forall d, (d < D)%nat ->
    roi_offset r !!! d <= roi_offset common !!! d /\
    roi_offset common !!! d + roi_shape common !!! d
      <= roi_offset r !!! d + roi_shape r !!! d /\
    0 < roi_shape common !!! d.
Proof.
  intros Hr d Hd.
  destruct (intersect_Some D roi_a roi_b common Ha Hb Hcommon) as [_ Hax].
  destruct (Hax d Hd) as (H1 & H2 & H3). destruct Hr as [-> | ->]; lia.
Qed.

(** The region of the output array that [__fill] writes, and the region
    of the sub-batch array that it reads. *)
Lemma fill_region (x : ndarray) (r : Roi) :
  r = roi_a \/ r = roi_b -> roi_wf D r -> array_on lead r x ->
  region x (replicate (length lead) SliceAll
              ++ get_bounding_box (roi_unshift common (get_offset r)))
  = ((fun n => (0, n)) <$> lead)
      ++ zip (coord_sub (roi_offset common) (roi_offset r)) (roi_shape common).
Proof.
  intros Hr Hwf Hon.
  destruct (intersect_Some D roi_a roi_b common Ha Hb Hcommon) as [Hc _].
  rewrite (region_on x lead (get_shape r)); [|done|].
  - by rewrite (bounding_box_region D r common Hwf Hc (common_in r Hr)).
  - rewrite (bounding_box_length D); [by destruct Hwf|done|by destruct Hwf].
Qed.

Lemma fill_Return :
  exists a', fill a b roi_a roi_b = Return a' /\
    arr_shape a' = arr_shape a /\
    forall c p, length c = length lead -> length p = D ->
      voxel c roi_a a' p
      = if in_bounds lead c && roi_contains_point common p
        then voxel c roi_b b p else voxel c roi_a a p.
Proof.
  destruct (intersect_Some D roi_a roi_b common Ha Hb Hcommon) as [Hc _].
  assert (Hla : length (get_bounding_box (roi_unshift common (get_offset roi_a))) = D).
  { apply bounding_box_length; [done|by destruct Ha]. }
  assert (Hlb : length (get_bounding_box (roi_unshift common (get_offset roi_b))) = D).
  { apply bounding_box_length; [done|by destruct Hb]. }
  assert (Hsa : length (arr_shape a) = (length lead + D)%nat).
  { rewrite Hon_a, length_app. unfold get_shape. destruct Ha. lia. }
  assert (Hsb : length (arr_shape b) = (length lead + D)%nat).
  { rewrite Hon_b, length_app. unfold get_shape. destruct Hb. lia. }
  unfold fill. rewrite Hcommon. cbv zeta. rewrite Hla, Hlb, Hsa, Hsb.
  replace (length lead + D - D)%nat with (length lead) by lia.
  (* with or without leading axes, the slices are the same lists *)
  assert (Hsl : forall sl : list slice,
            (if bool_decide (D < length lead + D)%nat
             then replicate (length lead) SliceAll ++ sl else sl)
            = replicate (length lead) SliceAll ++ sl).
  { intros sl. case_bool_decide; [done|].
    assert (length lead = 0%nat) as -> by lia. done. }
  rewrite !Hsl.
  unfold np_getitem.
  rewrite decide_True by (rewrite length_app, length_replicate; lia). obind.
  unfold np_setitem. cbn [arr_shape arr_at].
  rewrite decide_True by (rewrite length_app, length_replicate; lia).
  rewrite (fill_region a roi_a), (fill_region b roi_b) by auto.
  rewrite decide_True; last first.
  { rewrite !fmap_app, !snd_zip; [done|..];
      unfold coord_sub; rewrite length_zip_with;
      destruct Ha as [? _], Hb as [? _], Hc as [? ?]; lia. }
  eexists. split; [reflexivity|]. split; [done|].
  intros c p Hlc Hlp. unfold voxel at 1. cbn [arr_at].
  rewrite in_region_app by (by rewrite length_fmap).
  rewrite in_region_lead, (in_region_roi D) by done.
  destruct (in_bounds lead c && roi_contains_point common p); [|done].
  unfold voxel. f_equal.
  rewrite !fmap_app.
  rewrite !fst_zip by
    (unfold coord_sub; rewrite length_zip_with;
     destruct Ha as [? _], Hb as [? _], Hc as [? ?]; lia).
  rewrite !zip_with_app by (rewrite ?length_zip_with, ?length_fmap; lia).
  by rewrite translate_lead, (translate_roi D).
Qed.

End Fill.

(** Without a common region [__fill] leaves the output as it is. *)
Lemma fill_disjoint (a b : ndarray) (roi_a roi_b : Roi) :
  intersect roi_a roi_b = None -> fill a b roi_a roi_b = Return a.
Proof. intros H. unfold fill. by rewrite H. Qed.

Lemma fill_volume_Return (request : BatchSpec) (batch batch1 : Batch)
    (k : VolumeType) (v : Volume) :
  fill_volume request batch (k, v) = Return batch1 ->
  exists out roi_a filled,
    batch !! k = Some out /\ request !! k = Some roi_a /\
    fill (data out) (data v) roi_a (roi v) = Return filled /\
    batch1 = <[k := mkVolume filled (roi out) (resolution out) (interpolate out)]> batch.
Proof.
  unfold fill_volume, dict_get. cbn [fst snd].
  destruct (batch !! k) as [out|]; obind; [|discriminate].
  destruct (request !! k) as [roi_a|]; obind; [|discriminate].
  destruct (fill (data out) (data v) roi_a (roi v)) as [filled| | |] eqn:Hfill;
    obind; try discriminate.
  intros H. inversion H. by exists out, roi_a, filled.
Qed.

(** The loop over the volumes of a chunk fills every volume of the chunk
    into the output volume of its type and leaves the others alone. *)
Lemma fill_volumes_spec (request : BatchSpec) (l : list (VolumeType * Volume)) :
  NoDup (l.*1) ->
  forall batch batch', foldM (fill_volume request) batch l = Return batch' ->
  forall vt,
    (forall vol, (vt, vol) ∈ l ->
       exists out roi_a filled,
         batch !! vt = Some out /\ request !! vt = Some roi_a /\
         fill (data out) (data vol) roi_a (roi vol) = Return filled /\
         batch' !! vt = Some (mkVolume filled (roi out) (resolution out) (interpolate out))) /\
    (vt ∉ l.*1 -> batch' !! vt = batch !! vt).
Proof.
  induction l as [|[k v] l IH]; intros Hnd batch batch' Hfold vt.
  - cbn in Hfold. inversion Hfold; subst. split; [|done].
    intros vol Hin. by apply elem_of_nil in Hin.
  - cbn [fmap list_fmap fst] in Hnd. apply NoDup_cons in Hnd as [Hk Hnd].
    cbn [foldM] in Hfold. revert Hfold.
    destruct (fill_volume request batch (k, v)) as [batch1| | |] eqn:Hstep;
      obind; try discriminate.
    intros Hfold.
    apply fill_volume_Return in Hstep
      as (out & roi_a & filled & Hout & Hroi & Hfill & ->).
    destruct (IH Hnd _ _ Hfold vt) as [IHin IHout]. split.
    + intros vol Hin. apply elem_of_cons in Hin as [Heq|Hin].
      * inversion Heq; subst vt vol. exists out, roi_a, filled.
        repeat split; try done. rewrite IHout by done. apply lookup_insert_eq.
      * assert (vt <> k).
        { intros ->. apply Hk. apply list_elem_of_fmap. by exists (k, vol). }
        destruct (IHin vol Hin) as (out' & roi_a' & filled' & H1 & H2 & H3 & H4).
        rewrite lookup_insert_ne in H1 by done.
        by exists out', roi_a', filled'.
    + intros Hnot. cbn [fmap list_fmap fst] in Hnot.
      apply not_elem_of_cons in Hnot as [Hne Hnot].
      rewrite IHout by done. by apply lookup_insert_ne.
Qed.

(** A single [__fill] between arrays that hold their ROIs returns, and
    copies exactly the points of both ROIs. *)
Lemma fill_spec (D : nat) (lead : list Z) (x y : ndarray) (roi_a r : Roi) :
  roi_wf D roi_a -> roi_wf D r -> array_on lead roi_a x -> array_on lead r y ->
  exists x', fill x y roi_a r = Return x' /\
    (intersect roi_a r = None -> x' = x) /\
    array_on lead roi_a x' /\
    forall c p, length c = length lead -> length p = D ->
      voxel c roi_a x' p
      = if in_bounds lead c && (roi_contains_point roi_a p && roi_contains_point r p)
        then voxel c r y p else voxel c roi_a x p.
Proof.
  intros Ha Hr Hx Hy.
  destruct (intersect roi_a r) as [common|] eqn:Hint.
  - destruct (fill_Return D lead x y roi_a r common Ha Hr Hx Hy Hint)
      as (x' & Hx' & Hshape & Hvox).
    exists x'. split; [done|]. split; [done|].
    split; [unfold array_on in *; congruence|].
    intros c p Hc Hp. rewrite (Hvox c p Hc Hp).
    by rewrite (intersect_contains D roi_a r common p Ha Hr Hint).
  - exists x. split; [by apply fill_disjoint|]. split; [done|]. split; [done|].
    intros c p Hc Hp.
    rewrite (intersect_None D roi_a r p Ha Hr Hint). by rewrite andb_false_r.
Qed.

(** The loop over the volumes of a chunk returns when every pass finds its
    volumes and its [__fill] returns. *)
Lemma fill_volumes_Return (request : BatchSpec) (l : list (VolumeType * Volume)) :
  NoDup (l.*1) ->
  forall batch,
    (forall vt vol, (vt, vol) ∈ l ->
       exists out roi_a filled,
         batch !! vt = Some out /\ request !! vt = Some roi_a /\
         fill (data out) (data vol) roi_a (roi vol) = Return filled) ->
    exists batch', foldM (fill_volume request) batch l = Return batch'.
Proof.
  induction l as [|[k v] l IH]; intros Hnd batch Hall; [by exists batch|].
  cbn [fmap list_fmap fst] in Hnd. apply NoDup_cons in Hnd as [Hk Hnd].
  destruct (Hall k v) as (out & roi_a & filled & Hout & Hroi & Hfill); [by left|].
  assert (Hstep : fill_volume request batch (k, v)
                  = Return (<[k := mkVolume filled (roi out) (resolution out)
                                            (interpolate out)]> batch)).
  { unfold fill_volume, dict_get. cbn [fst snd].
    rewrite Hout, Hroi. obind. by rewrite Hfill. }
  cbn [foldM]. rewrite Hstep. obind.
  apply IH; [done|]. intros vt vol Hin.
  assert (vt <> k).
  { intros ->. apply Hk. apply list_elem_of_fmap. by exists (k, vol). }
  destruct (Hall vt vol) as (out' & roi_a' & filled' & H1 & H2 & H3); [by right|].
  exists out', roi_a', filled'. by rewrite lookup_insert_ne.
Qed.

(** C6.  Filling a sub-batch into the output, the arrays holding their ROIs
    after the same leading axes: the merge returns; every volume of the
    sub-batch is filled into the output volume of its type with the ROI of
    the outer request and the ROI of the sub-batch volume, and the other
    output volumes stay as they are.  Without a common region the output
    array is unchanged; otherwise every index of the leading axes and every
    point of both ROIs gets the value of the sub-batch, and every other
    voxel keeps its value.  A sub-batch [later] filled in afterwards
    overwrites, on the points it covers, what this one wrote. *)
Theorem fill_chunk_spec (D : nat) (lead : VolumeType -> list Z)
    (request : BatchSpec) (batch chunk : Batch) :
  fillable D lead request batch chunk ->
  exists batch',
    fill_chunk request batch chunk = Return batch' /\
    (forall vt, chunk !! vt = None -> batch' !! vt = batch !! vt) /\
    forall vt vol, chunk !! vt = Some vol ->
      exists out roi_a filled,
        batch !! vt = Some out /\ request !! vt = Some roi_a /\
        fill (data out) (data vol) roi_a (roi vol) = Return filled /\
        batch' !! vt = Some (mkVolume filled (roi out) (resolution out) (interpolate out)) /\
        (intersect roi_a (roi vol) = None -> filled = data out) /\
        array_on (lead vt) roi_a filled /\
        (forall c p, length c = length (lead vt) -> length p = D ->
           voxel c roi_a filled p
           = if in_bounds (lead vt) c && (roi_contains_point roi_a p
                                           && roi_contains_point (roi vol) p)
             then voxel c (roi vol) (data vol) p
             else voxel c roi_a (data out) p) /\
        (forall later c p,
           roi_wf D (roi later) -> array_on (lead vt) (roi later) (data later) ->
           in_bounds (lead vt) c = true ->
           roi_contains_point roi_a p = true ->
           roi_contains_point (roi later) p = true ->
           exists again,
             fill filled (data later) roi_a (roi later) = Return again /\
             voxel c roi_a again p = voxel c (roi later) (data later) p).
Proof.
  intros Hfillable.
  (* what [fillable] says of one volume of the chunk *)
  assert (Hvol : forall vt vol, chunk !! vt = Some vol ->
            exists out roi_a,
              batch !! vt = Some out /\ request !! vt = Some roi_a /\
              roi_wf D roi_a /\ roi_wf D (roi vol) /\
              array_on (lead vt) roi_a (data out) /\
              array_on (lead vt) (roi vol) (data vol)).
  { intros vt vol Hin. destruct (Hfillable vt vol Hin) as (Hwf & Hon & Hrest).
    destruct (batch !! vt) as [out|]; [|done].
    destruct (request !! vt) as [roi_a|]; [|done].
    destruct Hrest as [Hwfa Hona]. by exists out, roi_a. }
  destruct (fill_volumes_Return request (map_to_list chunk) (NoDup_fst_map_to_list chunk) batch)
    as [batch' Hfill].
  { intros vt vol Hin. apply elem_of_map_to_list in Hin.
    destruct (Hvol vt vol Hin) as (out & roi_a & Hout & Hroi & Ha & Hv & Hona & Honv).
    destruct (fill_spec D (lead vt) (data out) (data vol) roi_a (roi vol) Ha Hv Hona Honv)
      as (filled & Hf & _).
    by exists out, roi_a, filled. }
  exists batch'. split; [exact Hfill|].
  assert (Hspec := fill_volumes_spec request (map_to_list chunk)
                     (NoDup_fst_map_to_list chunk) batch batch' Hfill).
  split.
  - intros vt Hnone. apply (Hspec vt).
    intros Hin. apply list_elem_of_fmap in Hin as ([vt' vol] & -> & Hin).
    apply elem_of_map_to_list in Hin. cbn in Hnone. congruence.
  - intros vt vol Hin.
    destruct (Hspec vt) as [Hin' _].
    destruct (Hin' vol) as (out & roi_a & filled & Hout & Hroi & Hf & Hb');
      [by apply elem_of_map_to_list|].
    destruct (Hvol vt vol Hin) as (out' & roi_a' & Hout' & Hroi' & Ha & Hv & Hona & Honv).
    rewrite Hout in Hout'. rewrite Hroi in Hroi'. simplify_eq.
    destruct (fill_spec D (lead vt) (data out') (data vol) roi_a' (roi vol) Ha Hv Hona Honv)
      as (filled' & Hf' & Hskip & Honf & Hvox).
    rewrite Hf in Hf'. inversion Hf'; subst filled'. clear Hf'.
    exists out', roi_a', filled. do 6 (split; [done|]). split; [done|].
    intros later c p Hl Honl Hinb Hpa Hpl.
    destruct (fill_spec D (lead vt) filled (data later) roi_a' (roi later) Ha Hl Honf Honl)
      as (again & Hagain & _ & _ & Hvox').
    exists again. split; [done|].
    assert (Hlc : length c = length (lead vt)).
    { unfold in_bounds in Hinb. apply andb_true_iff in Hinb as [Hinb _].
      by apply bool_decide_eq_true in Hinb. }
    assert (Hlp : length p = D).
    { apply roi_contains_point_length in Hpa. destruct Ha as [Hao _]. lia. }
    by rewrite (Hvox' c p Hlc Hlp), Hinb, Hpa, Hpl.
Qed.

Lemma fill_chunk_spec_witness :
  fillable 1 (fun _ => []) scenario_request overlap_output overlap_first /\
  exists batch' filled,
    fill_chunk scenario_request overlap_output overlap_first = Return batch' /\
    batch' !! RAW = Some (mkVolume filled (roi_1d 0 100) [4] true) /\
    voxel [] (roi_1d 0 100) filled [85] = 1 /\
    voxel [] (roi_1d 0 100) filled [95] = 0 /\
    exists again,
      fill filled (data overlap_second) (roi_1d 0 100) (roi overlap_second)
      = Return again /\
      voxel [] (roi_1d 0 100) again [85] = 2.
Proof.
  assert (H : fillable 1 (fun _ => []) scenario_request overlap_output overlap_first)
    by (apply (bool_decide_unpack _); vm_compute; exact I).
  split; [exact H|].
  destruct (fill_chunk_spec 1 (fun _ => []) scenario_request overlap_output overlap_first H)
    as (batch' & Hfill & _ & Hspec).
  destruct (Hspec RAW (constant_volume 1 (roi_1d 60 30)) eq_refl)
    as (out & roi_a & filled & Hout & Hroi & Hf & Hb' & _ & _ & Hv & Hlater).
  vm_compute in Hout. inversion Hout; subst out. clear Hout.
  vm_compute in Hroi. inversion Hroi; subst roi_a. clear Hroi.
  exists batch', filled. split; [exact Hfill|]. split; [exact Hb'|].
  split; [exact (Hv [] [85] eq_refl eq_refl)|].
  split; [exact (Hv [] [95] eq_refl eq_refl)|].
  exact (Hlater overlap_second [] [85]
           (conj eq_refl eq_refl) eq_refl eq_refl eq_refl eq_refl).
Defined.

(** ** Allocating the output *)

(** A loop whose passes either return or raise [e], and one of whose passes
    raises [e] whatever the state, raises [e]. *)
Lemma foldM_Raise {A S} (f : S -> A -> outcome S) (e : exn) (l : list A) (s : S) :
  (forall s' x, x ∈ l -> (exists s'', f s' x = Return s'') \/ f s' x = Raise e) ->
  (exists x, x ∈ l /\ forall s', f s' x = Raise e) ->
  foldM f s l = Raise e.
Proof.
  revert s. induction l as [|y l IH]; intros s Hall (x & Hx & Hraise).
  - by apply elem_of_nil in Hx.
  - cbn [foldM]. destruct (Hall s y) as [[s'' Hy]|Hy]; [by left| |by rewrite Hy].
    rewrite Hy. obind. apply IH.
    + intros s' z Hz. apply Hall. by right.
    + apply elem_of_cons in Hx as [->|Hx].
      * rewrite Hraise in Hy. discriminate Hy.
      * by exists x.
Qed.

Lemma interpolate_table_cases (vt : VolumeType) :
  ((vt ∈ interpolate_keys) /\ exists i, interpolate_table vt = Return i) \/
  ((vt ∉ interpolate_keys) /\ interpolate_table vt = Raise KeyError).
Proof.
  unfold interpolate_keys.
  destruct vt; cbn;
    first [ left; split; [by apply (bool_decide_unpack _)|eauto]
          | right; split; [by apply (bool_decide_unpack _)|done] ].
Qed.

Lemma np_zeros_nd_Return (shape : list Z) :
  Forall (Z.le 0) shape -> np_zeros_nd shape = Return (mkArray shape (fun _ => 0)).
Proof.
  intros H. unfold np_zeros_nd.
  replace (forallb (Z.leb 0) shape) with true; [done|].
  symmetry. apply forallb_forall. intros x Hx. apply Z.leb_le.
  rewrite Forall_forall in H. apply H. by apply list_elem_of_In.
Qed.

Section SetupBatch.

Variable request : BatchSpec.
Variable chunk_batch : Batch.
Hypothesis Hshapes : shapes_nonneg request.

Lemma setup_volume_cases (batch : Batch) (item : VolumeType * Roi) :
  item ∈ map_to_list request ->
  (exists batch', setup_volume chunk_batch batch item = Return batch') \/
  setup_volume chunk_batch batch item = Raise KeyError.
Proof.
  destruct item as [vt r]. intros Hin. apply elem_of_map_to_list in Hin.
  specialize (Hshapes vt r Hin). cbn beta in Hshapes.
  unfold setup_volume. cbn [fst snd].
  destruct (interpolate_table_cases vt) as [[_ [i ->]]|[_ ->]]; [|by right].
  obind. rewrite np_zeros_nd_Return by (case_decide; [by constructor|done]).
  obind. unfold dict_get. destruct (chunk_batch !! RAW); obind; eauto.
Qed.

Lemma setup_volume_no_raw (batch : Batch) (item : VolumeType * Roi) :
  chunk_batch !! RAW = None ->
  item ∈ map_to_list request ->
  setup_volume chunk_batch batch item = Raise KeyError.
Proof.
  intros Hraw Hin.
  destruct (setup_volume_cases batch item Hin) as [[batch' H]|H]; [|done].
  revert H. unfold setup_volume, dict_get. rewrite Hraw.
  destruct (interpolate_table item.1); obind; try discriminate.
  destruct (np_zeros_nd _); obind; discriminate.
Qed.

Lemma setup_volume_no_key (batch : Batch) (item : VolumeType * Roi) :
  item.1 ∉ interpolate_keys ->
  setup_volume chunk_batch batch item = Raise KeyError.
Proof.
  intros Hkey. unfold setup_volume.
  destruct (interpolate_table_cases item.1) as [[? _]|[_ ->]]; done.
Qed.

Lemma setup_batch_Raise :
  (chunk_batch !! RAW = None /\ request ≠ ∅) \/
  (exists vt r, request !! vt = Some r /\ vt ∉ interpolate_keys) ->
  setup_batch request chunk_batch = Raise KeyError.
Proof.
  intros H. unfold setup_batch. apply foldM_Raise.
  - intros s x Hx. by apply setup_volume_cases.
  - destruct H as [[Hraw Hne]|(vt & r & Hr & Hkey)].
    + destruct (map_to_list request) as [|x l] eqn:Hl.
      { by apply map_to_list_empty_iff in Hl. }
      exists x. split; [by left|]. intros s.
      apply setup_volume_no_raw; [done|]. rewrite Hl. by left.
    + exists (vt, r). split; [by apply elem_of_map_to_list|].
      intros s. by apply setup_volume_no_key.
Qed.

(** Every volume that the loop adds carries the resolution of the RAW
    volume of the chunk, and belongs to a requested type. *)
Lemma setup_volumes_resolution (l : list (VolumeType * Roi)) (batch0 batch : Batch) :
  foldM (setup_volume chunk_batch) batch0 l = Return batch ->
  (forall vt, is_Some (batch !! vt) <-> is_Some (batch0 !! vt) \/ vt ∈ l.*1) /\
  forall vt v, batch !! vt = Some v ->
    batch0 !! vt = Some v \/
    exists raw, chunk_batch !! RAW = Some raw /\ resolution v = resolution raw.
Proof.
  revert batch0. induction l as [|[k r] l IH]; intros batch0 Hfold.
  - cbn in Hfold. inversion Hfold; subst. split; [|by left].
    intros vt. split; [by left|]. intros [H|H]; [done|]. by apply elem_of_nil in H.
  - cbn [foldM] in Hfold. revert Hfold.
    destruct (setup_volume chunk_batch batch0 (k, r)) as [batch1| | |] eqn:Hstep;
      obind; try discriminate.
    intros Hfold. destruct (IH batch1 Hfold) as [IHdom IHres].
    revert Hstep. unfold setup_volume, dict_get. cbn [fst snd].
    destruct (interpolate_table k) as [i| | |]; obind; try discriminate.
    destruct (np_zeros_nd _) as [zeros| | |]; obind; try discriminate.
    destruct (chunk_batch !! RAW) as [raw|] eqn:Hraw; obind; try discriminate.
    intros Hstep. inversion Hstep; subst batch1. clear Hstep. split.
    + intros vt. rewrite IHdom. cbn [fmap list_fmap fst].
      rewrite lookup_insert_is_Some, elem_of_cons.
      destruct (decide (k = vt)) as [->|Hne]; [intuition auto|intuition congruence].
    + intros vt v Hv. destruct (IHres vt v Hv) as [H|H]; [|by right].
      destruct (decide (k = vt)) as [->|Hne].
      * rewrite lookup_insert_eq in H. inversion H; subst v. right. by exists raw.
      * rewrite lookup_insert_ne in H by done. by left.
Qed.

End SetupBatch.

(** ** Getting chunks *)

Section GetChunk.

Context {U : Type}.
Variable request_batch : U -> BatchSpec -> outcome (Batch * U).
Variable pick : nat -> nat.
Variable self : Chunk.

(** Every chunk obtained takes one sub-request off the queue. *)
Lemma get_chunk_length (i : nat) (queue queue' : list BatchSpec) (u u' : U) (chunk : Batch) :
  get_chunk request_batch pick self i queue u = Return (chunk, queue', u') ->
  length queue = S (length queue').
Proof.
  unfold get_chunk, workers_get, queue_get.
  destruct (decide (num_workers self > 1)).
  - destruct queue as [|q0 queue0]; [discriminate|].
    set (k := (pick i mod length (q0 :: queue0))%nat).
    assert (Hk : (k < length (q0 :: queue0))%nat).
    { apply Nat.mod_upper_bound. cbn. lia. }
    destruct (lookup_lt_is_Some_2 _ _ Hk) as [q Hq]. rewrite Hq.
    destruct (request_batch u q) as [r| | |]; obind; try discriminate.
    intros H. inversion H; subst. rewrite length_delete by eauto. cbn in *. lia.
  - destruct queue as [|q0 queue0]; obind; [discriminate|]. cbn [fst snd].
    destruct (request_batch u q0) as [r| | |]; obind; try discriminate.
    intros H. by inversion H.
Qed.

Lemma get_chunk_empty (i : nat) (u : U) :
  get_chunk request_batch pick self i [] u = Blocked.
Proof. unfold get_chunk, workers_get, queue_get. by destruct (decide _). Qed.

Lemma provide_loop_length (request : BatchSpec) (n : nat) :
  forall i queue u batch b queue' u',
    provide_loop request_batch pick self request n i queue u batch = Return (b, queue', u') ->
    length queue = (n + length queue')%nat.
Proof.
  induction n as [|n IH]; intros i queue u batch b queue' u' H.
  - cbn in H. by inversion H.
  - cbn [provide_loop] in H. revert H.
    destruct (get_chunk request_batch pick self i queue u) as [[[c q1] u1]| | |] eqn:Hc;
      obind; try discriminate.
    cbn [fst snd].
    destruct (merge_chunk request batch c) as [batch'| | |]; obind; try discriminate.
    intros H. apply IH in H. apply get_chunk_length in Hc. lia.
Qed.

End GetChunk.



Lemma recording_eq {U} (request_batch : U -> BatchSpec -> outcome (Batch * U))
    (u : U) (log0 : list BatchSpec) (q : BatchSpec) :
  recording request_batch (u, log0) q
  = (r ← request_batch u q; Return (r.1, (r.2, log0 ++ [q]))).
Proof. reflexivity. Qed.




(** ** The schedule across calls of [provide] *)

Lemma setup_Return (fuel : nat) (self0 self : Chunk) :
  setup fuel self0 = Return self ->
  exists queue, self = set_requests self0 queue (length queue).
Proof.
  unfold setup, prepare_requests.
  destruct (walk_bounds self0) as [bounds| | |]; obind; try discriminate.
  destruct (walk fuel self0 _ _ _ _ []) as [queue| | |]; obind; try discriminate.
  intros H. inversion H. by exists queue.
Qed.

(** Schedule building reads the template, the request and the dimension,
    not the queue. *)
Lemma walk_set_requests (self : Chunk) (q : list BatchSpec) (n : nat)
    (min_stride begin endv : list Z) :
  forall fuel offset queue,
    walk fuel (set_requests self q n) min_stride begin endv offset queue
    = walk fuel self min_stride begin endv offset queue.
Proof.
  induction fuel as [|fuel IH]; intros offset queue; [done|].
  cbn [walk]. destruct (np_all_lt offset endv); [|done].
  change (walk_step (set_requests self q n) min_stride begin endv offset)
    with (walk_step self min_stride begin endv offset).
  destruct (walk_step self min_stride begin endv offset); obind; try done.
Qed.

Lemma setup_set_requests (fuel : nat) (self : Chunk) (q : list BatchSpec) (n : nat) :
  setup fuel (set_requests self q n) = setup fuel self.
Proof.
  unfold setup, prepare_requests.
  change (walk_bounds (set_requests self q n)) with (walk_bounds self).
  destruct (walk_bounds self) as [bounds| | |]; obind; try done.
  by rewrite walk_set_requests.
Qed.

Section Reentry.

Context {U : Type}.
Variable request_batch : U -> BatchSpec -> outcome (Batch * U).
Variable pick : nat -> nat.

(** A [provide] that returns has emptied a queue of [num_requests]
    sub-requests. *)
Lemma provide_drains (self self' : Chunk) (request : BatchSpec) (u u' : U)
    (b : option Batch) (queue : list BatchSpec) :
  requests self = Some queue -> num_requests self = Some (length queue) ->
  provide request_batch pick self request u = Return (b, self', u') ->
  self' = set_requests self [] (length queue).
Proof.
  intros Hq Hn. unfold provide. rewrite Hq, Hn.
  destruct (provide_loop request_batch pick self request (length queue) 0 queue u None)
    as [[[b0 queue'] u0]| | |] eqn:Hloop; obind; try discriminate.
  cbn [fst snd]. intros H. inversion H; subst.
  apply provide_loop_length in Hloop.
  assert (length queue' = 0%nat) by lia.
  by rewrite (nil_length_inv queue').
Qed.

(** On an empty queue [provide] waits for a sub-request that never
    comes. *)
Lemma provide_blocks (self : Chunk) (request : BatchSpec) (u : U) (n : nat) :
  requests self = Some [] -> num_requests self = Some (S n) ->
  provide request_batch pick self request u = Blocked.
Proof.
  intros Hq Hn. unfold provide. rewrite Hq, Hn. cbn [provide_loop].
  by rewrite get_chunk_empty.
Qed.

End Reentry.

(** C8, as stated, fails: in the scenario, with an upstream provider that
    answers every sub-request, the first [provide] returns and no second
    [provide] on the same engine does. *)
Lemma second_provide_does_not_return :
  setup 4 scenario_chunk = Return scenario_ready /\
  (exists b1 self1,
     provide ones_upstream (fun _ => 0%nat) scenario_ready scenario_request tt
     = Return (b1, self1, tt)) /\
  ~ exists b1 self1 r,
      provide ones_upstream (fun _ => 0%nat) scenario_ready scenario_request tt
      = Return (b1, self1, tt) /\
      provide ones_upstream (fun _ => 0%nat) self1 scenario_request tt = Return r.
Proof.
  split; [vm_compute; reflexivity|].
  split; [eexists _, _; vm_compute; reflexivity|].
  intros (b1 & self1 & r & H1 & H2).
  apply (provide_drains ones_upstream _ scenario_ready self1 scenario_request tt tt b1
           [scenario_sub_request 0; scenario_sub_request 30;
            scenario_sub_request 60; scenario_sub_request 90] eq_refl eq_refl) in H1.
  subst self1. cbn [length] in H2.
  rewrite (provide_blocks ones_upstream _ (set_requests scenario_ready [] 4)
             scenario_request tt 3 eq_refl eq_refl) in H2.
  discriminate H2.
Qed.

(** C8, amended.  The schedule is built by [setup], once; a [provide] that
    returns has taken every scheduled sub-request off the queue and leaves
    it empty; [provide] builds no schedule, so a further [provide] on the
    same engine blocks on its first chunk (unless nothing was scheduled);
    only another [setup] fills the queue again. *)
Theorem provide_consumes_schedule {U}
    (request_batch : U -> BatchSpec -> outcome (Batch * U)) (pick : nat -> nat)
    (fuel : nat) (self0 self self' : Chunk) (request : BatchSpec) (u u' : U)
    (b : option Batch) :
  setup fuel self0 = Return self ->
  provide request_batch pick self request u = Return (b, self', u') ->
  requests self' = Some [] /\
  num_requests self' = num_requests self /\
  (num_requests self <> Some 0%nat ->
   forall request2 u2, provide request_batch pick self' request2 u2 = Blocked) /\
  setup fuel self' = Return self.
Proof.
  intros Hsetup Hprovide.
  destruct (setup_Return fuel self0 self Hsetup) as [queue ->].
  apply (provide_drains request_batch pick (set_requests self0 queue (length queue))
           self' request u u' b queue eq_refl eq_refl) in Hprovide.
  subst self'. cbn [requests num_requests set_requests].
  split; [done|]. split; [done|]. split.
  - intros Hn request2 u2.
    destruct (length queue) as [|n] eqn:Hlen; [done|].
    by apply (provide_blocks request_batch pick _ request2 u2 n).
  - by rewrite !setup_set_requests.
Qed.

Lemma provide_consumes_schedule_witness :
  exists b self',
    provide ones_upstream (fun _ => 0%nat) scenario_ready scenario_request tt
    = Return (b, self', tt) /\
    requests self' = Some [] /\
    num_requests self' = num_requests scenario_ready /\
    (num_requests scenario_ready <> Some 0%nat ->
     forall request2 u2, provide ones_upstream (fun _ => 0%nat) self' request2 u2 = Blocked) /\
    setup 4 self' = Return scenario_ready.
Proof.
  eexists _, _. split; [vm_compute; reflexivity|].
  eapply (provide_consumes_schedule ones_upstream (fun _ => 0%nat) 4 scenario_chunk
            scenario_ready _ scenario_request tt tt).
  - vm_compute. reflexivity.
  - vm_compute. reflexivity.
Defined.

(** ** The first chunk and the output *)

Lemma fill_chunk_empty_batch (request : BatchSpec) (chunk : Batch) :
  chunk ≠ ∅ -> fill_chunk request ∅ chunk = Raise KeyError.
Proof.
  intros Hne. unfold fill_chunk.
  destruct (map_to_list chunk) as [|[vt vol] l] eqn:Hl.
  { by apply map_to_list_empty_iff in Hl. }
  cbn [foldM]. unfold fill_volume, dict_get. cbn [fst snd].
  by rewrite lookup_empty.
Qed.

Lemma setup_batch_empty (chunk : Batch) : setup_batch ∅ chunk = Return ∅.
Proof. unfold setup_batch. by rewrite map_to_list_empty. Qed.

(** C10.  The output is allocated from the first chunk that [provide]
    obtains: [__setup_batch] runs on it before anything is filled in.
    Every output volume then allocated carries the resolution of the RAW
    volume of that chunk, and every requested volume type is allocated.  If
    the first chunk has no RAW volume, or the request names a volume type
    outside the table of [__setup_batch], [provide] raises [KeyError]
    instead of returning a batch. *)
Theorem first_chunk_allocation {U}
    (request_batch : U -> BatchSpec -> outcome (Batch * U)) (pick : nat -> nat)
    (self : Chunk) (request : BatchSpec) (u u' : U) (n : nat)
    (queue queue' : list BatchSpec) (chunk : Batch) :
  num_requests self = Some (S n) ->
  requests self = Some queue ->
  get_chunk request_batch pick self 0 queue u = Return (chunk, queue', u') ->
  shapes_nonneg request ->
  provide request_batch pick self request u
  = (batch ← setup_batch request chunk;
     batch' ← fill_chunk request batch chunk;
     r ← provide_loop request_batch pick self request n 1 queue' u' (Some batch');
     Return (r.1.1, set_requests self r.1.2 (S n), r.2)) /\
  (forall batch, setup_batch request chunk = Return batch ->
     (forall vt, is_Some (batch !! vt) <-> is_Some (request !! vt)) /\
     forall vt v, batch !! vt = Some v ->
       exists raw, chunk !! RAW = Some raw /\ resolution v = resolution raw) /\
  (chunk !! RAW = None -> request ≠ ∅ \/ chunk ≠ ∅ ->
   provide request_batch pick self request u = Raise KeyError) /\
  (forall vt r, request !! vt = Some r -> vt ∉ interpolate_keys ->
   provide request_batch pick self request u = Raise KeyError).
Proof.
  intros Hn Hq Hchunk Hshapes.
  assert (Hprovide : forall e,
            merge_chunk request None chunk = Raise e ->
            provide request_batch pick self request u = Raise e).
  { intros e He. unfold provide. rewrite Hn, Hq. cbn [provide_loop].
    rewrite Hchunk. obind. cbn [fst snd]. by rewrite He. }
  split; [|split; [|split]].
  - unfold provide. rewrite Hn, Hq. cbn [provide_loop].
    rewrite Hchunk. obind. cbn [fst snd]. unfold merge_chunk.
    destruct (setup_batch request chunk) as [batch| | |]; obind; try done.
    destruct (fill_chunk request batch chunk) as [batch'| | |]; obind; done.
  - intros batch Hbatch. unfold setup_batch in Hbatch.
    destruct (setup_volumes_resolution chunk _ _ _ Hbatch) as [Hdom Hres]. split.
    + intros vt. rewrite Hdom, lookup_empty. split.
      * intros [[? H]|H]; [discriminate H|].
        apply list_elem_of_fmap in H as ([vt' r] & -> & Hin).
        apply elem_of_map_to_list in Hin. by exists r.
      * intros [r Hr]. right. apply list_elem_of_fmap. exists (vt, r).
        split; [done|]. by apply elem_of_map_to_list.
    + intros vt v Hv. destruct (Hres vt v Hv) as [H|H]; [|done].
      by rewrite lookup_empty in H.
  - intros Hraw Hne. apply Hprovide. unfold merge_chunk.
    destruct (decide (request = ∅)) as [->|Hreq].
    + rewrite setup_batch_empty. obind. apply fill_chunk_empty_batch.
      by destruct Hne.
    + rewrite (setup_batch_Raise request chunk Hshapes); [done|]. by left.
  - intros vt r Hr Hkey. apply Hprovide. unfold merge_chunk.
    rewrite (setup_batch_Raise request chunk Hshapes); [done|]. right. by exists vt, r.
Qed.

Lemma first_chunk_allocation_witness :
  shapes_nonneg labels_request /\
  provide ones_upstream (fun _ => 0%nat) labels_ready labels_request tt = Raise KeyError.
Proof.
  assert (H : shapes_nonneg labels_request)
    by (apply (bool_decide_unpack _); vm_compute; exact I).
  split; [exact H|].
  destruct (first_chunk_allocation ones_upstream (fun _ => 0%nat) labels_ready labels_request
              tt tt 3
              [{[ GT_LABELS := roi_1d 0 30 ]}; {[ GT_LABELS := roi_1d 30 30 ]};
               {[ GT_LABELS := roi_1d 60 30 ]}; {[ GT_LABELS := roi_1d 90 30 ]}]
              [{[ GT_LABELS := roi_1d 30 30 ]};
               {[ GT_LABELS := roi_1d 60 30 ]}; {[ GT_LABELS := roi_1d 90 30 ]}]
              (constant_volume 1 <$> {[ GT_LABELS := roi_1d 0 30 ]})
              eq_refl eq_refl eq_refl H) as (_ & _ & Hraw & _).
  apply Hraw.
  - vm_compute. reflexivity.
  - left. apply (bool_decide_unpack _). vm_compute. exact I.
Defined.

(** * Further properties of the scheduler *)

(** ** The form of a sub-request *)

Lemma foldl_insert_lookup (g : Roi -> Roi) (l : list (VolumeType * Roi)) :
  NoDup (l.*1) -> forall (base : BatchSpec) k,
    foldl (fun cr item => <[item.1 := g item.2]> cr) base l !! k
    = match (list_to_map l : BatchSpec) !! k with
      | Some t => Some (g t)
      | None => base !! k
      end.
Proof.
  induction l as [|[k0 t0] l IH]; intros Hnd base k; [done|].
  cbn [fmap list_fmap fst] in Hnd. apply NoDup_cons in Hnd as [Hk0 Hnd].
  cbn [foldl fst snd]. rewrite (IH Hnd), list_to_map_cons.
  destruct (decide (k0 = k)) as [->|Hne].
  - rewrite (not_elem_of_list_to_map_1 l k Hk0). by rewrite !lookup_insert_eq.
  - rewrite !lookup_insert_ne by done. done.
Qed.

(** The loop of lines 137-138 turns the copy of the request into the
    placed template. *)
Lemma foldl_placed (self : Chunk) (offset : list Z) :
  foldl (fun cr item => <[item.1 := roi_shift item.2 offset]> cr) (request self)
        (map_to_list (chunk_spec_template self))
  = placed self offset.
Proof.
  apply map_eq. intros k.
  rewrite (foldl_insert_lookup (fun t => roi_shift t offset))
    by apply NoDup_fst_map_to_list.
  rewrite list_to_map_to_list. unfold placed.
  rewrite lookup_union, lookup_fmap.
  destruct (chunk_spec_template self !! k); cbn;
    by destruct (request self !! k).
Qed.

Lemma walk_step_placed (self : Chunk) (D : nat)
    (min_stride begin endv offset : list Z)
    (chunk_request : BatchSpec) (stride offset' : list Z) :
  (D = 1 \/ D = 3)%nat ->
  templated_wf D self ->
  length min_stride = D -> length endv = D -> length offset = D ->
  walk_step self min_stride begin endv offset = Return (chunk_request, stride, offset') ->
  chunk_request = placed self offset.
Proof.
  intros HD Hwf Hms He Hoff. unfold walk_step.
  destruct (foldM_rows (visit_volume (request self) min_stride endv offset)
              (fun cr item => <[item.1 := roi_shift item.2 offset]> cr)
              (clipped_row (request self) D min_stride endv offset)
              (map_to_list (chunk_spec_template self))
              (fun st x Hx => visit_volume_Return self D min_stride endv offset
                                HD Hwf Hms He Hoff st x Hx)
              (request self, [])) as (rows & Hfold & Hrows).
  rewrite Hfold. obind. cbn [fst snd]. rewrite foldl_placed.
  destruct (np_min_axis0 _) as [s| | |]; obind; try discriminate.
  destruct (odometer _ _ _ _ _ _ _) as [o| | |]; obind; try discriminate.
  intros H. by inversion H.
Qed.

(** ** The order of the walk *)

Lemma lex_lt_trans (a b c : list Z) : lex_lt a b -> lex_lt b c -> lex_lt a c.
Proof.
  revert b c. induction a as [|x a IH]; intros [|y b] [|z c]; cbn; try tauto.
  intros [H1|[-> H1]] [H2|[-> H2]]; [left; lia|by left|by left|].
  right. split; [done|]. by apply (IH b c).
Qed.

Lemma lex_lt_irrefl (a : list Z) : ~ lex_lt a a.
Proof. induction a as [|x a IH]; cbn; [tauto|]. intros [H|[_ H]]; [lia|done]. Qed.

Lemma odometer_lt_trans (a b c : list Z) :
  odometer_lt a b -> odometer_lt b c -> odometer_lt a c.
Proof. apply lex_lt_trans. Qed.

Lemma ascending_NoDup (l : list (list Z)) : ascending l -> NoDup l.
Proof.
  induction l as [|a l IH]; [constructor|]. intros [Ha Hl].
  constructor; [|by apply IH]. intros Hin.
  rewrite Forall_forall in Ha. by apply (lex_lt_irrefl (rev a)), Ha.
Qed.

Lemma walk_extends (self : Chunk) (min_stride begin endv : list Z) :
  forall fuel offset queue q,
    walk fuel self min_stride begin endv offset queue = Return q ->
    exists rest, q = queue ++ rest.
Proof.
  induction fuel as [|fuel IH]; intros offset queue q H.
  - cbn in H. destruct (np_all_lt offset endv); [discriminate H|].
    inversion H; subst. exists []. by rewrite app_nil_r.
  - cbn [walk] in H. destruct (np_all_lt offset endv).
    + destruct (walk_step self min_stride begin endv offset) as [step| | |];
        try discriminate H.
      revert H. obind. intros H. apply IH in H as [rest ->].
      exists (step.1.1 :: rest). by rewrite <- app_assoc.
    + inversion H; subst. exists []. by rewrite app_nil_r.
Qed.

Section Trace.

Variable self : Chunk.
Variables min_stride begin endv : list Z.
Variable Inv : list Z -> Prop.
Hypothesis Hstep : forall offset cr stride offset',
  Inv offset -> np_all_lt offset endv = true ->
  walk_step self min_stride begin endv offset = Return (cr, stride, offset') ->
  cr = placed self offset /\ Inv offset' /\ odometer_lt offset offset'.

(** What a walk that returns has put on the queue. *)
Lemma walk_trace :
  forall fuel offset queue q,
    Inv offset ->
    walk fuel self min_stride begin endv offset queue = Return q ->
    exists offs,
      q = queue ++ (placed self <$> offs) /\
      Forall (fun o => Inv o /\ np_all_lt o endv = true) offs /\
      Forall (fun o => o = offset \/ odometer_lt offset o) offs /\
      ascending offs /\
      (np_all_lt offset endv = true -> head offs = Some offset).
Proof.
  induction fuel as [|fuel IH]; intros offset queue q Hinv H.
  - cbn in H. destruct (np_all_lt offset endv) eqn:Hc; [discriminate H|].
    inversion H; subst. exists []. rewrite app_nil_r. by repeat split.
  - cbn [walk] in H. destruct (np_all_lt offset endv) eqn:Hc; last first.
    { inversion H; subst. exists []. rewrite app_nil_r. by repeat split. }
    destruct (walk_step self min_stride begin endv offset) as [[[cr stride] offset']| | |]
      eqn:Hs; try discriminate H.
    revert H. obind. cbn [fst snd]. intros H.
    destruct (Hstep offset cr stride offset' Hinv Hc Hs) as (-> & Hinv' & Hlt).
    destruct (IH offset' _ q Hinv' H) as (offs & -> & Hall & Hafter & Hasc & _).
    exists (offset :: offs). rewrite <- app_assoc. cbn.
    split; [done|]. split; [by constructor|].
    assert (Hgt : Forall (odometer_lt offset) offs).
    { eapply Forall_impl; [exact Hafter|]. cbn. intros o [->|Ho]; [done|].
      by apply (odometer_lt_trans offset offset' o). }
    split; [constructor; [by left|]|].
    { eapply Forall_impl; [exact Hgt|]. cbn. by right. }
    done.
Qed.

End Trace.

(** The loop body moves the offset forward in the order of the odometer,
    and never below [begin], when [min_stride] is positive. *)
Lemma walk_step_advances (self : Chunk) (D : nat) (min_stride begin endv : list Z) :
  (D = 1 \/ D = 3)%nat ->
  dims self = D ->
  chunk_spec_template self ≠ ∅ ->
  templated_wf D self ->
  walk_bounds self = Return (min_stride, begin, endv) ->
  (forall d, (d < D)%nat -> 0 < min_stride !!! d) ->
  forall offset cr stride offset',
    length offset = D /\ Forall2 Z.le begin offset ->
    np_all_lt offset endv = true ->
    walk_step self min_stride begin endv offset = Return (cr, stride, offset') ->
    cr = placed self offset /\
    (length offset' = D /\ Forall2 Z.le begin offset') /\
    odometer_lt offset offset'.
Proof.
  intros HD Hdims Hne Hwf Hwb Hpos offset cr stride offset' [Hoff Hle] Hc Hstep.
  destruct (walk_bounds_extrema self D Hne Hwf) as (ms & b & e & Hwb' & Hms & Hb & He & _).
  rewrite Hwb in Hwb'. inversion Hwb'; subst ms b e. clear Hwb'.
  split; [by apply (walk_step_placed self D min_stride begin endv offset cr stride offset')|].
  destruct (stride_lower_bound self D min_stride begin endv offset cr stride offset'
              HD Hdims Hne Hwf Hwb Hoff Hstep) as (Hlen & Hodo & Hge).
  destruct stride as [|s0 [|s1 [|s2 [|]]]]; try discriminate Hlen.
  destruct HD as [HD1|HD3].
  - rewrite HD1 in *.
    destruct begin as [|b0 [|]]; try discriminate Hb.
    destruct endv as [|e0 [|]]; try discriminate He.
    destruct offset as [|o0 [|]]; try discriminate Hoff.
    rewrite odometer_1 in Hodo. inversion Hodo; subst offset'. clear Hodo.
    specialize (Hge 0%nat). specialize (Hpos 0%nat). cbn in Hge, Hpos.
    apply Forall2_cons in Hle as [Hle0 _].
    split; [split; [done|]|].
    + constructor; [lia|constructor].
    + unfold odometer_lt. cbn. lia.
  - rewrite HD3 in *.
    destruct begin as [|b0 [|b1 [|b2 [|]]]]; try discriminate Hb.
    destruct endv as [|e0 [|e1 [|e2 [|]]]]; try discriminate He.
    destruct offset as [|o0 [|o1 [|o2 [|]]]]; try discriminate Hoff.
    rewrite odometer_3 in Hodo. inversion Hodo; subst offset'. clear Hodo.
    assert (Hs0 : 1 <= s0).
    { specialize (Hge 0%nat). specialize (Hpos 0%nat). cbn in Hge, Hpos. lia. }
    assert (Hs1 : 1 <= s1).
    { specialize (Hge 1%nat). specialize (Hpos 1%nat). cbn in Hge, Hpos. lia. }
    assert (Hs2 : 1 <= s2).
    { specialize (Hge 2%nat). specialize (Hpos 2%nat). cbn in Hge, Hpos. lia. }
    apply Forall2_cons in Hle as [Hle0 Hle]. apply Forall2_cons in Hle as [Hle1 Hle].
    apply Forall2_cons in Hle as [Hle2 _].
    cbn in Hc. rewrite !andb_true_iff, !Z.ltb_lt in Hc. destruct Hc as (Hc0 & Hc1 & Hc2 & _).
    destruct (decide (o0 + s0 >= e0)); [destruct (decide (o1 + s1 >= e1))|];
      (split; [split; [done|repeat constructor; lia]|unfold odometer_lt; cbn; lia]).
Qed.

Lemma np_all_lt_Forall2 (a b : list Z) :
  length a = length b -> np_all_lt a b = true -> Forall2 Z.lt a b.
Proof.
  revert b. induction a as [|x a IH]; intros [|y b] Hlen H; try discriminate Hlen.
  - constructor.
  - cbn in H. apply andb_true_iff in H as [Hxy H]. constructor.
    + by apply Z.ltb_lt.
    + apply IH; [by inversion Hlen|done].
Qed.

(** What schedule building has put on the queue when it returns: the
    template placed at offsets that lie between [begin] and [end], that
    start at [begin], and that come in the order of the odometer. *)
Lemma prepare_requests_trace (self self' : Chunk) (D fuel : nat) :
  (D = 1 \/ D = 3)%nat ->
  dims self = D ->
  chunk_spec_template self ≠ ∅ ->
  templated_wf D self ->
  shapes_positive self ->
  prepare_requests fuel self = Return self' ->
  exists min_stride begin endv offsets,
    walk_bounds self = Return (min_stride, begin, endv) /\
    self' = set_requests self (placed self <$> offsets) (length offsets) /\
    Forall (fun o => length o = D) offsets /\
    Forall (in_box begin endv) offsets /\
    (np_all_lt begin endv = true -> head offsets = Some begin) /\
    ascending offsets.
Proof.
  intros HD Hdims Hne Hwf Hpos Hprep.
  destruct (walk_bounds_extrema self D Hne Hwf) as (ms & b & e & Hwb & Hms & Hb & He & _).
  exists ms, b, e. unfold prepare_requests in Hprep. rewrite Hwb in Hprep.
  revert Hprep. obind. cbn [fst snd].
  destruct (walk fuel self ms b e b []) as [queue| | |] eqn:Hwalk; obind; try discriminate.
  intros Hprep. inversion Hprep; subst self'. clear Hprep.
  destruct (walk_trace self ms b e (fun o => length o = D /\ Forall2 Z.le b o)
              (walk_step_advances self D ms b e HD Hdims Hne Hwf Hwb
                 (min_stride_positive self D ms b e Hne Hwf Hpos Hwb))
              fuel b [] queue) as (offs & -> & Hall & _ & Hasc & Hhead); [|done|].
  { split; [done|]. apply Forall2_same_length_lookup_2; [done|].
    intros i x y Hx Hy. rewrite Hx in Hy. inversion Hy. lia. }
  exists offs. split; [done|]. cbn [app]. rewrite length_fmap.
  split; [done|]. split; [|split; [|done]].
  - eapply Forall_impl; [exact Hall|]. cbn. tauto.
  - eapply Forall_impl; [exact Hall|]. cbn. intros o [[Hlen Hle] Hlt].
    split; [done|]. apply np_all_lt_Forall2; [lia|done].
Qed.

Lemma placed_templated (self : Chunk) (offset : list Z) (vt : VolumeType) (t : Roi) :
  chunk_spec_template self !! vt = Some t ->
  placed self offset !! vt = Some (roi_shift t offset).
Proof.
  intros Ht. unfold placed. rewrite lookup_union, lookup_fmap, Ht. cbn.
  by destruct (request self !! vt).
Qed.

Lemma placed_other (self : Chunk) (offset : list Z) (vt : VolumeType) :
  chunk_spec_template self !! vt = None ->
  placed self offset !! vt = request self !! vt.
Proof.
  intros Ht. unfold placed. rewrite lookup_union, lookup_fmap, Ht. cbn.
  by destruct (request self !! vt).
Qed.

(** X1.  With the scheduler's preconditions (every templated type in the
    request, [D] axes throughout with [D] 1 or 3, positive template
    shapes), every sub-request that [__prepare_requests] enqueues is a copy
    of the request in which each templated volume type has its template ROI
    shifted by one offset, the same for all types; that offset lies between
    [begin] and [end] on every axis, and the first sub-request is placed at
    [begin].  The volume types without a template keep the ROI of the
    request, and [num_requests] counts the queue. *)
Theorem schedule_places_template (self self' : Chunk) (D fuel : nat) :
  (D = 1 \/ D = 3)%nat ->
  dims self = D ->
  chunk_spec_template self ≠ ∅ ->
  templated_wf D self ->
  shapes_positive self ->
  prepare_requests fuel self = Return self' ->
  exists min_stride begin endv queue,
    walk_bounds self = Return (min_stride, begin, endv) /\
    requests self' = Some queue /\
    num_requests self' = Some (length queue) /\
    (np_all_lt begin endv = true -> head queue = Some (placed self begin)) /\
    forall q, q ∈ queue ->
      exists offset,
        in_box begin endv offset /\
        (forall vt t, chunk_spec_template self !! vt = Some t ->
           q !! vt = Some (roi_shift t offset)) /\
        (forall vt, chunk_spec_template self !! vt = None ->
           q !! vt = request self !! vt).
Proof.
  intros HD Hdims Hne Hwf Hpos Hprep.
  destruct (prepare_requests_trace self self' D fuel HD Hdims Hne Hwf Hpos Hprep)
    as (ms & b & e & offs & Hwb & -> & _ & Hbox & Hhead & _).
  exists ms, b, e, (placed self <$> offs).
  split; [done|]. split; [done|]. split; [by rewrite length_fmap|]. split.
  - intros Hc. destruct offs as [|o offs]; [by specialize (Hhead Hc)|].
    specialize (Hhead Hc). cbn in Hhead. inversion Hhead. done.
  - intros q Hq. apply list_elem_of_fmap in Hq as (o & -> & Ho).
    exists o. rewrite Forall_forall in Hbox. split; [by apply Hbox|].
    split; [intros vt t; apply placed_templated|intros vt; apply placed_other].
Qed.

Lemma schedule_places_template_witness :
  exists min_stride begin endv queue,
    walk_bounds scenario_chunk = Return (min_stride, begin, endv) /\
    requests scenario_ready = Some queue /\
    num_requests scenario_ready = Some (length queue) /\
    (np_all_lt begin endv = true -> head queue = Some (placed scenario_chunk begin)) /\
    forall q, q ∈ queue ->
      exists offset,
        in_box begin endv offset /\
        (forall vt t, chunk_spec_template scenario_chunk !! vt = Some t ->
           q !! vt = Some (roi_shift t offset)) /\
        (forall vt, chunk_spec_template scenario_chunk !! vt = None ->
           q !! vt = request scenario_chunk !! vt).
Proof.
  apply (schedule_places_template scenario_chunk scenario_ready 1 4).
  - left. reflexivity.
  - reflexivity.
  - apply (bool_decide_unpack _). vm_compute. exact I.
  - apply (bool_decide_unpack _). vm_compute. exact I.
  - apply (bool_decide_unpack _). vm_compute. exact I.
  - vm_compute. reflexivity.
Defined.

Lemma coord_add_inj (t a b : list Z) :
  length a = length t -> length b = length t ->
  coord_add t a = coord_add t b -> a = b.
Proof.
  revert a b. induction t as [|x t IH]; intros [|y a] [|z b] Ha Hb H;
    try discriminate; [done|].
  cbn in H. inversion H. f_equal; [lia|]. apply IH; [by inversion Ha|by inversion Hb|done].
Qed.

(** X2.  With positive template shapes (in dimension 1 or 3) the walk moves
    strictly forward in the order of the odometer, so the sub-requests on
    the queue are pairwise distinct: no chunk is requested twice. *)
Theorem schedule_no_duplicates (self self' : Chunk) (D fuel : nat) :
  (D = 1 \/ D = 3)%nat ->
  dims self = D ->
  chunk_spec_template self ≠ ∅ ->
  templated_wf D self ->
  shapes_positive self ->
  prepare_requests fuel self = Return self' ->
  exists offsets,
    requests self' = Some (placed self <$> offsets) /\
    ascending offsets /\
    NoDup (placed self <$> offsets).
Proof.
  intros HD Hdims Hne Hwf Hpos Hprep.
  destruct (prepare_requests_trace self self' D fuel HD Hdims Hne Hwf Hpos Hprep)
    as (ms & b & e & offs & Hwb & -> & Hlen & _ & _ & Hasc).
  exists offs. split; [done|]. split; [done|].
  apply map_choose in Hne as (vt & t & Ht).
  destruct (templated_wf_lookup _ _ _ _ Hwf Ht) as ([Hto _] & _).
  rewrite Forall_forall in Hlen.
  apply NoDup_fmap_2_strong; [|by apply ascending_NoDup].
  intros x y Hx Hy Heq.
  assert (H : placed self x !! vt = placed self y !! vt) by by rewrite Heq.
  rewrite !(placed_templated self _ vt t Ht) in H. inversion H as [H'].
  apply (coord_add_inj (roi_offset t)); [rewrite Hto; by apply Hlen..|done].
Qed.

Lemma schedule_no_duplicates_witness :
  exists offsets,
    requests scenario_ready = Some (placed scenario_chunk <$> offsets) /\
    ascending offsets /\
    NoDup (placed scenario_chunk <$> offsets).
Proof.
  apply (schedule_no_duplicates scenario_chunk scenario_ready 1 4).
  - left. reflexivity.
  - reflexivity.
  - apply (bool_decide_unpack _). vm_compute. exact I.
  - apply (bool_decide_unpack _). vm_compute. exact I.
  - apply (bool_decide_unpack _). vm_compute. exact I.
  - vm_compute. reflexivity.
Defined.

Lemma axis_step (a n o s j y : Z) :
  0 <= o -> 0 < s -> on_axis a n o s j y ->
  y < a + n - s + s /\
  ((j + 1) * s < n ->
   Z.max (if decide (o + y + s < a + n) then a - (o + y) else a + n - s + s - y) s = s /\
   on_axis a n o s (j + 1) (y + s) /\ y + s < a + n - s + s) /\
  (n <= (j + 1) * s ->
   y + Z.max (if decide (o + y + s < a + n) then a - (o + y) else a + n - s + s - y) s
   >= a + n - s + s).
Proof.
  intros Ho Hs (Hj & Hjn & ->).
  assert (Hmul : (j + 1) * s = j * s + s) by ring.
  assert (0 <= j * s) by (apply Z.mul_nonneg_nonneg; lia).
  rewrite Hmul. split; [lia|]. split.
  - intros Hlt. rewrite decide_True by lia. split; [lia|]. split; [|lia].
    split; [lia|]. rewrite Hmul. split; lia.
  - intros Hge. destruct (decide _); lia.
Qed.

Section Reach.

Variable self : Chunk.
Variables min_stride begin endv : list Z.
Variable x : list Z.
Variable Before : list Z -> Prop.
Hypothesis Hguard : forall o, Before o -> np_all_lt o endv = true.
Hypothesis Hnext : forall o cr stride o',
  Before o ->
  walk_step self min_stride begin endv o = Return (cr, stride, o') ->
  cr = placed self o /\ (o = x \/ Before o').

(** A walk that returns has visited [x] when it started before it. *)
Lemma walk_reaches :
  forall fuel o queue q,
    Before o ->
    walk fuel self min_stride begin endv o queue = Return q ->
    placed self x ∈ q.
Proof.
  induction fuel as [|fuel IH]; intros o queue q Hb H.
  - cbn in H. rewrite (Hguard o Hb) in H. discriminate H.
  - cbn [walk] in H. rewrite (Hguard o Hb) in H.
    destruct (walk_step self min_stride begin endv o) as [[[cr stride] o']| | |] eqn:Hs;
      try discriminate H.
    revert H. obind. cbn [fst snd]. intros H.
    destruct (Hnext o cr stride o' Hb Hs) as [-> [->|Hb']].
    + apply walk_extends in H as [rest ->].
      rewrite <- app_assoc. apply elem_of_app. right. apply elem_of_app. left.
      by apply list_elem_of_singleton.
    + exact (IH o' _ q Hb' H).
Qed.

End Reach.

Lemma grid_next (s j k : Z) : 0 < s -> j < k -> (j + 1) * s <= k * s.
Proof. intros Hs Hjk. apply Z.mul_le_mono_nonneg_r; lia. Qed.

Lemma grid_last (s j k n : Z) : 0 < s -> k * s < n -> n <= (j + 1) * s -> k <= j.
Proof.
  intros Hs Hk Hj. destruct (decide (k <= j)) as [|Hn]; [done|].
  assert ((j + 1) * s <= k * s) by (apply Z.mul_le_mono_nonneg_r; lia). lia.
Qed.

Section SingleEntity.

Variable self : Chunk.
Variable D : nat.
Variable vt : VolumeType.
Variables t r : Roi.
Hypothesis HD : (D = 1 \/ D = 3)%nat.
Hypothesis Hdims : dims self = D.
Hypothesis Htmpl : chunk_spec_template self = {[ vt := t ]}.
Hypothesis Hreq : request self !! vt = Some r.
Hypothesis Ht : roi_wf D t.
Hypothesis Hr : roi_wf D r.

Lemma single_ne : chunk_spec_template self ≠ ∅.
Proof. rewrite Htmpl. apply insert_non_empty. Qed.

Lemma single_wf : templated_wf D self.
Proof.
  unfold templated_wf. rewrite Htmpl. apply map_Forall_singleton.
  split; [done|]. by rewrite Hreq.
Qed.

Lemma single_walk_bounds :
  walk_bounds self
  = Return (get_shape t, coord_sub (get_begin r) (get_begin t),
            zip_with Z.add (coord_sub (get_end r) (get_shape t)) (get_shape t)).
Proof.
  unfold walk_bounds, get_common_roi_shape. rewrite Htmpl, map_to_list_singleton.
  cbn. unfold initial_offset, max_offset, dict_get. cbn.
  rewrite Hreq, lookup_singleton_eq. cbn.
  rewrite np_broadcast_same; [done|].
  unfold coord_sub, get_shape. rewrite length_zip_with, (get_end_length D) by done.
  destruct Ht as [_ ->]. lia.
Qed.

Lemma single_step (offset : list Z) (cr : BatchSpec) (stride offset' : list Z) :
  length offset = D ->
  walk_step self (get_shape t) (coord_sub (get_begin r) (get_begin t))
    (zip_with Z.add (coord_sub (get_end r) (get_shape t)) (get_shape t)) offset
  = Return (cr, stride, offset') ->
  cr = placed self offset /\
  length stride = 3%nat /\
  odometer D (coord_sub (get_begin r) (get_begin t))
    (zip_with Z.add (coord_sub (get_end r) (get_shape t)) (get_shape t))
    stride offset 0 D = Return offset' /\
  forall d, (d < D)%nat ->
    stride !!! d
    = Z.max (spec_candidate (request self)
               (zip_with Z.add (coord_sub (get_end r) (get_shape t)) (get_shape t))
               offset d vt t)
            (get_shape t !!! d).
Proof.
  intros Hoff Hstep.
  destruct (walk_step_Return self D _ _ _ offset HD Hdims single_ne single_wf
              single_walk_bounds Hoff) as (cr' & st' & o' & Hstep' & Hodo & Hlen & Hmin).
  rewrite Hstep in Hstep'. inversion Hstep'; subst cr' st' o'. clear Hstep'.
  split.
  { pose proof (fun H1 H2 => walk_step_placed self D _ _ _ offset cr stride offset'
                               HD single_wf H1 H2 Hoff Hstep) as Hp.
    apply Hp; [by destruct Ht|].
    unfold coord_sub, get_shape.
    rewrite !length_zip_with, (get_end_length D) by done. destruct Ht as [_ ->]. lia. }
  split; [done|]. split; [by rewrite <- Hdims|].
  intros d Hd. destruct (Hmin d Hd) as [(vt' & t' & Hl & <-) _].
  rewrite Htmpl in Hl. apply lookup_singleton_Some in Hl as [<- <-]. done.
Qed.

End SingleEntity.

Section Cover3.

Variable self : Chunk.
Variable vt : VolumeType.
Variables a0 a1 a2 n0 n1 n2 o0 o1 o2 s0 s1 s2 k0 k1 k2 : Z.
Hypothesis Hdims : dims self = 3%nat.
Hypothesis Htmpl : chunk_spec_template self = {[ vt := mkRoi [o0; o1; o2] [s0; s1; s2] ]}.
Hypothesis Hreq : request self !! vt = Some (mkRoi [a0; a1; a2] [n0; n1; n2]).
Hypothesis Ho0 : 0 <= o0.
Hypothesis Ho1 : 0 <= o1.
Hypothesis Ho2 : 0 <= o2.
Hypothesis Hs0 : 0 < s0.
Hypothesis Hs1 : 0 < s1.
Hypothesis Hs2 : 0 < s2.
Hypothesis Hk0 : 0 <= k0 /\ k0 * s0 < n0.
Hypothesis Hk1 : 0 <= k1 /\ k1 * s1 < n1.
Hypothesis Hk2 : 0 <= k2 /\ k2 * s2 < n2.

Lemma before_next_3 (y : list Z) (cr : BatchSpec) (stride y' : list Z) :
  (exists j0 j1 j2 y0 y1 y2,
     y = [y0; y1; y2] /\
     on_axis a0 n0 o0 s0 j0 y0 /\ on_axis a1 n1 o1 s1 j1 y1 /\ on_axis a2 n2 o2 s2 j2 y2 /\
     (j2 < k2 \/ (j2 = k2 /\ (j1 < k1 \/ (j1 = k1 /\ j0 <= k0))))) ->
  walk_step self [s0; s1; s2] [a0 - o0; a1 - o1; a2 - o2]
    [a0 + n0 - s0 + s0; a1 + n1 - s1 + s1; a2 + n2 - s2 + s2] y
  = Return (cr, stride, y') ->
  cr = placed self y /\
  (y = [a0 - o0 + k0 * s0; a1 - o1 + k1 * s1; a2 - o2 + k2 * s2] \/
   exists j0 j1 j2 y0 y1 y2,
     y' = [y0; y1; y2] /\
     on_axis a0 n0 o0 s0 j0 y0 /\ on_axis a1 n1 o1 s1 j1 y1 /\ on_axis a2 n2 o2 s2 j2 y2 /\
     (j2 < k2 \/ (j2 = k2 /\ (j1 < k1 \/ (j1 = k1 /\ j0 <= k0))))).
Proof.
  intros (j0 & j1 & j2 & y0 & y1 & y2 & -> & H0 & H1 & H2 & Hlex) Hstep.
  destruct (single_step self 3 vt (mkRoi [o0; o1; o2] [s0; s1; s2])
              (mkRoi [a0; a1; a2] [n0; n1; n2]) (or_intror eq_refl) Hdims Htmpl Hreq
              (conj eq_refl eq_refl) (conj eq_refl eq_refl)
              [y0; y1; y2] cr stride y' eq_refl Hstep) as (Hcr & Hlen & Hodo & Hst).
  split; [done|].
  destruct stride as [|st0 [|st1 [|st2 [|]]]]; try discriminate Hlen.
  assert (Hst0 := Hst 0%nat ltac:(lia)).
  assert (Hst1 := Hst 1%nat ltac:(lia)).
  assert (Hst2 := Hst 2%nat ltac:(lia)). clear Hst.
  unfold spec_candidate in Hst0, Hst1, Hst2.
  rewrite (lookup_total_correct _ _ _ Hreq) in Hst0, Hst1, Hst2.
  cbn in Hst0, Hst1, Hst2.
  change (odometer 3 [a0 - o0; a1 - o1; a2 - o2]
            [a0 + n0 - s0 + s0; a1 + n1 - s1 + s1; a2 + n2 - s2 + s2]
            [st0; st1; st2] [y0; y1; y2] 0 3 = Return y') in Hodo.
  rewrite odometer_3 in Hodo. inversion Hodo as [Hy']. clear Hodo Hstep Hlen.
  destruct (axis_step a0 n0 o0 s0 j0 y0 Ho0 Hs0 H0) as (Hg0 & Hin0 & Hout0).
  destruct (axis_step a1 n1 o1 s1 j1 y1 Ho1 Hs1 H1) as (Hg1 & Hin1 & Hout1).
  destruct (axis_step a2 n2 o2 s2 j2 y2 Ho2 Hs2 H2) as (Hg2 & Hin2 & Hout2).
  rewrite <- Hst0 in Hin0, Hout0. rewrite <- Hst1 in Hin1, Hout1.
  rewrite <- Hst2 in Hin2, Hout2. clear Hst0 Hst1 Hst2.
  destruct (decide (j0 = k0 /\ j1 = k1 /\ j2 = k2)) as [(-> & -> & ->)|Hne].
  { left. destruct H0 as (_ & _ & ->), H1 as (_ & _ & ->), H2 as (_ & _ & ->). done. }
  right.
  assert (Hn0 : 0 < n0) by (assert (0 <= k0 * s0) by (apply Z.mul_nonneg_nonneg; lia); lia).
  assert (Hn1 : 0 < n1) by (assert (0 <= k1 * s1) by (apply Z.mul_nonneg_nonneg; lia); lia).
  assert (Hz0 : on_axis a0 n0 o0 s0 0 (a0 - o0)) by (unfold on_axis; lia).
  assert (Hz1 : on_axis a1 n1 o1 s1 0 (a1 - o1)) by (unfold on_axis; lia).
  destruct (decide ((j0 + 1) * s0 < n0)) as [L0|L0].
  - destruct (Hin0 L0) as (-> & Hon0 & Hlt0).
    rewrite decide_False by lia.
    exists (j0 + 1), j1, j2, (y0 + s0), y1, y2. do 4 (split; [done|]). lia.
  - assert (Hw0 : y0 + st0 >= a0 + n0 - s0 + s0) by (apply Hout0; lia).
    assert (Hkj0 : k0 <= j0) by (apply (grid_last s0 j0 k0 n0); lia).
    rewrite decide_True by done.
    destruct (decide ((j1 + 1) * s1 < n1)) as [L1|L1].
    + destruct (Hin1 L1) as (-> & Hon1 & Hlt1).
      rewrite decide_False by lia.
      exists 0, (j1 + 1), j2, (a0 - o0), (y1 + s1), y2. do 4 (split; [done|]). lia.
    + assert (Hw1 : y1 + st1 >= a1 + n1 - s1 + s1) by (apply Hout1; lia).
      assert (Hkj1 : k1 <= j1) by (apply (grid_last s1 j1 k1 n1); lia).
      rewrite decide_True by done.
      assert (Hjk2 : j2 < k2) by lia.
      assert (L2 : (j2 + 1) * s2 < n2).
      { assert (Hg := grid_next s2 j2 k2 Hs2 Hjk2). lia. }
      destruct (Hin2 L2) as (-> & Hon2 & Hlt2).
      exists 0, 0, (j2 + 1), (a0 - o0), (a1 - o1), (y2 + s2). do 4 (split; [done|]). lia.
Qed.

Lemma before_guard_3 (y : list Z) :
  (exists j0 j1 j2 y0 y1 y2,
     y = [y0; y1; y2] /\
     on_axis a0 n0 o0 s0 j0 y0 /\ on_axis a1 n1 o1 s1 j1 y1 /\ on_axis a2 n2 o2 s2 j2 y2 /\
     (j2 < k2 \/ (j2 = k2 /\ (j1 < k1 \/ (j1 = k1 /\ j0 <= k0))))) ->
  np_all_lt y [a0 + n0 - s0 + s0; a1 + n1 - s1 + s1; a2 + n2 - s2 + s2] = true.
Proof.
  intros (j0 & j1 & j2 & y0 & y1 & y2 & -> & H0 & H1 & H2 & _).
  destruct (axis_step a0 n0 o0 s0 j0 y0 Ho0 Hs0 H0) as (Hg0 & _).
  destruct (axis_step a1 n1 o1 s1 j1 y1 Ho1 Hs1 H1) as (Hg1 & _).
  destruct (axis_step a2 n2 o2 s2 j2 y2 Ho2 Hs2 H2) as (Hg2 & _).
  cbn. rewrite !andb_true_iff, !Z.ltb_lt. done.
Qed.

(** The walk of a template of one entity visits the offset that places the
    chunk [k0], [k1], [k2] template shapes after the beginning of the
    request. *)
Lemma walk_covers_3 (fuel : nat) (queue : list BatchSpec) :
  walk fuel self [s0; s1; s2] [a0 - o0; a1 - o1; a2 - o2]
    [a0 + n0 - s0 + s0; a1 + n1 - s1 + s1; a2 + n2 - s2 + s2]
    [a0 - o0; a1 - o1; a2 - o2] [] = Return queue ->
  placed self [a0 - o0 + k0 * s0; a1 - o1 + k1 * s1; a2 - o2 + k2 * s2] ∈ queue.
Proof.
  intros Hwalk.
  refine (walk_reaches self _ _ _ _ _ before_guard_3 before_next_3 fuel _ [] queue _ Hwalk).
  assert (Hn0 : 0 < n0) by (assert (0 <= k0 * s0) by (apply Z.mul_nonneg_nonneg; lia); lia).
  assert (Hn1 : 0 < n1) by (assert (0 <= k1 * s1) by (apply Z.mul_nonneg_nonneg; lia); lia).
  assert (Hn2 : 0 < n2) by (assert (0 <= k2 * s2) by (apply Z.mul_nonneg_nonneg; lia); lia).
  exists 0, 0, 0, (a0 - o0), (a1 - o1), (a2 - o2).
  split; [done|]. unfold on_axis. repeat split; lia.
Qed.

End Cover3.

Section Cover1.

Variable self : Chunk.
Variable vt : VolumeType.
Variables a0 n0 o0 s0 k0 : Z.
Hypothesis Hdims : dims self = 1%nat.
Hypothesis Htmpl : chunk_spec_template self = {[ vt := mkRoi [o0] [s0] ]}.
Hypothesis Hreq : request self !! vt = Some (mkRoi [a0] [n0]).
Hypothesis Ho0 : 0 <= o0.
Hypothesis Hs0 : 0 < s0.
Hypothesis Hk0 : 0 <= k0 /\ k0 * s0 < n0.

Lemma before_next_1 (y : list Z) (cr : BatchSpec) (stride y' : list Z) :
  (exists j0 y0, y = [y0] /\ on_axis a0 n0 o0 s0 j0 y0 /\ j0 <= k0) ->
  walk_step self [s0] [a0 - o0] [a0 + n0 - s0 + s0] y = Return (cr, stride, y') ->
  cr = placed self y /\
  (y = [a0 - o0 + k0 * s0] \/
   exists j0 y0, y' = [y0] /\ on_axis a0 n0 o0 s0 j0 y0 /\ j0 <= k0).
Proof.
  intros (j0 & y0 & -> & H0 & Hle) Hstep.
  destruct (single_step self 1 vt (mkRoi [o0] [s0]) (mkRoi [a0] [n0])
              (or_introl eq_refl) Hdims Htmpl Hreq
              (conj eq_refl eq_refl) (conj eq_refl eq_refl)
              [y0] cr stride y' eq_refl Hstep) as (Hcr & Hlen & Hodo & Hst).
  split; [done|].
  destruct stride as [|st0 [|st1 [|st2 [|]]]]; try discriminate Hlen.
  assert (Hst0 := Hst 0%nat ltac:(lia)). clear Hst.
  unfold spec_candidate in Hst0.
  rewrite (lookup_total_correct _ _ _ Hreq) in Hst0. cbn in Hst0.
  change (odometer 1 [a0 - o0] [a0 + n0 - s0 + s0] [st0; st1; st2] [y0] 0 1
          = Return y') in Hodo.
  rewrite odometer_1 in Hodo. inversion Hodo as [Hy']. clear Hodo Hstep Hlen.
  destruct (axis_step a0 n0 o0 s0 j0 y0 Ho0 Hs0 H0) as (Hg0 & Hin0 & _).
  rewrite <- Hst0 in Hin0. clear Hst0.
  destruct (decide (j0 = k0)) as [->|Hne].
  { left. by destruct H0 as (_ & _ & ->). }
  right.
  assert (Hjk : j0 < k0) by lia.
  assert (L0 : (j0 + 1) * s0 < n0).
  { assert (Hg := grid_next s0 j0 k0 Hs0 Hjk). lia. }
  destruct (Hin0 L0) as (-> & Hon0 & _).
  exists (j0 + 1), (y0 + s0). split; [done|]. split; [done|]. lia.
Qed.

Lemma before_guard_1 (y : list Z) :
  (exists j0 y0, y = [y0] /\ on_axis a0 n0 o0 s0 j0 y0 /\ j0 <= k0) ->
  np_all_lt y [a0 + n0 - s0 + s0] = true.
Proof.
  intros (j0 & y0 & -> & H0 & _).
  destruct (axis_step a0 n0 o0 s0 j0 y0 Ho0 Hs0 H0) as (Hg0 & _).
  cbn. rewrite !andb_true_iff, !Z.ltb_lt. done.
Qed.

Lemma walk_covers_1 (fuel : nat) (queue : list BatchSpec) :
  walk fuel self [s0] [a0 - o0] [a0 + n0 - s0 + s0] [a0 - o0] [] = Return queue ->
  placed self [a0 - o0 + k0 * s0] ∈ queue.
Proof.
  intros Hwalk.
  refine (walk_reaches self _ _ _ _ _ before_guard_1 before_next_1 fuel _ [] queue _ Hwalk).
  assert (Hn0 : 0 < n0) by (assert (0 <= k0 * s0) by (apply Z.mul_nonneg_nonneg; lia); lia).
  exists 0, (a0 - o0). split; [done|]. unfold on_axis. repeat split; lia.
Qed.

End Cover1.

(** The chunk that holds the coordinate [v] of a request of shape [n]. *)
Lemma div_grid (s v n : Z) :
  0 < s -> 0 <= v < n ->
  (0 <= v / s /\ v / s * s < n) /\ v / s * s <= v < v / s * s + s.
Proof.
  intros Hs Hv.
  assert (H1 := Z.mul_div_le v s Hs).
  assert (H2 := Z.mul_succ_div_gt v s Hs).
  assert (H3 : 0 <= v / s) by (apply Z.div_pos; lia).
  lia.
Qed.

(** The schedule of a template of one entity, of non-negative offset and
    positive shape, covers the request ROI of that entity. *)
Lemma single_entity_covers (self : Chunk) (D : nat) (vt : VolumeType) (t r : Roi)
    (fuel n : nat) (queue : list BatchSpec) :
  (D = 1 \/ D = 3)%nat ->
  dims self = D ->
  chunk_spec_template self = {[ vt := t ]} ->
  request self !! vt = Some r ->
  roi_wf D t -> roi_wf D r ->
  Forall (Z.le 0) (roi_offset t) ->
  Forall (Z.lt 0) (roi_shape t) ->
  prepare_requests fuel self = Return (set_requests self queue n) ->
  forall p, roi_contains_point r p = true -> covered queue vt p = true.
Proof.
  intros HD Hdims Htmpl Hreq Ht Hr Hoff Hshape Hprep.
  unfold prepare_requests in Hprep.
  rewrite (single_walk_bounds self D vt t r HD Hdims Htmpl Hreq Ht Hr) in Hprep.
  revert Hprep. obind. cbn [fst snd].
  destruct (walk fuel self _ _ _ _ []) as [queue'| | |] eqn:Hwalk; obind; try discriminate.
  intros Hprep. assert (queue' = queue) as ->.
  { unfold set_requests in Hprep. by inversion Hprep. }
  clear Hprep. intros p Hp.
  assert (Hcov : forall x, placed self x ∈ queue ->
            roi_contains_point (roi_shift t x) p = true -> covered queue vt p = true).
  { intros x Hx Hin. unfold covered. apply existsb_exists.
    exists (placed self x). split; [by apply list_elem_of_In|].
    rewrite (placed_templated self x vt t); [done|].
    rewrite Htmpl. apply lookup_singleton_eq. }
  assert (Hlp := roi_contains_point_length r p Hp).
  destruct t as [to ts], r as [ro rs]. destruct Ht as [Hto Hts], Hr as [Hro Hrs].
  cbn [roi_offset roi_shape] in *.
  destruct HD as [HD1|HD3]; subst D.
  - destruct to as [|o0 [|]]; try discriminate Hto.
    destruct ts as [|s0 [|]]; try discriminate Hts.
    destruct ro as [|a0 [|]]; try discriminate Hro.
    destruct rs as [|n0 [|]]; try discriminate Hrs.
    destruct p as [|p0 [|]]; try discriminate Hlp.
    apply Forall_cons in Hoff as [Ho0 _]. apply Forall_cons in Hshape as [Hs0 _].
    unfold roi_contains_point in Hp. cbn in Hp.
    rewrite !andb_true_iff, Z.leb_le, Z.ltb_lt in Hp. destruct Hp as ((_ & Hp0 & _) & Hp0' & _).
    destruct (div_grid s0 (p0 - a0) n0 Hs0) as [Hk0 Hc0]; [lia|].
    apply (Hcov [a0 - o0 + (p0 - a0) / s0 * s0]).
    + apply (walk_covers_1 self vt a0 n0 o0 s0 ((p0 - a0) / s0) Hdims Htmpl Hreq
               Ho0 Hs0 Hk0 fuel queue Hwalk).
    + unfold roi_contains_point. cbn.
      rewrite !andb_true_iff, Z.leb_le, Z.ltb_lt. repeat split; lia.
  - destruct to as [|o0 [|o1 [|o2 [|]]]]; try discriminate Hto.
    destruct ts as [|s0 [|s1 [|s2 [|]]]]; try discriminate Hts.
    destruct ro as [|a0 [|a1 [|a2 [|]]]]; try discriminate Hro.
    destruct rs as [|n0 [|n1 [|n2 [|]]]]; try discriminate Hrs.
    destruct p as [|p0 [|p1 [|p2 [|]]]]; try discriminate Hlp.
    apply Forall_cons in Hoff as [Ho0 Hoff]. apply Forall_cons in Hoff as [Ho1 Hoff].
    apply Forall_cons in Hoff as [Ho2 _].
    apply Forall_cons in Hshape as [Hs0 Hshape]. apply Forall_cons in Hshape as [Hs1 Hshape].
    apply Forall_cons in Hshape as [Hs2 _].
    unfold roi_contains_point in Hp. cbn in Hp.
    rewrite !andb_true_iff, !Z.leb_le, !Z.ltb_lt in Hp.
    destruct Hp as ((_ & Hp0 & Hp1 & Hp2 & _) & Hp0' & Hp1' & Hp2' & _).
    destruct (div_grid s0 (p0 - a0) n0 Hs0) as [Hk0 Hc0]; [lia|].
    destruct (div_grid s1 (p1 - a1) n1 Hs1) as [Hk1 Hc1]; [lia|].
    destruct (div_grid s2 (p2 - a2) n2 Hs2) as [Hk2 Hc2]; [lia|].
    apply (Hcov [a0 - o0 + (p0 - a0) / s0 * s0; a1 - o1 + (p1 - a1) / s1 * s1;
                 a2 - o2 + (p2 - a2) / s2 * s2]).
    + apply (walk_covers_3 self vt a0 a1 a2 n0 n1 n2 o0 o1 o2 s0 s1 s2
               ((p0 - a0) / s0) ((p1 - a1) / s1) ((p2 - a2) / s2) Hdims Htmpl Hreq
               Ho0 Ho1 Ho2 Hs0 Hs1 Hs2 Hk0 Hk1 Hk2 fuel queue Hwalk).
    + unfold roi_contains_point. cbn.
      rewrite !andb_true_iff, !Z.leb_le, !Z.ltb_lt. repeat split; lia.
Qed.

(** X3.  Coverage, where it holds: for a template of a single entity whose
    ROI has a non-negative offset and a positive shape (in dimension 1 or
    3), [__prepare_requests] returns, and every point of the request ROI of
    that entity lies in the ROI of some scheduled sub-request. *)
Theorem single_entity_coverage (self : Chunk) (D : nat) (vt : VolumeType) (t r : Roi) :
  (D = 1 \/ D = 3)%nat ->
  dims self = D ->
  chunk_spec_template self = {[ vt := t ]} ->
  request self !! vt = Some r ->
  roi_wf D t -> roi_wf D r ->
  Forall (Z.le 0) (roi_offset t) ->
  Forall (Z.lt 0) (roi_shape t) ->
  exists fuel queue,
    prepare_requests fuel self = Return (set_requests self queue (length queue)) /\
    forall p, roi_contains_point r p = true -> covered queue vt p = true.
Proof.
  intros HD Hdims Htmpl Hreq Ht Hr Hoff Hshape.
  assert (Hpos : shapes_positive self).
  { unfold shapes_positive. rewrite Htmpl. by apply map_Forall_singleton. }
  destruct (prepare_requests_terminates self D HD Hdims
              (single_ne self vt t Htmpl) (single_wf self D vt t r Htmpl Hreq Ht Hr) Hpos)
    as (fuel & queue & Hprep).
  exists fuel, queue. split; [done|].
  by apply (single_entity_covers self D vt t r fuel (length queue) queue).
Qed.

Lemma single_entity_coverage_witness :
  exists fuel queue,
    prepare_requests fuel scenario_chunk
    = Return (set_requests scenario_chunk queue (length queue)) /\
    forall p, roi_contains_point (roi_1d 0 100) p = true -> covered queue RAW p = true.
Proof.
  apply (single_entity_coverage scenario_chunk 1 RAW (roi_1d 0 30) (roi_1d 0 100)).
  - left. reflexivity.
  - reflexivity.
  - reflexivity.
  - vm_compute. reflexivity.
  - split; reflexivity.
  - split; reflexivity.
  - repeat constructor. cbn. lia.
  - repeat constructor.
Defined.

(** * Further properties of the assembler *)

(** ** Allocation *)

Lemma foldM_Return_foldl {A S} (f : S -> A -> outcome S) (g : S -> A -> S) (l : list A) :
  (forall s x, x ∈ l -> f s x = Return (g s x)) ->
  forall s, foldM f s l = Return (foldl g s l).
Proof.
  induction l as [|x l IH]; intros Hf s; [done|].
  cbn [foldM foldl]. rewrite Hf by by left. obind.
  apply IH. intros s' y Hy. apply Hf. by right.
Qed.

Lemma foldM_Return_all {A S} (f : S -> A -> outcome S) (l : list A) :
  forall s s', foldM f s l = Return s' ->
  forall x, x ∈ l -> exists s1 s2, f s1 x = Return s2.
Proof.
  induction l as [|y l IH]; intros s s' H x Hx; [by apply elem_of_nil in Hx|].
  cbn [foldM] in H. destruct (f s y) as [s1| | |] eqn:Hy; try discriminate H.
  revert H. obind. intros H.
  apply elem_of_cons in Hx as [->|Hx]; [by exists s, s1|].
  by apply (IH s1 s' H).
Qed.

Lemma foldl_insert_imap {V} (g : VolumeType -> Roi -> V) (m : gmap VolumeType Roi) :
  foldl (fun (b : gmap VolumeType V) item => <[item.1 := g item.1 item.2]> b) ∅ (map_to_list m)
  = map_imap (fun vt r => Some (g vt r)) m.
Proof.
  assert (H : forall (l : list (VolumeType * Roi)) (base : gmap VolumeType V) k,
            NoDup (l.*1) ->
            foldl (fun (b : gmap VolumeType V) item => <[item.1 := g item.1 item.2]> b) base l !! k
            = match (list_to_map l : gmap VolumeType Roi) !! k with
              | Some r => Some (g k r)
              | None => base !! k
              end).
  { induction l as [|[k0 t0] l IH]; intros base k Hnd; [done|].
    cbn [fmap list_fmap fst] in Hnd. apply NoDup_cons in Hnd as [Hk0 Hnd].
    cbn [foldl fst snd]. rewrite (IH _ _ Hnd), list_to_map_cons.
    destruct (decide (k0 = k)) as [->|Hne].
    - rewrite (not_elem_of_list_to_map_1 l k Hk0). by rewrite !lookup_insert_eq.
    - by rewrite !lookup_insert_ne by done. }
  apply map_eq. intros k. rewrite H by apply NoDup_fst_map_to_list.
  rewrite list_to_map_to_list, map_lookup_imap, lookup_empty.
  by destruct (m !! k).
Qed.

Lemma setup_volume_allocated (chunk_batch batch : Batch) (raw : Volume)
    (vt : VolumeType) (r : Roi) :
  chunk_batch !! RAW = Some raw ->
  vt ∈ interpolate_keys ->
  Forall (Z.le 0) (get_shape r) ->
  setup_volume chunk_batch batch (vt, r)
  = Return (<[vt := allocated (resolution raw) vt r]> batch).
Proof.
  intros Hraw Hkey Hshape. unfold setup_volume, dict_get. cbn [fst snd]. rewrite Hraw.
  unfold interpolate_keys in Hkey.
  assert (H3 : Forall (Z.le 0) (3 :: get_shape r)) by (constructor; [lia|done]).
  destruct vt; try (exfalso; revert Hkey; apply (bool_decide_unpack _); vm_compute; exact I);
    cbn [interpolate_table]; obind;
    (destruct (decide _) as [[?|?]|Hn]; try discriminate;
     try (exfalso; apply Hn; by (left + right)));
    rewrite np_zeros_nd_Return by done; obind; reflexivity.
Qed.

(** [__setup_batch] returns the allocated volumes. *)
Lemma setup_batch_allocated (request : BatchSpec) (chunk : Batch) (raw : Volume) :
  chunk !! RAW = Some raw ->
  map_Forall (fun vt r => (vt ∈ interpolate_keys) /\ Forall (Z.le 0) (get_shape r)) request ->
  setup_batch request chunk
  = Return (map_imap (fun vt r => Some (allocated (resolution raw) vt r)) request).
Proof.
  intros Hraw Hok. unfold setup_batch.
  rewrite (foldM_Return_foldl _
             (fun b item => <[item.1 := allocated (resolution raw) item.1 item.2]> b)).
  - by rewrite foldl_insert_imap.
  - intros s [vt r] Hin. apply elem_of_map_to_list in Hin.
    destruct (Hok vt r Hin). by apply setup_volume_allocated.
Qed.

(** X4.  [__setup_batch] allocates exactly the requested volumes: when the
    first chunk holds a RAW volume and every requested type is in the table
    of the function, with a ROI of non-negative shape, the output has one
    volume per requested type, with the requested ROI, an array of zeros of
    the shape of the ROI (after three channels for the affinities), the
    resolution of the RAW volume of the chunk, and [interpolate] set for
    RAW only.  For a request that is not empty these conditions are also
    necessary for the function to return. *)
Theorem setup_batch_allocates (request : BatchSpec) (chunk : Batch) :
  (forall raw,
     chunk !! RAW = Some raw ->
     map_Forall (fun vt r => (vt ∈ interpolate_keys) /\ Forall (Z.le 0) (get_shape r)) request ->
     setup_batch request chunk
     = Return (map_imap (fun vt r => Some (allocated (resolution raw) vt r)) request)) /\
  (forall batch,
     setup_batch request chunk = Return batch -> request ≠ ∅ ->
     is_Some (chunk !! RAW) /\
     map_Forall (fun vt r => (vt ∈ interpolate_keys) /\ Forall (Z.le 0) (get_shape r)) request).
Proof.
  split; [apply setup_batch_allocated|].
  intros batch Hret Hne. unfold setup_batch in Hret.
  assert (Hitem : forall vt r, request !! vt = Some r ->
            is_Some (chunk !! RAW) /\ (vt ∈ interpolate_keys) /\ Forall (Z.le 0) (get_shape r)).
  { intros vt r Hr.
    destruct (foldM_Return_all _ _ _ _ Hret (vt, r)) as (s1 & s2 & Hs);
      [by apply elem_of_map_to_list|].
    revert Hs. unfold setup_volume, dict_get. cbn [fst snd].
    destruct (interpolate_table_cases vt) as [[Hk [i ->]]|[_ ->]]; obind; [|discriminate].
    destruct (np_zeros_nd _) as [z| | |] eqn:Hz; obind; try discriminate.
    destruct (chunk !! RAW) as [raw|]; obind; [|discriminate].
    intros _. split; [done|]. split; [done|].
    unfold np_zeros_nd in Hz.
    destruct (forallb (Z.leb 0) _) eqn:Hall; [|discriminate Hz].
    rewrite forallb_forall in Hall. apply Forall_forall. intros x Hx.
    apply Z.leb_le, Hall, list_elem_of_In.
    destruct (decide _); [by right|done]. }
  split.
  - apply map_choose in Hne as (vt & r & Hr). by destruct (Hitem vt r Hr).
  - intros vt r Hr. by destruct (Hitem vt r Hr) as (_ & ? & ?).
Qed.

Lemma setup_batch_allocates_witness :
  setup_batch {[ RAW := roi_1d 0 100; GT_AFFINITIES := roi_1d 10 80 ]}
              {[ RAW := constant_volume 1 (roi_1d 0 30) ]}
  = Return {[ RAW := allocated [4] RAW (roi_1d 0 100);
              GT_AFFINITIES := allocated [4] GT_AFFINITIES (roi_1d 10 80) ]}.
Proof.
  destruct (setup_batch_allocates {[ RAW := roi_1d 0 100; GT_AFFINITIES := roi_1d 10 80 ]}
              {[ RAW := constant_volume 1 (roi_1d 0 30) ]}) as [H _].
  rewrite (H (constant_volume 1 (roi_1d 0 30))).
  - vm_compute. reflexivity.
  - vm_compute. reflexivity.
  - apply (bool_decide_unpack _). vm_compute. exact I.
Defined.

(** ** The order of two fills *)

(** X5.  Two chunks whose ROIs do not intersect can be filled into an
    output array in either order: both orders return, and the results have
    the same shape and the same voxels. *)
Theorem fill_disjoint_commute (D : nat) (lead : list Z) (a b1 b2 : ndarray)
    (roi_a r1 r2 : Roi) :
  roi_wf D roi_a -> roi_wf D r1 -> roi_wf D r2 ->
  array_on lead roi_a a -> array_on lead r1 b1 -> array_on lead r2 b2 ->
  intersect r1 r2 = None ->
  exists a1 a12 a2 a21,
    fill a b1 roi_a r1 = Return a1 /\ fill a1 b2 roi_a r2 = Return a12 /\
    fill a b2 roi_a r2 = Return a2 /\ fill a2 b1 roi_a r1 = Return a21 /\
    arr_shape a12 = arr_shape a21 /\
    forall c p, length c = length lead -> length p = D ->
      voxel c roi_a a12 p = voxel c roi_a a21 p.
Proof.
  intros Ha H1 H2 Hona Hon1 Hon2 Hdisj.
  destruct (fill_spec D lead a b1 roi_a r1 Ha H1 Hona Hon1) as (a1 & Hf1 & _ & Hona1 & Hv1).
  destruct (fill_spec D lead a1 b2 roi_a r2 Ha H2 Hona1 Hon2) as (a12 & Hf12 & _ & Hona12 & Hv12).
  destruct (fill_spec D lead a b2 roi_a r2 Ha H2 Hona Hon2) as (a2 & Hf2 & _ & Hona2 & Hv2).
  destruct (fill_spec D lead a2 b1 roi_a r1 Ha H1 Hona2 Hon1) as (a21 & Hf21 & _ & Hona21 & Hv21).
  exists a1, a12, a2, a21. do 4 (split; [done|]).
  split; [unfold array_on in *; congruence|].
  intros c p Hc Hp.
  rewrite (Hv12 c p Hc Hp), (Hv21 c p Hc Hp), (Hv1 c p Hc Hp), (Hv2 c p Hc Hp).
  assert (Hno := intersect_None D r1 r2 p H1 H2 Hdisj).
  destruct (in_bounds lead c), (roi_contains_point roi_a p),
    (roi_contains_point r1 p), (roi_contains_point r2 p); cbn in *; done.
Qed.

Lemma fill_disjoint_commute_witness :
  exists a1 a12 a2 a21,
    fill (mkArray [100] (fun _ => 0)) (mkArray [30] (fun _ => 1)) (roi_1d 0 100) (roi_1d 0 30)
    = Return a1 /\
    fill a1 (mkArray [30] (fun _ => 2)) (roi_1d 0 100) (roi_1d 30 30) = Return a12 /\
    fill (mkArray [100] (fun _ => 0)) (mkArray [30] (fun _ => 2)) (roi_1d 0 100) (roi_1d 30 30)
    = Return a2 /\
    fill a2 (mkArray [30] (fun _ => 1)) (roi_1d 0 100) (roi_1d 0 30) = Return a21 /\
    arr_shape a12 = arr_shape a21 /\
    forall c p, length c = length (@nil Z) -> length p = 1%nat ->
      voxel c (roi_1d 0 100) a12 p = voxel c (roi_1d 0 100) a21 p.
Proof.
  apply (fill_disjoint_commute 1 [] (mkArray [100] (fun _ => 0))
           (mkArray [30] (fun _ => 1)) (mkArray [30] (fun _ => 2))
           (roi_1d 0 100) (roi_1d 0 30) (roi_1d 30 30)); try (split; reflexivity);
    reflexivity.
Defined.

(** ** Assembly from a consistent upstream provider *)

Lemma covered_true (queue : list BatchSpec) (vt : VolumeType) (p : Coordinate) :
  covered queue vt p = true <->
  exists q r, q ∈ queue /\ q !! vt = Some r /\ roi_contains_point r p = true.
Proof.
  unfold covered. rewrite existsb_exists. split.
  - intros (q & Hq & H). destruct (q !! vt) as [r|] eqn:Hr; [|discriminate H].
    exists q, r. split; [by apply list_elem_of_In|done].
  - intros (q & r & Hq & Hr & H). exists q. split; [by apply list_elem_of_In|].
    by rewrite Hr.
Qed.

Lemma covered_Permutation (l l' : list BatchSpec) (vt : VolumeType) (p : Coordinate) :
  l ≡ₚ l' -> covered l vt p = covered l' vt p.
Proof.
  intros Hperm. apply eq_iff_eq_true. rewrite !covered_true.
  split; intros (q & r & Hq & H); exists q, r; split; try done.
  - by rewrite <- Hperm.
  - by rewrite Hperm.
Qed.

Lemma covered_snoc (done : list BatchSpec) (q : BatchSpec) (vt : VolumeType) (p : Coordinate) :
  covered (done ++ [q]) vt p
  = covered done vt p || from_option (fun r => roi_contains_point r p) false (q !! vt).
Proof. unfold covered. rewrite existsb_app. cbn. by rewrite orb_false_r. Qed.

(** The output as [__setup_batch] leaves it has nothing filled in. *)
Lemma allocated_assembled (D : nat) (world : VolumeType -> list Z -> Coordinate -> Z)
    (request : BatchSpec) (chunk : Batch) :
  allocatable D request ->
  is_Some (chunk !! RAW) ->
  exists batch, setup_batch request chunk = Return batch /\
    assembled D world request [] batch.
Proof.
  intros Hreq [raw Hraw].
  rewrite (setup_batch_allocated request chunk raw Hraw); last first.
  { intros vt r Hr. by destruct (Hreq vt r Hr) as (_ & ? & ?). }
  eexists. split; [reflexivity|]. split.
  - apply set_eq. intros vt. rewrite !elem_of_dom, map_lookup_imap.
    destruct (request !! vt); cbn; by rewrite <- ?not_eq_None_Some.
  - intros vt r Hr. exists (allocated (resolution raw) vt r).
    rewrite map_lookup_imap, Hr. cbn. do 3 (split; [done|]).
    intros c p _ _. unfold voxel. cbn. by rewrite andb_false_r.
Qed.

(** Filling in the answer to a sub-request. *)
Lemma fill_chunk_assembled (D : nat) (world : VolumeType -> list Z -> Coordinate -> Z)
    (request : BatchSpec) (done : list BatchSpec) (batch chunk : Batch) (q : BatchSpec) :
  allocatable D request ->
  sub_request_of D request q ->
  serves world q chunk ->
  assembled D world request done batch ->
  exists batch', fill_chunk request batch chunk = Return batch' /\
    assembled D world request (done ++ [q]) batch'.
Proof.
  intros Hreq [Hqdom Hqwf] [Hcdom Hserves] [Hbdom Hinv].
  (* what a volume of the chunk finds in the output *)
  assert (Hvol : forall vt vol, chunk !! vt = Some vol ->
            exists out r,
              batch !! vt = Some out /\ request !! vt = Some r /\ q !! vt = Some (roi vol) /\
              roi_wf D r /\ roi_wf D (roi vol) /\
              array_on (lead_of vt) r (data out) /\
              array_on (lead_of vt) (roi vol) (data vol)).
  { intros vt vol Hin. destruct (Hserves vt vol Hin) as (Hq & Hon & _).
    assert (Hr : is_Some (request !! vt)).
    { apply elem_of_dom. rewrite <- Hqdom. apply elem_of_dom. by eexists. }
    destruct Hr as [r Hr].
    destruct (Hinv vt r Hr) as (out & Hout & _ & Hona & _).
    exists out, r. do 3 (split; [done|]).
    split; [by destruct (Hreq vt r Hr)|]. split; [by apply (Hqwf vt)|]. done. }
  destruct (fill_volumes_Return request (map_to_list chunk) (NoDup_fst_map_to_list chunk) batch)
    as [batch' Hfill].
  { intros vt vol Hin. apply elem_of_map_to_list in Hin.
    destruct (Hvol vt vol Hin) as (out & r & Hout & Hr & _ & Ha & Hv & Hona & Honv).
    destruct (fill_spec D (lead_of vt) (data out) (data vol) r (roi vol) Ha Hv Hona Honv)
      as (filled & Hf & _).
    by exists out, r, filled. }
  exists batch'. split; [exact Hfill|].
  assert (Hspec := fill_volumes_spec request (map_to_list chunk)
                     (NoDup_fst_map_to_list chunk) batch batch' Hfill).
  assert (Hlook : forall vt r, request !! vt = Some r ->
            exists out, batch' !! vt = Some out /\ roi out = r /\
              array_on (lead_of vt) r (data out) /\
              forall c p, length c = length (lead_of vt) -> length p = D ->
                voxel c r (data out) p
                = if in_bounds (lead_of vt) c && roi_contains_point r p
                     && covered (done ++ [q]) vt p
                  then world vt c p else 0).
  { intros vt r Hr.
    assert (Hc : is_Some (chunk !! vt)).
    { apply elem_of_dom. rewrite Hcdom, Hqdom. apply elem_of_dom. by eexists. }
    destruct Hc as [vol Hc].
    destruct (Hspec vt) as [Hin' _].
    destruct (Hin' vol) as (out & r' & filled & Hout & Hr' & Hf & Hb');
      [by apply elem_of_map_to_list|].
    rewrite Hr in Hr'. inversion Hr'; subst r'. clear Hr'.
    destruct (Hvol vt vol Hc) as (out' & r' & Hout' & Hr' & Hq & Ha & Hv & Hona & Honv).
    rewrite Hout in Hout'. rewrite Hr in Hr'. simplify_eq.
    destruct (fill_spec D (lead_of vt) (data out') (data vol) r' (roi vol) Ha Hv Hona Honv)
      as (filled' & Hf' & _ & Honf & Hvox).
    rewrite Hf in Hf'. inversion Hf'; subst filled'. clear Hf'.
    destruct (Hinv vt r' Hr) as (out2 & Hout2 & Hroi & _ & Hold).
    rewrite Hout in Hout2. inversion Hout2; subst out2. clear Hout2.
    eexists. split; [exact Hb'|]. cbn [roi data]. split; [done|]. split; [done|].
    intros c p Hlc Hlp. rewrite (Hvox c p Hlc Hlp), (Hold c p Hlc Hlp).
    rewrite covered_snoc, Hq. cbn [from_option].
    destruct (Hserves vt vol Hc) as (_ & _ & Hworld).
    destruct (in_bounds (lead_of vt) c) eqn:Hinb; cbn [andb]; [|done].
    destruct (roi_contains_point r' p); cbn [andb]; [|done].
    destruct (roi_contains_point (roi vol) p) eqn:Hpv; cbn [andb orb].
    - rewrite orb_true_r. by apply Hworld.
    - by rewrite orb_false_r. }
  split; [|exact Hlook].
  apply set_eq. intros vt. rewrite <- Hbdom, !elem_of_dom.
  destruct (decide (vt ∈ (map_to_list chunk).*1)) as [Hin|Hnin].
  - apply list_elem_of_fmap in Hin as ([vt' vol] & -> & Hin).
    apply elem_of_map_to_list in Hin. cbn [fst].
    destruct (Hvol vt' vol Hin) as (out & r & Hout & Hr & _).
    destruct (Hlook vt' r Hr) as (out' & Hout' & _).
    rewrite Hout, Hout'. by split; eauto.
  - destruct (Hspec vt) as [_ Hsame]. by rewrite Hsame.
Qed.

(** Whatever the mode, a chunk is the answer of the upstream provider to
    one of the pending sub-requests, which leaves the queue. *)
Lemma get_chunk_pick {U} (request_batch : U -> BatchSpec -> outcome (Batch * U))
    (pick : nat -> nat) (self : Chunk) (i : nat) (queue : list BatchSpec) :
  queue <> [] ->
  exists k q, queue !! k = Some q /\
    forall u, get_chunk request_batch pick self i queue u
              = (r ← request_batch u q; Return (r.1, delete k queue, r.2)).
Proof.
  intros Hne. destruct queue as [|q0 queue0]; [done|].
  unfold get_chunk, workers_get, queue_get.
  destruct (decide (num_workers self > 1)).
  - set (k := (pick i mod length (q0 :: queue0))%nat).
    assert (Hk : (k < length (q0 :: queue0))%nat).
    { apply Nat.mod_upper_bound. cbn. lia. }
    destruct (lookup_lt_is_Some_2 _ _ Hk) as [q Hq].
    exists k, q. split; [done|]. intros u. by rewrite Hq.
  - exists 0%nat, q0. split; [done|]. intros u. obind. done.
Qed.

Section Assembly.

Context {U : Type}.
Variable request_batch : U -> BatchSpec -> outcome (Batch * U).
Variable pick : nat -> nat.
Variable self : Chunk.
Variable request : BatchSpec.
Variable D : nat.
Variable world : VolumeType -> list Z -> Coordinate -> Z.
Hypothesis Hreq : allocatable D request.
Hypothesis Hraw : is_Some (request !! RAW).

Lemma provide_loop_assembles (n : nat) :
  forall queue done i u batch,
    length queue = n ->
    (forall q, q ∈ queue ->
       sub_request_of D request q /\
       forall u, exists b u', request_batch u q = Return (b, u') /\ serves world q b) ->
    match batch with
    | None => done = [] /\ n <> 0%nat
    | Some b => assembled D world request done b
    end ->
    exists b' u' done',
      provide_loop request_batch pick self request n i queue u batch
      = Return (Some b', [], u') /\
      assembled D world request done' b' /\ done' ≡ₚ done ++ queue.
Proof.
  induction n as [|n IH]; intros queue done i u batch Hlen Hq Hbatch.
  - destruct queue; [|discriminate Hlen].
    destruct batch as [b|]; [|by destruct Hbatch].
    exists b, u, done. cbn. by rewrite app_nil_r.
  - assert (Hne : queue <> []) by (by destruct queue).
    destruct (get_chunk_pick request_batch pick self i queue Hne) as (k & q & Hk & Hget).
    destruct (Hq q) as [Hsub Hup]; [by apply list_elem_of_lookup; exists k|].
    destruct (Hup u) as (chunk & u1 & Hcall & Hserves).
    cbn [provide_loop]. rewrite Hget, Hcall. obind. cbn [fst snd].
    assert (Hmerge : exists b1, merge_chunk request batch chunk = Return b1 /\
              assembled D world request (done ++ [q]) b1).
    { unfold merge_chunk. destruct batch as [b|].
      - obind. by apply (fill_chunk_assembled D world request done b chunk q).
      - destruct Hbatch as [-> _].
        destruct (allocated_assembled D world request chunk Hreq) as (b0 & Hb0 & Hinv0).
        { destruct Hserves as [Hcdom _], Hsub as [Hqdom _].
          apply elem_of_dom. rewrite Hcdom, Hqdom. by apply elem_of_dom. }
        rewrite Hb0. obind.
        by apply (fill_chunk_assembled D world request [] b0 chunk q). }
    destruct Hmerge as (b1 & -> & Hinv1). obind.
    destruct (IH (delete k queue) (done ++ [q]) (S i) u1 (Some b1))
      as (b' & u' & done' & Hloop & Hinv' & Hperm).
    + rewrite length_delete by eauto. lia.
    + intros q' Hq'. apply Hq. by apply (list_elem_of_delete_inv _ k).
    + done.
    + exists b', u', done'. split; [done|]. split; [done|].
      rewrite Hperm, <- app_assoc. cbn [app].
      apply Permutation_app_head. symmetry. by apply delete_Permutation.
Qed.

End Assembly.

(** What [provide] returns when the upstream provider answers every
    scheduled sub-request from one underlying volume: the output after all
    of them have been filled in, in some order. *)
Lemma provide_assembled {U} (request_batch : U -> BatchSpec -> outcome (Batch * U))
    (pick : nat -> nat) (self : Chunk) (request : BatchSpec) (D : nat)
    (world : VolumeType -> list Z -> Coordinate -> Z) (queue : list BatchSpec) (u : U) :
  requests self = Some queue ->
  num_requests self = Some (length queue) ->
  queue <> [] ->
  Forall (sub_request_of D request) queue ->
  allocatable D request ->
  is_Some (request !! RAW) ->
  (forall u q, q ∈ queue ->
     exists b u', request_batch u q = Return (b, u') /\ serves world q b) ->
  exists batch u' done,
    provide request_batch pick self request u
    = Return (Some batch, set_requests self [] (length queue), u') /\
    assembled D world request done batch /\ done ≡ₚ queue.
Proof.
  intros Hq Hn Hne Hsub Hreq Hraw Hup.
  destruct (provide_loop_assembles request_batch pick self request D world Hreq Hraw
              (length queue) queue [] 0%nat u None eq_refl)
    as (b' & u' & done' & Hloop & Hinv & Hperm).
  { intros q Hin. rewrite Forall_forall in Hsub. split; [by apply Hsub|].
    intros u0. by apply Hup. }
  { split; [done|]. by destruct queue. }
  exists b', u', done'.
  unfold provide. rewrite Hn, Hq, Hloop. obind. cbn [fst snd]. done.
Qed.

(** The voxels of an assembled output, within the requested ROIs. *)
Lemma assembled_voxels (D : nat) (world : VolumeType -> list Z -> Coordinate -> Z)
    (request : BatchSpec) (done queue : list BatchSpec) (batch : Batch) :
  allocatable D request ->
  assembled D world request done batch ->
  done ≡ₚ queue ->
  forall vt r, request !! vt = Some r ->
    exists out, batch !! vt = Some out /\ roi out = r /\
      array_on (lead_of vt) r (data out) /\
      forall c p, in_bounds (lead_of vt) c = true -> roi_contains_point r p = true ->
        voxel c r (data out) p = if covered queue vt p then world vt c p else 0.
Proof.
  intros Hreq [_ Hinv] Hperm vt r Hr.
  destruct (Hinv vt r Hr) as (out & Hout & Hroi & Hon & Hvox).
  exists out. do 3 (split; [done|]). intros c p Hc Hp.
  assert (Hlc : length c = length (lead_of vt)).
  { unfold in_bounds in Hc. apply andb_true_iff in Hc as [Hc _].
    by apply bool_decide_eq_true in Hc. }
  assert (Hlp : length p = D).
  { apply roi_contains_point_length in Hp.
    destruct (Hreq vt r Hr) as [[Ho _] _]. lia. }
  rewrite (Hvox c p Hlc Hlp), Hc, Hp. cbn [andb].
  by rewrite (covered_Permutation done queue vt p Hperm).
Qed.

(** X6.  [provide] is transparent for a consistent upstream provider: when
    every scheduled sub-request has the volume types of the request, the
    request can be allocated, it asks for RAW, and the upstream provider
    answers every scheduled sub-request with the voxels of one underlying
    volume, then [provide] returns a batch with the requested volume types
    on the requested ROIs in which a voxel holds the value of the
    underlying volume when some scheduled sub-request covers it, and zero
    otherwise.  This holds with one worker and with a pool, in whatever
    order the pool completes the sub-requests. *)
Theorem provide_assembles {U} (request_batch : U -> BatchSpec -> outcome (Batch * U))
    (pick : nat -> nat) (self : Chunk) (request : BatchSpec) (D : nat)
    (world : VolumeType -> list Z -> Coordinate -> Z) (queue : list BatchSpec) (u : U) :
  requests self = Some queue ->
  num_requests self = Some (length queue) ->
  queue <> [] ->
  Forall (sub_request_of D request) queue ->
  allocatable D request ->
  is_Some (request !! RAW) ->
  (forall u q, q ∈ queue ->
     exists b u', request_batch u q = Return (b, u') /\ serves world q b) ->
  exists batch self' u',
    provide request_batch pick self request u = Return (Some batch, self', u') /\
    dom batch = dom request /\
    forall vt r, request !! vt = Some r ->
      exists out, batch !! vt = Some out /\ roi out = r /\
        array_on (lead_of vt) r (data out) /\
        forall c p, in_bounds (lead_of vt) c = true -> roi_contains_point r p = true ->
          voxel c r (data out) p = if covered queue vt p then world vt c p else 0.
Proof.
  intros Hq Hn Hne Hsub Hreq Hraw Hup.
  destruct (provide_assembled request_batch pick self request D world queue u
              Hq Hn Hne Hsub Hreq Hraw Hup) as (batch & u' & done & Hprov & Hinv & Hperm).
  exists batch, (set_requests self [] (length queue)), u'.
  split; [exact Hprov|]. split; [by destruct Hinv|].
  by apply (assembled_voxels D world request done queue batch).
Qed.

Lemma coord_sub_add (p o : list Z) :
  length p = length o -> coord_add (coord_sub p o) o = p.
Proof.
  revert o. induction p as [|x p IH]; intros [|y o] H; try discriminate; [done|].
  cbn. f_equal; [lia|]. apply IH. by inversion H.
Qed.

Lemma world_upstream_serves (world : VolumeType -> list Z -> Coordinate -> Z)
    (u : unit) (q : BatchSpec) :
  exists b u', world_upstream world u q = Return (b, u') /\ serves world q b.
Proof.
  eexists _, _. split; [reflexivity|]. split.
  - apply set_eq. intros vt. rewrite !elem_of_dom, map_lookup_imap.
    destruct (q !! vt); cbn; by rewrite <- ?not_eq_None_Some.
  - intros vt vol Hvol. rewrite map_lookup_imap in Hvol.
    destruct (q !! vt) as [r|] eqn:Hr; [|discriminate Hvol].
    cbn in Hvol. inversion Hvol; subst vol. clear Hvol. cbn [roi data world_volume].
    split; [done|]. split; [done|].
    intros c p Hc Hp. unfold voxel. cbn [arr_at].
    assert (Hlc : length c = length (lead_of vt)).
    { unfold in_bounds in Hc. apply andb_true_iff in Hc as [Hc _].
      by apply bool_decide_eq_true in Hc. }
    rewrite <- Hlc, take_app_length, drop_app_length.
    rewrite coord_sub_add; [done|].
    by apply roi_contains_point_length in Hp.
Qed.

Lemma provide_assembles_witness :
  exists batch self' u',
    provide (world_upstream ramp) (fun _ => 2%nat) scenario_ready scenario_request tt
    = Return (Some batch, self', u') /\
    dom batch = dom scenario_request /\
    forall vt r, scenario_request !! vt = Some r ->
      exists out, batch !! vt = Some out /\ roi out = r /\
        array_on (lead_of vt) r (data out) /\
        forall c p, in_bounds (lead_of vt) c = true -> roi_contains_point r p = true ->
          voxel c r (data out) p
          = if covered [scenario_sub_request 0; scenario_sub_request 30;
                        scenario_sub_request 60; scenario_sub_request 90] vt p
            then ramp vt c p else 0.
Proof.
  apply (provide_assembles (world_upstream ramp) (fun _ => 2%nat) scenario_ready
           scenario_request 1 ramp
           [scenario_sub_request 0; scenario_sub_request 30;
            scenario_sub_request 60; scenario_sub_request 90] tt).
  - reflexivity.
  - reflexivity.
  - discriminate.
  - apply (bool_decide_unpack _). vm_compute. exact I.
  - apply (bool_decide_unpack _). vm_compute. exact I.
  - vm_compute. eauto.
  - intros u q _. apply world_upstream_serves.
Defined.

(** ** Schedule and assembly together *)

Lemma placed_sub_request (self : Chunk) (D : nat) (offset : list Z) :
  templated_wf D self ->
  map_Forall (fun _ r => roi_wf D r) (request self) ->
  length offset = D ->
  sub_request_of D (request self) (placed self offset).
Proof.
  intros Hwf Hreq Hoff. split.
  - apply set_eq. intros vt. rewrite !elem_of_dom.
    destruct (chunk_spec_template self !! vt) as [t|] eqn:Ht.
    + rewrite (placed_templated self offset vt t Ht).
      destruct (templated_wf_lookup _ _ _ _ Hwf Ht) as (_ & q & -> & _). split; eauto.
    + by rewrite (placed_other self offset vt Ht).
  - intros vt x Hx.
    destruct (chunk_spec_template self !! vt) as [t|] eqn:Ht.
    + rewrite (placed_templated self offset vt t Ht) in Hx. inversion Hx; subst x.
      apply roi_shift_wf; [|done].
      by destruct (templated_wf_lookup _ _ _ _ Hwf Ht).
    + rewrite (placed_other self offset vt Ht) in Hx. by apply (Hreq vt).
Qed.

(** X7.  The chunk node is transparent where its schedule covers the
    request: for a template of a single entity with a ROI of non-negative
    offset and positive shape (in dimension 1 or 3), a request that can be
    allocated, that asks for RAW, and that asks for the templated entity on
    a ROI of positive shape, and an upstream provider that answers every
    sub-request from one underlying volume, [setup] returns, and [provide]
    then returns a batch that holds, on every requested ROI, exactly the
    voxels of the underlying volume - with one worker or with a pool. *)
Theorem chunk_is_transparent {U} (request_batch : U -> BatchSpec -> outcome (Batch * U))
    (pick : nat -> nat) (self : Chunk) (D : nat) (vt : VolumeType) (t r : Roi)
    (world : VolumeType -> list Z -> Coordinate -> Z) (u : U) :
  (D = 1 \/ D = 3)%nat ->
  dims self = D ->
  chunk_spec_template self = {[ vt := t ]} ->
  roi_wf D t ->
  Forall (Z.le 0) (roi_offset t) ->
  Forall (Z.lt 0) (roi_shape t) ->
  allocatable D (request self) ->
  is_Some (request self !! RAW) ->
  request self !! vt = Some r ->
  Forall (Z.lt 0) (roi_shape r) ->
  (forall u q, sub_request_of D (request self) q ->
     exists b u', request_batch u q = Return (b, u') /\ serves world q b) ->
  exists fuel self1 batch self2 u',
    setup fuel self = Return self1 /\
    provide request_batch pick self1 (request self) u = Return (Some batch, self2, u') /\
    dom batch = dom (request self) /\
    forall vt' r', request self !! vt' = Some r' ->
      exists out, batch !! vt' = Some out /\ roi out = r' /\
        array_on (lead_of vt') r' (data out) /\
        forall c p, in_bounds (lead_of vt') c = true -> roi_contains_point r' p = true ->
          voxel c r' (data out) p = world vt' c p.
Proof.
  intros HD Hdims Htmpl Ht Hoff Hshape Halloc Hraw Hreq Hrpos Hup.
  assert (Hr : roi_wf D r) by by destruct (Halloc vt r Hreq).
  assert (Hne := single_ne self vt t Htmpl).
  assert (Hwf := single_wf self D vt t r Htmpl Hreq Ht Hr).
  assert (Hpos : shapes_positive self).
  { unfold shapes_positive. rewrite Htmpl. by apply map_Forall_singleton. }
  destruct (prepare_requests_terminates self D HD Hdims Hne Hwf Hpos)
    as (fuel & queue & Hprep).
  assert (Hcov := single_entity_covers self D vt t r fuel (length queue) queue
                    HD Hdims Htmpl Hreq Ht Hr Hoff Hshape Hprep).
  destruct (prepare_requests_trace self _ D fuel HD Hdims Hne Hwf Hpos Hprep)
    as (ms & b & e & offs & _ & Hself & Hlen & _).
  assert (Hqueue : queue = placed self <$> offs).
  { unfold set_requests in Hself. injection Hself as Hq1 _. exact Hq1. }
  (* the schedule is not empty: it covers the first point of the ROI *)
  assert (Hfirst : roi_contains_point r (roi_offset r) = true).
  { apply (roi_contains_point_spec D); [done|by destruct Hr|].
    intros d Hd. destruct Hr as [Hro Hrs].
    destruct (lookup_lt_is_Some_2 (roi_shape r) d) as [x Hx]; [lia|].
    rewrite (list_lookup_total_correct _ _ _ Hx).
    rewrite Forall_forall in Hrpos.
    assert (0 < x) by (apply Hrpos; apply list_elem_of_lookup; by exists d). lia. }
  assert (Hq0 : queue <> []).
  { intros ->. specialize (Hcov _ Hfirst). discriminate Hcov. }
  assert (Hsub : Forall (sub_request_of D (request self)) queue).
  { rewrite Hqueue. apply Forall_fmap. eapply Forall_impl; [exact Hlen|].
    cbn. intros o Ho. apply placed_sub_request; [done| |done].
    intros vt' r' Hr'. by destruct (Halloc vt' r' Hr'). }
  destruct (provide_assembled request_batch pick (set_requests self queue (length queue))
              (request self) D world queue u eq_refl eq_refl Hq0 Hsub Halloc Hraw)
    as (batch & u' & done & Hprov & Hinv & Hperm).
  { intros u0 q Hq. apply Hup. rewrite Forall_forall in Hsub. by apply Hsub. }
  eexists fuel, (set_requests self queue (length queue)), batch, _, u'.
  split; [exact Hprep|]. split; [exact Hprov|]. split; [by destruct Hinv|].
  intros vt' r' Hr'.
  destruct (assembled_voxels D world (request self) done queue batch Halloc Hinv Hperm vt' r' Hr')
    as (out & Hb & Hroi & Hon & Hvox).
  exists out. do 3 (split; [done|]). intros c p Hc Hp.
  rewrite (Hvox c p Hc Hp).
  replace (covered queue vt' p) with true; [done|]. symmetry.
  destruct (decide (vt' = vt)) as [->|Hother].
  - assert (r' = r) as -> by congruence. by apply Hcov.
  - apply covered_true.
    destruct queue as [|q0 queue']; [done|].
    exists q0, r'. split; [by left|]. split; [|done].
    destruct offs as [|o offs']; [discriminate Hqueue|].
    cbn in Hqueue. injection Hqueue as Hq0' _.
    rewrite Hq0', placed_other, Hr'; [done|].
    rewrite Htmpl. by apply lookup_singleton_ne.
Qed.

Lemma chunk_is_transparent_witness :
  exists fuel self1 batch self2 u',
    setup fuel scenario_chunk = Return self1 /\
    provide (world_upstream ramp) (fun _ => 1%nat) self1 (request scenario_chunk) tt
    = Return (Some batch, self2, u') /\
    dom batch = dom (request scenario_chunk) /\
    forall vt' r', request scenario_chunk !! vt' = Some r' ->
      exists out, batch !! vt' = Some out /\ roi out = r' /\
        array_on (lead_of vt') r' (data out) /\
        forall c p, in_bounds (lead_of vt') c = true -> roi_contains_point r' p = true ->
          voxel c r' (data out) p = ramp vt' c p.
Proof.
  apply (chunk_is_transparent (world_upstream ramp) (fun _ => 1%nat) scenario_chunk 1 RAW
           (roi_1d 0 30) (roi_1d 0 100) ramp tt).
  - left. reflexivity.
  - reflexivity.
  - reflexivity.
  - split; reflexivity.
  - repeat constructor. cbn. lia.
  - repeat constructor.
  - apply (bool_decide_unpack _). vm_compute. exact I.
  - vm_compute. eauto.
  - vm_compute. reflexivity.
  - repeat constructor.
  - intros u q _. apply world_upstream_serves.
Defined.

(** * Further properties of [provide], of [__init__] and of [setup] *)

(** ** Every sub-request is forwarded once *)

Lemma provide_loop_forwards {U} (request_batch : U -> BatchSpec -> outcome (Batch * U))
    (pick : nat -> nat) (self : Chunk) (request : BatchSpec) (n : nat) :
  forall i queue u log0 batch b queue' u' log,
    provide_loop (recording request_batch) pick self request n i queue (u, log0) batch
    = Return (b, queue', (u', log)) ->
    exists taken, log = log0 ++ taken /\ length taken = n /\ queue ≡ₚ taken ++ queue'.
Proof.
  induction n as [|n IH]; intros i queue u log0 batch b queue' u' log H.
  - cbn in H. inversion H; subst. exists []. by rewrite app_nil_r.
  - cbn [provide_loop] in H.
    destruct queue as [|q0 queue0].
    { by rewrite get_chunk_empty in H. }
    destruct (get_chunk_pick (recording request_batch) pick self i (q0 :: queue0))
      as (k & q & Hk & Hget); [done|].
    rewrite Hget, recording_eq in H. revert H.
    destruct (request_batch u q) as [[c u1]| | |]; obind; try discriminate.
    cbn [fst snd].
    destruct (merge_chunk request batch c) as [batch'| | |]; obind; try discriminate.
    intros H. apply IH in H as (taken & -> & Hlen & Hperm).
    exists (q :: taken). rewrite <- app_assoc. split; [done|]. split; [cbn; lia|].
    rewrite (delete_Permutation _ _ _ Hk). cbn [app]. by rewrite Hperm.
Qed.

(** X8.  Whatever the number of workers and the order in which a pool
    completes, a [provide] that returns has forwarded every scheduled
    sub-request to the upstream provider exactly once: the requests that
    the provider received are a permutation of the queue that [setup]
    built. *)
Theorem provide_forwards_each_once {U}
    (request_batch : U -> BatchSpec -> outcome (Batch * U)) (pick : nat -> nat)
    (self self' : Chunk) (request : BatchSpec) (queue : list BatchSpec)
    (u u' : U) (b : option Batch) (log : list BatchSpec) :
  requests self = Some queue ->
  num_requests self = Some (length queue) ->
  provide (recording request_batch) pick self request (u, []) = Return (b, self', (u', log)) ->
  log ≡ₚ queue.
Proof.
  intros Hq Hn. unfold provide. rewrite Hn, Hq.
  destruct (provide_loop (recording request_batch) pick self request (length queue) 0 queue
              (u, []) None) as [[[b0 queue'] [u0 log0]]| | |] eqn:Hloop;
    obind; try discriminate.
  cbn [fst snd]. intros H. inversion H; subst. clear H.
  apply provide_loop_forwards in Hloop as (taken & -> & Hlen & Hperm).
  cbn [app]. rewrite Hperm.
  assert (Hl := Permutation_length Hperm). rewrite length_app in Hl.
  destruct queue'; [by rewrite app_nil_r|cbn in Hl; lia].
Qed.

Lemma provide_forwards_each_once_witness :
  exists b self' u',
    provide (recording ones_upstream) (fun _ => 2%nat) scenario_pool scenario_request (tt, [])
    = Return (b, self', (u', [scenario_sub_request 60; scenario_sub_request 90;
                              scenario_sub_request 0; scenario_sub_request 30])) /\
    [scenario_sub_request 60; scenario_sub_request 90;
     scenario_sub_request 0; scenario_sub_request 30]
    ≡ₚ [scenario_sub_request 0; scenario_sub_request 30;
        scenario_sub_request 60; scenario_sub_request 90].
Proof.
  eexists _, _, _. split; [vm_compute; reflexivity|].
  eapply (provide_forwards_each_once ones_upstream (fun _ => 2%nat) scenario_pool _
            scenario_request _ tt tt).
  - reflexivity.
  - reflexivity.
  - vm_compute. reflexivity.
Defined.

(** ** The constructor *)

(** X9.  [Chunk.__init__] returns exactly when the template is not empty
    and all its ROIs have one number of axes, which becomes [dims]; an
    empty template raises [IndexError], ROIs of different numbers of axes
    raise [AssertionError].  The object has no queue yet: [provide] on it,
    before [setup], raises [AttributeError]. *)
Theorem init_cases (request chunk_spec : BatchSpec) (workers : Z) :
  match init request chunk_spec workers with
  | Return self =>
      chunk_spec ≠ ∅ /\
      self = mkChunk chunk_spec (dims self) request workers None None /\
      map_Forall (fun _ t => roi_dims t = dims self) chunk_spec /\
      forall (U : Type) (request_batch : U -> BatchSpec -> outcome (Batch * U)) pick request' u,
        provide request_batch pick self request' u = Raise AttributeError
  | Raise e =>
      (e = IndexError /\ chunk_spec = ∅) \/
      (e = AssertionError /\
       exists vt1 t1 vt2 t2,
         chunk_spec !! vt1 = Some t1 /\ chunk_spec !! vt2 = Some t2 /\
         roi_dims t1 <> roi_dims t2)
  | _ => False
  end.
Proof.
  unfold init.
  destruct (map_to_list chunk_spec) as [|[vt0 roi0] items] eqn:Hitems.
  { left. split; [done|]. by apply map_to_list_empty_iff. }
  destruct (forallb _ _) eqn:Hall.
  - cbn [dims]. split.
    { intros ->. by rewrite map_to_list_empty in Hitems. }
    split; [done|]. split; [|done].
    intros vt t Ht. rewrite forallb_forall in Hall.
    assert (Hin : In (vt, t) ((vt0, roi0) :: items)).
    { rewrite <- Hitems. by apply list_elem_of_In, elem_of_map_to_list. }
    specialize (Hall _ Hin). cbn in Hall. apply bool_decide_eq_true in Hall. done.
  - right. split; [done|].
    apply not_true_iff_false in Hall.
    assert (Hex : exists item, item ∈ (vt0, roi0) :: items /\ roi_dims roi0 <> roi_dims item.2).
    { destruct (decide (Exists (fun item : VolumeType * Roi => roi_dims roi0 <> roi_dims item.2)
                          ((vt0, roi0) :: items))) as [Hex|Hnex].
      - apply Exists_exists in Hex. done.
      - exfalso. apply Hall. apply forallb_forall. intros item Hin.
        apply bool_decide_eq_true.
        destruct (decide (roi_dims roi0 = roi_dims item.2)) as [|Hne]; [done|].
        exfalso. apply Hnex. apply Exists_exists. exists item.
        split; [by apply list_elem_of_In|done]. }
    destruct Hex as ([vt t] & Hin & Hne). rewrite <- Hitems in Hin.
    apply elem_of_map_to_list in Hin.
    exists vt0, roi0, vt, t. split; [|done].
    apply elem_of_map_to_list. rewrite Hitems. by left.
Qed.

(** ** A templated type that is not requested *)

Lemma mapM_Raise {A B} (g : A -> outcome B) (e : exn) (l : list A) :
  (forall x, x ∈ l -> (exists y, g x = Return y) \/ g x = Raise e) ->
  (exists x, x ∈ l /\ g x = Raise e) ->
  mapM g l = Raise e.
Proof.
  induction l as [|x l IH]; intros Hall (z & Hz & Hraise).
  - by apply elem_of_nil in Hz.
  - cbn [mapM]. destruct (Hall x) as [[y Hy]|Hy]; [by left| |by rewrite Hy].
    rewrite Hy. obind. rewrite IH; [done| |].
    + intros x' Hx'. apply Hall. by right.
    + apply elem_of_cons in Hz as [->|Hz]; [|by exists z].
      rewrite Hraise in Hy. discriminate Hy.
Qed.

(** X10.  When the template names a volume type that the request does not
    hold, [__prepare_requests] - and so [setup] - raises [KeyError], at the
    first loop over the template (lines 120-121) and before anything is put
    on the queue.  (The ROIs at hand have [D] axes, and
    [get_common_roi], which is not among the sources, is taken to
    return.) *)
Theorem setup_missing_volume_type (self : Chunk) (D fuel : nat) (vt : VolumeType) (t : Roi) :
  present_wf D self ->
  chunk_spec_template self !! vt = Some t ->
  request self !! vt = None ->
  setup fuel self = Raise KeyError.
Proof.
  intros _ Ht Hmiss. unfold setup, prepare_requests, walk_bounds.
  rewrite (mapM_Raise (initial_offset (request self)) KeyError); [done| |].
  - intros [vt' t'] _. unfold initial_offset, dict_get. cbn [fst snd].
    destruct (request self !! vt'); obind; eauto.
  - exists (vt, t). split; [by apply elem_of_map_to_list|].
    unfold initial_offset, dict_get. cbn [fst snd]. by rewrite Hmiss.
Qed.

Lemma setup_missing_volume_type_witness :
  setup 0 labels_on_raw = Raise KeyError.
Proof.
  apply (setup_missing_volume_type labels_on_raw 1 0 GT_LABELS (roi_1d 0 30)).
  - apply (bool_decide_unpack _). vm_compute. exact I.
  - vm_compute. reflexivity.
  - vm_compute. reflexivity.
Defined.

(** ** Nothing to schedule *)

(** X11.  When [begin] is not below [end] on every axis - as for a request
    of empty extent - the loop of [__prepare_requests] is not entered:
    [setup] returns with an empty queue and [num_requests = 0], and
    [provide] then returns [None] instead of a batch, without calling the
    upstream provider. *)
Theorem empty_schedule_provides_nothing {U}
    (request_batch : U -> BatchSpec -> outcome (Batch * U)) (pick : nat -> nat)
    (self : Chunk) (fuel : nat) (min_stride begin endv : list Z) :
  walk_bounds self = Return (min_stride, begin, endv) ->
  np_all_lt begin endv = false ->
  setup fuel self = Return (set_requests self [] 0) /\
  forall request u,
    provide (recording request_batch) pick (set_requests self [] 0) request (u, [])
    = Return (None, set_requests self [] 0, (u, [])).
Proof.
  intros Hwb Hc. split.
  - unfold setup, prepare_requests. rewrite Hwb. obind. cbn [fst snd].
    by rewrite walk_exit.
  - intros request u. reflexivity.
Qed.

Lemma empty_schedule_provides_nothing_witness :
  setup 0 empty_request_chunk = Return (set_requests empty_request_chunk [] 0) /\
  forall request u,
    provide (recording ones_upstream) (fun _ => 0%nat)
            (set_requests empty_request_chunk [] 0) request (u, [])
    = Return (None, set_requests empty_request_chunk [] 0, (u, [])).
Proof.
  apply (empty_schedule_provides_nothing ones_upstream (fun _ => 0%nat)
           empty_request_chunk 0 [30] [0] [0]).
  - vm_compute. reflexivity.
  - reflexivity.
Defined.

(** ** The exact schedule of a template of one entity *)

Lemma lex_lt_app (a b u v : list Z) : lex_lt a b -> lex_lt (a ++ u) (b ++ v).
Proof.
  revert b. induction a as [|x a IH]; intros [|y b]; cbn; try tauto.
  intros [H|[-> H]]; [by left|]. right. split; [done|]. by apply IH.
Qed.

Lemma lex_lt_snoc (a : list Z) (x y : Z) : lex_lt (a ++ [x]) (a ++ [y]) <-> x < y.
Proof.
  induction a as [|z a IH]; cbn.
  - split; [intros [H|[_ []]]; done|by left].
  - rewrite IH. split; [intros [H|[_ H]]; [lia|done]|intros H; by right].
Qed.

Lemma odometer_lt_cons_tail (x y : Z) (a b : list Z) :
  odometer_lt a b -> odometer_lt (x :: a) (y :: b).
Proof. unfold odometer_lt. cbn. apply lex_lt_app. Qed.

Lemma odometer_lt_cons_head (x y : Z) (a : list Z) :
  x < y -> odometer_lt (x :: a) (y :: a).
Proof. unfold odometer_lt. cbn. apply lex_lt_snoc. Qed.

Lemma ascending_app (l1 l2 : list (list Z)) :
  ascending l1 -> ascending l2 ->
  (forall a b, a ∈ l1 -> b ∈ l2 -> odometer_lt a b) ->
  ascending (l1 ++ l2).
Proof.
  induction l1 as [|a l1 IH]; intros H1 H2 H12; [done|].
  destruct H1 as [Ha H1]. cbn. split.
  - apply Forall_app. split; [done|].
    apply Forall_forall. intros b Hb. apply H12; [by left|done].
  - apply IH; [done..|]. intros a' b Ha' Hb. apply H12; [by right|done].
Qed.

Lemma ascending_fmap_cons (xs : list Z) (tl : list Z) :
  (forall i j x y, (i < j)%nat -> xs !! i = Some x -> xs !! j = Some y -> x < y) ->
  ascending ((fun x => x :: tl) <$> xs).
Proof.
  induction xs as [|x xs IH]; intros Hs; [done|]. cbn. split.
  - apply Forall_fmap, Forall_forall. intros y Hy. cbn.
    apply list_elem_of_lookup in Hy as [j Hj].
    apply odometer_lt_cons_head. apply (Hs 0%nat (S j)); [lia|done|done].
  - apply IH. intros i j a b Hij Ha Hb. apply (Hs (S i) (S j)); [lia|done|done].
Qed.

Lemma grid_axis_lookup (b s K : Z) (i : nat) (x : Z) :
  grid_axis b s K !! i = Some x <-> x = b + Z.of_nat i * s /\ Z.of_nat i < K.
Proof.
  unfold grid_axis. rewrite list_lookup_fmap. split.
  - intros H. destruct (seqZ 0 K !! i) as [k|] eqn:Hk; [|discriminate H].
    apply lookup_seqZ in Hk as [-> Hk]. cbn in H. inversion H. split; [f_equal; lia|lia].
  - intros [-> Hi]. rewrite (lookup_seqZ_lt 0 K i) by lia. cbn. f_equal.
Qed.

Lemma grid_axis_elem (b s K x : Z) :
  x ∈ grid_axis b s K <-> exists k, 0 <= k < K /\ x = b + k * s.
Proof.
  rewrite list_elem_of_lookup. split.
  - intros [i Hi]. apply grid_axis_lookup in Hi as [-> Hi]. exists (Z.of_nat i). lia.
  - intros (k & Hk & ->). exists (Z.to_nat k). apply grid_axis_lookup.
    rewrite Z2Nat.id by lia. lia.
Qed.

Lemma grid_elem (xs : list Z) (rest : list (list Z)) (p : list Z) :
  p ∈ grid (xs :: rest) <-> exists x tl, p = x :: tl /\ x ∈ xs /\ tl ∈ grid rest.
Proof.
  cbn [grid]. rewrite list_elem_of_bind. split.
  - intros (tl & Hp & Htl). apply list_elem_of_fmap in Hp as (x & -> & Hx). by exists x, tl.
  - intros (x & tl & -> & Hx & Htl). exists tl. split; [|done].
    apply list_elem_of_fmap. by exists x.
Qed.

Lemma grid_ascending (axes : list (list Z)) :
  Forall (fun xs => forall i j x y, (i < j)%nat -> xs !! i = Some x -> xs !! j = Some y -> x < y)
         axes ->
  ascending (grid axes).
Proof.
  induction axes as [|xs rest IH]; intros Hall; [cbn; by repeat constructor|].
  apply Forall_cons in Hall as [Hxs Hrest]. specialize (IH Hrest).
  cbn [grid]. induction (grid rest) as [|tl tls IHt]; [done|].
  cbn [mbind list_bind]. destruct IH as [Htl IH]. apply ascending_app.
  - by apply ascending_fmap_cons.
  - by apply IHt.
  - intros a c Ha Hc. apply list_elem_of_fmap in Ha as (x & -> & Hx).
    apply list_elem_of_bind in Hc as (tl' & Hc & Htl').
    apply list_elem_of_fmap in Hc as (y & -> & Hy).
    apply odometer_lt_cons_tail. rewrite Forall_forall in Htl. by apply Htl.
Qed.

Lemma grid_length (axes : list (list Z)) :
  length (grid axes) = foldr Nat.mul 1%nat (length <$> axes).
Proof.
  induction axes as [|xs rest IH]; [done|]. cbn [grid fmap list_fmap foldr].
  rewrite <- IH. clear IH. generalize (grid rest). intros tls.
  induction tls as [|tl tls IHt]; [cbn; lia|].
  cbn [mbind list_bind length]. rewrite length_app, length_fmap, IHt. lia.
Qed.

Lemma odometer_lt_asym (a b : list Z) : odometer_lt a b -> odometer_lt b a -> False.
Proof.
  intros H1 H2. apply (lex_lt_irrefl (rev a)). by apply (lex_lt_trans _ (rev b)).
Qed.

(** Two ascending lists with the same elements are the same list. *)
Lemma ascending_unique (l g : list (list Z)) :
  ascending l -> ascending g -> (forall x, x ∈ l <-> x ∈ g) -> l = g.
Proof.
  revert g. induction l as [|a l IH]; intros g Hl Hg Hiff.
  - destruct g as [|c g]; [done|]. exfalso.
    assert (H : c ∈ []) by (apply Hiff; by left). by apply elem_of_nil in H.
  - destruct g as [|c g].
    { exfalso. assert (H : a ∈ []) by (apply Hiff; by left). by apply elem_of_nil in H. }
    destruct Hl as [Hal Hl], Hg as [Hcg Hg].
    rewrite Forall_forall in Hal, Hcg.
    assert (a = c) as ->.
    { assert (Ha : a ∈ c :: g) by (apply Hiff; by left).
      assert (Hc : c ∈ a :: l) by (apply Hiff; by left).
      apply elem_of_cons in Ha as [|Ha]; [done|].
      apply elem_of_cons in Hc as [|Hc]; [done|].
      exfalso. apply (odometer_lt_asym a c); auto. }
    f_equal. apply IH; [done..|]. intros x. split; intros Hx.
    + assert (H : x ∈ c :: g) by (apply Hiff; by right).
      apply elem_of_cons in H as [->|H]; [|done].
      exfalso. by apply (lex_lt_irrefl (rev c)), Hal.
    + assert (H : x ∈ c :: l) by (apply Hiff; by right).
      apply elem_of_cons in H as [->|H]; [|done].
      exfalso. by apply (lex_lt_irrefl (rev c)), Hcg.
Qed.

Lemma ceil_div_lt (n s k : Z) : 0 < s -> (k < ceil_div n s <-> k * s < n).
Proof.
  intros Hs. unfold ceil_div. split.
  - intros Hk. assert (H := Z.mul_div_le (n + s - 1) s Hs).
    assert ((k + 1) * s <= (n + s - 1) / s * s) by (apply Z.mul_le_mono_nonneg_r; lia).
    lia.
  - intros Hk. assert (k + 1 <= (n + s - 1) / s); [|lia].
    apply Z.div_le_lower_bound; lia.
Qed.

Lemma placed_inj (self : Chunk) (D : nat) (x y : list Z) :
  chunk_spec_template self ≠ ∅ ->
  templated_wf D self ->
  length x = D -> length y = D ->
  placed self x = placed self y -> x = y.
Proof.
  intros Hne Hwf Hx Hy Heq.
  apply map_choose in Hne as (vt & t & Ht).
  destruct (templated_wf_lookup _ _ _ _ Hwf Ht) as ([Hto _] & _).
  assert (H : placed self x !! vt = placed self y !! vt) by by rewrite Heq.
  rewrite !(placed_templated self _ vt t Ht) in H. inversion H as [H'].
  apply (coord_add_inj (roi_offset t)); [lia..|done].
Qed.

Section Grid3.

Variable self : Chunk.
Variable vt : VolumeType.
Variables a0 a1 a2 n0 n1 n2 o0 o1 o2 s0 s1 s2 : Z.
Hypothesis Hdims : dims self = 3%nat.
Hypothesis Htmpl : chunk_spec_template self = {[ vt := mkRoi [o0; o1; o2] [s0; s1; s2] ]}.
Hypothesis Hreq : request self !! vt = Some (mkRoi [a0; a1; a2] [n0; n1; n2]).
Hypothesis Ho0 : 0 <= o0.
Hypothesis Ho1 : 0 <= o1.
Hypothesis Ho2 : 0 <= o2.
Hypothesis Hs0 : 0 < s0.
Hypothesis Hs1 : 0 < s1.
Hypothesis Hs2 : 0 < s2.
Hypothesis Hn0 : 0 < n0.
Hypothesis Hn1 : 0 < n1.
Hypothesis Hn2 : 0 < n2.

Lemma grid_step_3 (y : list Z) (cr : BatchSpec) (stride y' : list Z) :
  (exists j0 j1 j2 y0 y1 y2,
     y = [y0; y1; y2] /\
     on_axis a0 n0 o0 s0 j0 y0 /\ on_axis a1 n1 o1 s1 j1 y1 /\ on_axis a2 n2 o2 s2 j2 y2) ->
  walk_step self [s0; s1; s2] [a0 - o0; a1 - o1; a2 - o2]
    [a0 + n0 - s0 + s0; a1 + n1 - s1 + s1; a2 + n2 - s2 + s2] y
  = Return (cr, stride, y') ->
  np_all_lt y' [a0 + n0 - s0 + s0; a1 + n1 - s1 + s1; a2 + n2 - s2 + s2] = true ->
  exists j0 j1 j2 y0 y1 y2,
    y' = [y0; y1; y2] /\
    on_axis a0 n0 o0 s0 j0 y0 /\ on_axis a1 n1 o1 s1 j1 y1 /\ on_axis a2 n2 o2 s2 j2 y2.
Proof.
  intros (j0 & j1 & j2 & y0 & y1 & y2 & -> & H0 & H1 & H2) Hstep Hguard.
  destruct (single_step self 3 vt (mkRoi [o0; o1; o2] [s0; s1; s2])
              (mkRoi [a0; a1; a2] [n0; n1; n2]) (or_intror eq_refl) Hdims Htmpl Hreq
              (conj eq_refl eq_refl) (conj eq_refl eq_refl)
              [y0; y1; y2] cr stride y' eq_refl Hstep) as (Hcr & Hlen & Hodo & Hst).
  destruct stride as [|st0 [|st1 [|st2 [|]]]]; try discriminate Hlen.
  assert (Hst0 := Hst 0%nat ltac:(lia)).
  assert (Hst1 := Hst 1%nat ltac:(lia)).
  assert (Hst2 := Hst 2%nat ltac:(lia)). clear Hst.
  unfold spec_candidate in Hst0, Hst1, Hst2.
  rewrite (lookup_total_correct _ _ _ Hreq) in Hst0, Hst1, Hst2.
  cbn in Hst0, Hst1, Hst2.
  change (odometer 3 [a0 - o0; a1 - o1; a2 - o2]
            [a0 + n0 - s0 + s0; a1 + n1 - s1 + s1; a2 + n2 - s2 + s2]
            [st0; st1; st2] [y0; y1; y2] 0 3 = Return y') in Hodo.
  rewrite odometer_3 in Hodo. inversion Hodo as [Hy']. clear Hodo Hstep Hlen.
  destruct (axis_step a0 n0 o0 s0 j0 y0 Ho0 Hs0 H0) as (Hg0 & Hin0 & Hout0).
  destruct (axis_step a1 n1 o1 s1 j1 y1 Ho1 Hs1 H1) as (Hg1 & Hin1 & Hout1).
  destruct (axis_step a2 n2 o2 s2 j2 y2 Ho2 Hs2 H2) as (Hg2 & Hin2 & Hout2).
  rewrite <- Hst0 in Hin0, Hout0. rewrite <- Hst1 in Hin1, Hout1.
  rewrite <- Hst2 in Hin2, Hout2. clear Hst0 Hst1 Hst2.
  assert (Hz0 : on_axis a0 n0 o0 s0 0 (a0 - o0)) by (unfold on_axis; lia).
  assert (Hz1 : on_axis a1 n1 o1 s1 0 (a1 - o1)) by (unfold on_axis; lia).
  rewrite <- Hy' in Hguard. clear Hy'.
  destruct (decide ((j0 + 1) * s0 < n0)) as [L0|L0].
  - destruct (Hin0 L0) as (-> & Hon0 & Hlt0).
    rewrite decide_False by lia.
    by exists (j0 + 1), j1, j2, (y0 + s0), y1, y2.
  - assert (Hw0 : y0 + st0 >= a0 + n0 - s0 + s0) by (apply Hout0; lia).
    rewrite decide_True in Hguard |- * by done.
    destruct (decide ((j1 + 1) * s1 < n1)) as [L1|L1].
    + destruct (Hin1 L1) as (-> & Hon1 & Hlt1).
      rewrite decide_False by lia.
      by exists 0, (j1 + 1), j2, (a0 - o0), (y1 + s1), y2.
    + assert (Hw1 : y1 + st1 >= a1 + n1 - s1 + s1) by (apply Hout1; lia).
      rewrite decide_True in Hguard |- * by done.
      destruct (decide ((j2 + 1) * s2 < n2)) as [L2|L2].
      * destruct (Hin2 L2) as (-> & Hon2 & Hlt2).
        by exists 0, 0, (j2 + 1), (a0 - o0), (a1 - o1), (y2 + s2).
      * assert (Hw2 : y2 + st2 >= a2 + n2 - s2 + s2) by (apply Hout2; lia).
        exfalso. cbn in Hguard. rewrite !andb_true_iff, !Z.ltb_lt in Hguard. lia.
Qed.

End Grid3.

Section Grid1.

Variable self : Chunk.
Variable vt : VolumeType.
Variables a0 n0 o0 s0 : Z.
Hypothesis Hdims : dims self = 1%nat.
Hypothesis Htmpl : chunk_spec_template self = {[ vt := mkRoi [o0] [s0] ]}.
Hypothesis Hreq : request self !! vt = Some (mkRoi [a0] [n0]).
Hypothesis Ho0 : 0 <= o0.
Hypothesis Hs0 : 0 < s0.
Hypothesis Hn0 : 0 < n0.

Lemma grid_step_1 (y : list Z) (cr : BatchSpec) (stride y' : list Z) :
  (exists j0 y0, y = [y0] /\ on_axis a0 n0 o0 s0 j0 y0) ->
  walk_step self [s0] [a0 - o0] [a0 + n0 - s0 + s0] y = Return (cr, stride, y') ->
  np_all_lt y' [a0 + n0 - s0 + s0] = true ->
  exists j0 y0, y' = [y0] /\ on_axis a0 n0 o0 s0 j0 y0.
Proof.
  intros (j0 & y0 & -> & H0) Hstep Hguard.
  destruct (single_step self 1 vt (mkRoi [o0] [s0]) (mkRoi [a0] [n0])
              (or_introl eq_refl) Hdims Htmpl Hreq
              (conj eq_refl eq_refl) (conj eq_refl eq_refl)
              [y0] cr stride y' eq_refl Hstep) as (Hcr & Hlen & Hodo & Hst).
  destruct stride as [|st0 [|st1 [|st2 [|]]]]; try discriminate Hlen.
  assert (Hst0 := Hst 0%nat ltac:(lia)). clear Hst.
  unfold spec_candidate in Hst0.
  rewrite (lookup_total_correct _ _ _ Hreq) in Hst0. cbn in Hst0.
  change (odometer 1 [a0 - o0] [a0 + n0 - s0 + s0] [st0; st1; st2] [y0] 0 1
          = Return y') in Hodo.
  rewrite odometer_1 in Hodo. inversion Hodo as [Hy']. clear Hodo Hstep Hlen.
  destruct (axis_step a0 n0 o0 s0 j0 y0 Ho0 Hs0 H0) as (Hg0 & Hin0 & Hout0).
  rewrite <- Hst0 in Hin0, Hout0. clear Hst0.
  rewrite <- Hy' in Hguard. clear Hy'.
  destruct (decide ((j0 + 1) * s0 < n0)) as [L0|L0].
  - destruct (Hin0 L0) as (-> & Hon0 & Hlt0). by exists (j0 + 1), (y0 + s0).
  - assert (Hw0 : y0 + st0 >= a0 + n0 - s0 + s0) by (apply Hout0; lia).
    exfalso. cbn in Hguard. rewrite !andb_true_iff, !Z.ltb_lt in Hguard. lia.
Qed.

End Grid1.

Lemma grid_axis_sorted (b s K : Z) :
  0 < s ->
  forall i j x y, (i < j)%nat ->
    grid_axis b s K !! i = Some x -> grid_axis b s K !! j = Some y -> x < y.
Proof.
  intros Hs i j x y Hij Hx Hy.
  apply grid_axis_lookup in Hx as [-> _]. apply grid_axis_lookup in Hy as [-> _].
  assert (Z.of_nat i * s < Z.of_nat j * s) by (apply Z.mul_lt_mono_pos_r; lia). lia.
Qed.

Lemma on_axis_grid (a n o s y : Z) :
  0 < s ->
  (exists j, on_axis a n o s j y) <-> y ∈ grid_axis (a - o) s (ceil_div n s).
Proof.
  intros Hs. rewrite grid_axis_elem. unfold on_axis. split.
  - intros (j & Hj & Hjn & ->). exists j. split; [|done].
    split; [done|]. by apply ceil_div_lt.
  - intros (k & [Hk Hkn] & ->). exists k. split; [done|]. split; [|done].
    by apply ceil_div_lt.
Qed.

(** The walk of a template of one entity on three axes enqueues the grid. *)
Lemma walk_grid_3 (self : Chunk) (vt : VolumeType)
    (a0 a1 a2 n0 n1 n2 o0 o1 o2 s0 s1 s2 : Z) (fuel : nat) (queue : list BatchSpec) :
  dims self = 3%nat ->
  chunk_spec_template self = {[ vt := mkRoi [o0; o1; o2] [s0; s1; s2] ]} ->
  request self !! vt = Some (mkRoi [a0; a1; a2] [n0; n1; n2]) ->
  0 <= o0 -> 0 <= o1 -> 0 <= o2 -> 0 < s0 -> 0 < s1 -> 0 < s2 ->
  0 < n0 -> 0 < n1 -> 0 < n2 ->
  walk fuel self [s0; s1; s2] [a0 - o0; a1 - o1; a2 - o2]
    [a0 + n0 - s0 + s0; a1 + n1 - s1 + s1; a2 + n2 - s2 + s2]
    [a0 - o0; a1 - o1; a2 - o2] [] = Return queue ->
  queue = placed self <$> grid [grid_axis (a0 - o0) s0 (ceil_div n0 s0);
                                grid_axis (a1 - o1) s1 (ceil_div n1 s1);
                                grid_axis (a2 - o2) s2 (ceil_div n2 s2)].
Proof.
  intros Hdims Htmpl Hreq Ho0 Ho1 Ho2 Hs0 Hs1 Hs2 Hn0 Hn1 Hn2 Hwalk.
  pose (t := mkRoi [o0; o1; o2] [s0; s1; s2]).
  pose (r := mkRoi [a0; a1; a2] [n0; n1; n2]).
  assert (Ht : roi_wf 3 t) by (split; reflexivity).
  assert (Hr : roi_wf 3 r) by (split; reflexivity).
  assert (Hne := single_ne self vt t Htmpl).
  assert (Hwf := single_wf self 3 vt t r Htmpl Hreq Ht Hr).
  assert (Hwb := single_walk_bounds self 3 vt t r (or_intror eq_refl) Hdims Htmpl Hreq Ht Hr).
  assert (Hpos : forall d, (d < 3)%nat -> 0 < [s0; s1; s2] !!! d).
  { intros [|[|[|d]]] Hd; cbn; lia. }
  destruct (walk_trace self [s0; s1; s2] [a0 - o0; a1 - o1; a2 - o2]
              [a0 + n0 - s0 + s0; a1 + n1 - s1 + s1; a2 + n2 - s2 + s2]
              (fun y => (length y = 3%nat /\ Forall2 Z.le [a0 - o0; a1 - o1; a2 - o2] y) /\
                        (np_all_lt y [a0 + n0 - s0 + s0; a1 + n1 - s1 + s1; a2 + n2 - s2 + s2]
                         = true ->
                         exists j0 j1 j2 y0 y1 y2,
                           y = [y0; y1; y2] /\ on_axis a0 n0 o0 s0 j0 y0 /\
                           on_axis a1 n1 o1 s1 j1 y1 /\ on_axis a2 n2 o2 s2 j2 y2)))
    with (fuel := fuel) (offset := [a0 - o0; a1 - o1; a2 - o2]) (queue := @nil BatchSpec)
         (q := queue) as (offs & -> & Hall & _ & Hasc & _).
  { intros offset cr stride offset' [Hlb Hgrid] Hc Hs.
    destruct (walk_step_advances self 3 _ _ _ (or_intror eq_refl) Hdims Hne Hwf Hwb Hpos
                offset cr stride offset' Hlb Hc Hs) as (Hcr & Hlb' & Hlt).
    split; [done|]. split; [|done]. split; [done|]. intros Hc'.
    by apply (grid_step_3 self vt a0 a1 a2 n0 n1 n2 o0 o1 o2 s0 s1 s2 Hdims Htmpl Hreq
                Ho0 Ho1 Ho2 Hs0 Hs1 Hs2 Hn0 Hn1 offset cr stride offset' (Hgrid Hc) Hs). }
  { split; [split; [done|repeat constructor; lia]|]. intros _.
    exists 0, 0, 0, (a0 - o0), (a1 - o1), (a2 - o2). unfold on_axis.
    split; [done|]. repeat split; lia. }
  { exact Hwalk. }
  cbn [app]. f_equal. rewrite Forall_forall in Hall.
  apply ascending_unique; [done| |].
  { apply grid_ascending. repeat constructor; by apply grid_axis_sorted. }
  intros x. rewrite !grid_elem. split.
  - intros Hx. destruct (Hall x Hx) as [[_ Hgrid] Hc].
    destruct (Hgrid Hc) as (j0 & j1 & j2 & y0 & y1 & y2 & -> & H0 & H1 & H2).
    exists y0, [y1; y2]. split; [done|].
    split; [apply on_axis_grid; [done|by exists j0]|]. apply grid_elem.
    exists y1, [y2]. split; [done|].
    split; [apply on_axis_grid; [done|by exists j1]|]. apply grid_elem.
    exists y2, []. split; [done|].
    split; [apply on_axis_grid; [done|by exists j2]|]. by left.
  - intros (y0 & tl0 & -> & H0 & Htl0).
    apply grid_elem in Htl0 as (y1 & tl1 & -> & H1 & Htl1).
    apply grid_elem in Htl1 as (y2 & tl2 & -> & H2 & Htl2).
    apply list_elem_of_singleton in Htl2 as ->.
    apply on_axis_grid in H0 as (k0 & Hk0 & Hkn0 & ->); [|done].
    apply on_axis_grid in H1 as (k1 & Hk1 & Hkn1 & ->); [|done].
    apply on_axis_grid in H2 as (k2 & Hk2 & Hkn2 & ->); [|done].
    assert (Hin := walk_covers_3 self vt a0 a1 a2 n0 n1 n2 o0 o1 o2 s0 s1 s2 k0 k1 k2
                     Hdims Htmpl Hreq Ho0 Ho1 Ho2 Hs0 Hs1 Hs2
                     (conj Hk0 Hkn0) (conj Hk1 Hkn1) (conj Hk2 Hkn2) fuel _ Hwalk).
    apply list_elem_of_fmap in Hin as (o & Heq & Ho).
    destruct (Hall o Ho) as [[[Hlo _] _] _].
    assert (Hxo := placed_inj self 3 [a0 - o0 + k0 * s0; a1 - o1 + k1 * s1; a2 - o2 + k2 * s2]
                     o Hne Hwf eq_refl Hlo Heq).
    by rewrite Hxo.
Qed.

(** The same on one axis. *)
Lemma walk_grid_1 (self : Chunk) (vt : VolumeType)
    (a0 n0 o0 s0 : Z) (fuel : nat) (queue : list BatchSpec) :
  dims self = 1%nat ->
  chunk_spec_template self = {[ vt := mkRoi [o0] [s0] ]} ->
  request self !! vt = Some (mkRoi [a0] [n0]) ->
  0 <= o0 -> 0 < s0 -> 0 < n0 ->
  walk fuel self [s0] [a0 - o0] [a0 + n0 - s0 + s0] [a0 - o0] [] = Return queue ->
  queue = placed self <$> grid [grid_axis (a0 - o0) s0 (ceil_div n0 s0)].
Proof.
  intros Hdims Htmpl Hreq Ho0 Hs0 Hn0 Hwalk.
  pose (t := mkRoi [o0] [s0]).
  pose (r := mkRoi [a0] [n0]).
  assert (Ht : roi_wf 1 t) by (split; reflexivity).
  assert (Hr : roi_wf 1 r) by (split; reflexivity).
  assert (Hne := single_ne self vt t Htmpl).
  assert (Hwf := single_wf self 1 vt t r Htmpl Hreq Ht Hr).
  assert (Hwb := single_walk_bounds self 1 vt t r (or_introl eq_refl) Hdims Htmpl Hreq Ht Hr).
  assert (Hpos : forall d, (d < 1)%nat -> 0 < [s0] !!! d).
  { intros [|d] Hd; cbn; lia. }
  destruct (walk_trace self [s0] [a0 - o0] [a0 + n0 - s0 + s0]
              (fun y => (length y = 1%nat /\ Forall2 Z.le [a0 - o0] y) /\
                        (np_all_lt y [a0 + n0 - s0 + s0] = true ->
                         exists j0 y0, y = [y0] /\ on_axis a0 n0 o0 s0 j0 y0)))
    with (fuel := fuel) (offset := [a0 - o0]) (queue := @nil BatchSpec)
         (q := queue) as (offs & -> & Hall & _ & Hasc & _).
  { intros offset cr stride offset' [Hlb Hgrid] Hc Hs.
    destruct (walk_step_advances self 1 _ _ _ (or_introl eq_refl) Hdims Hne Hwf Hwb Hpos
                offset cr stride offset' Hlb Hc Hs) as (Hcr & Hlb' & Hlt).
    split; [done|]. split; [|done]. split; [done|]. intros Hc'.
    by apply (grid_step_1 self vt a0 n0 o0 s0 Hdims Htmpl Hreq Ho0 Hs0
                offset cr stride offset' (Hgrid Hc) Hs). }
  { split; [split; [done|repeat constructor; lia]|]. intros _.
    exists 0, (a0 - o0). unfold on_axis. split; [done|]. repeat split; lia. }
  { exact Hwalk. }
  cbn [app]. f_equal. rewrite Forall_forall in Hall.
  apply ascending_unique; [done| |].
  { apply grid_ascending. repeat constructor; by apply grid_axis_sorted. }
  intros x. rewrite !grid_elem. split.
  - intros Hx. destruct (Hall x Hx) as [[_ Hgrid] Hc].
    destruct (Hgrid Hc) as (j0 & y0 & -> & H0).
    exists y0, []. split; [done|].
    split; [apply on_axis_grid; [done|by exists j0]|]. by left.
  - intros (y0 & tl0 & -> & H0 & Htl0).
    apply list_elem_of_singleton in Htl0 as ->.
    apply on_axis_grid in H0 as (k0 & Hk0 & Hkn0 & ->); [|done].
    assert (Hin := walk_covers_1 self vt a0 n0 o0 s0 k0
                     Hdims Htmpl Hreq Ho0 Hs0 (conj Hk0 Hkn0) fuel _ Hwalk).
    apply list_elem_of_fmap in Hin as (o & Heq & Ho).
    destruct (Hall o Ho) as [[[Hlo _] _] _].
    assert (Hxo := placed_inj self 1 [a0 - o0 + k0 * s0] o Hne Hwf eq_refl Hlo Heq).
    by rewrite Hxo.
Qed.

Lemma grid_axis_length (b s n : Z) :
  0 < s -> 0 < n -> Z.of_nat (length (grid_axis b s (ceil_div n s))) = ceil_div n s.
Proof.
  intros Hs Hn. unfold grid_axis. rewrite length_fmap, length_seqZ.
  apply Z2Nat.id. unfold ceil_div. apply Z.div_pos; lia.
Qed.

(** X12.  The schedule of a template of one entity, in closed form: for a
    template ROI of non-negative offset and positive shape and a request
    ROI of positive shape (in dimension 1 or 3), [__prepare_requests]
    returns with the queue that places the template on a regular grid -
    from the beginning of the request ROI minus the template offset, in
    steps of the template shape, the first axis running fastest - and the
    number of sub-requests is the product over the axes of the request
    shape divided by the template shape, rounded up. *)
Theorem single_entity_schedule (self : Chunk) (D : nat) (vt : VolumeType) (t r : Roi) :
  (D = 1 \/ D = 3)%nat ->
  dims self = D ->
  chunk_spec_template self = {[ vt := t ]} ->
  request self !! vt = Some r ->
  roi_wf D t -> roi_wf D r ->
  Forall (Z.le 0) (roi_offset t) ->
  Forall (Z.lt 0) (roi_shape t) ->
  Forall (Z.lt 0) (roi_shape r) ->
  (exists fuel,
     prepare_requests fuel self
     = Return (set_requests self (placed self <$> chunk_grid t r)
                            (length (chunk_grid t r)))) /\
  Z.of_nat (length (chunk_grid t r))
  = foldr Z.mul 1 (zip_with ceil_div (get_shape r) (get_shape t)).
Proof.
  intros HD Hdims Htmpl Hreq Ht Hr Hoff Hshape Hrshape.
  assert (Hpos : shapes_positive self).
  { unfold shapes_positive. rewrite Htmpl. by apply map_Forall_singleton. }
  destruct (prepare_requests_terminates self D HD Hdims
              (single_ne self vt t Htmpl) (single_wf self D vt t r Htmpl Hreq Ht Hr) Hpos)
    as (fuel & queue & Hprep).
  assert (Hwalk : walk fuel self (get_shape t) (coord_sub (get_begin r) (get_begin t))
                    (zip_with Z.add (coord_sub (get_end r) (get_shape t)) (get_shape t))
                    (coord_sub (get_begin r) (get_begin t)) [] = Return queue).
  { revert Hprep. unfold prepare_requests.
    rewrite (single_walk_bounds self D vt t r HD Hdims Htmpl Hreq Ht Hr).
    obind. cbn [fst snd].
    destruct (walk fuel self _ _ _ _ []) as [queue'| | |]; obind; try discriminate.
    unfold set_requests. intros H. injection H as H _. by rewrite H. }
  assert (Hq : queue = placed self <$> chunk_grid t r /\
               Z.of_nat (length (chunk_grid t r))
               = foldr Z.mul 1 (zip_with ceil_div (get_shape r) (get_shape t))).
  { destruct t as [to ts], r as [ro rs]. destruct Ht as [Hto Hts], Hr as [Hro Hrs].
    cbn [roi_offset roi_shape] in *.
    destruct HD as [HD1|HD3]; subst D.
    - destruct to as [|o0 [|]]; try discriminate Hto.
      destruct ts as [|s0 [|]]; try discriminate Hts.
      destruct ro as [|a0 [|]]; try discriminate Hro.
      destruct rs as [|n0 [|]]; try discriminate Hrs.
      apply Forall_cons in Hoff as [Ho0 _]. apply Forall_cons in Hshape as [Hs0 _].
      apply Forall_cons in Hrshape as [Hn0 _]. split.
      + by apply (walk_grid_1 self vt a0 n0 o0 s0 fuel queue).
      + unfold chunk_grid. cbn [zip_with zip coord_sub get_begin get_shape
                                roi_offset roi_shape fst snd foldr].
        rewrite grid_length. cbn [fmap list_fmap foldr].
        rewrite Nat.mul_1_r, Z.mul_1_r. by apply grid_axis_length.
    - destruct to as [|o0 [|o1 [|o2 [|]]]]; try discriminate Hto.
      destruct ts as [|s0 [|s1 [|s2 [|]]]]; try discriminate Hts.
      destruct ro as [|a0 [|a1 [|a2 [|]]]]; try discriminate Hro.
      destruct rs as [|n0 [|n1 [|n2 [|]]]]; try discriminate Hrs.
      apply Forall_cons in Hoff as [Ho0 Hoff]. apply Forall_cons in Hoff as [Ho1 Hoff].
      apply Forall_cons in Hoff as [Ho2 _].
      apply Forall_cons in Hshape as [Hs0 Hshape]. apply Forall_cons in Hshape as [Hs1 Hshape].
      apply Forall_cons in Hshape as [Hs2 _].
      apply Forall_cons in Hrshape as [Hn0 Hrshape].
      apply Forall_cons in Hrshape as [Hn1 Hrshape].
      apply Forall_cons in Hrshape as [Hn2 _]. split.
      + by apply (walk_grid_3 self vt a0 a1 a2 n0 n1 n2 o0 o1 o2 s0 s1 s2 fuel queue).
      + unfold chunk_grid. cbn [zip_with zip coord_sub get_begin get_shape
                                roi_offset roi_shape fst snd foldr].
        rewrite grid_length. cbn [fmap list_fmap foldr].
        rewrite Nat.mul_1_r, Z.mul_1_r, !Nat2Z.inj_mul.
        by rewrite !grid_axis_length. }
  destruct Hq as [Hq Hcount]. split; [|done].
  exists fuel. rewrite Hprep, Hq. by rewrite length_fmap.
Qed.

Lemma single_entity_schedule_witness :
  (exists fuel,
     prepare_requests fuel scenario_chunk
     = Return (set_requests scenario_chunk
                 (placed scenario_chunk <$> chunk_grid (roi_1d 0 30) (roi_1d 0 100))
                 (length (chunk_grid (roi_1d 0 30) (roi_1d 0 100))))) /\
  Z.of_nat (length (chunk_grid (roi_1d 0 30) (roi_1d 0 100)))
  = foldr Z.mul 1 (zip_with ceil_div (get_shape (roi_1d 0 100)) (get_shape (roi_1d 0 30))).
Proof.
  apply (single_entity_schedule scenario_chunk 1 RAW (roi_1d 0 30) (roi_1d 0 100)).
  - left. reflexivity.
  - reflexivity.
  - reflexivity.
  - vm_compute. reflexivity.
  - split; reflexivity.
  - split; reflexivity.
  - repeat constructor. cbn. lia.
  - repeat constructor.
  - repeat constructor.
Defined.

(** * The node [AddGtBinaryMapOfPoints] *)

Lemma dict_delitem_Return {K V} `{Countable K} (d : gmap K V) (k : K) (v : V) :
  d !! k = Some v -> dict_delitem d k = Return (delete k d).
Proof. unfold dict_delitem. by intros ->. Qed.

Lemma dict_getitem_Return {K V} `{Countable K} (d : gmap K V) (k : K) (v : V) :
  d !! k = Some v -> dict_getitem d k = Return v.
Proof. unfold dict_getitem. by intros ->. Qed.

(** One pass of the loop of [prepare]: it returns only when the request
    holds the points type and the volume type, and then it leaves the dict
    of the node alone. *)
Lemma bm_prepare_entry_Return (p2v p2v' : gmap PointsType VolumeType)
    (request request' : ProviderSpec) (pt : PointsType) (vt : VolumeType) :
  AddGtBinaryMapOfPoints.prepare_entry (p2v, request) (pt, vt) = Return (p2v', request') ->
  p2v' = p2v /\
  request' = mkSpec (delete vt (spec_volumes request)) (spec_points request) /\
  exists points_roi volume_roi,
    spec_points request !! pt = Some points_roi /\
    spec_volumes request !! vt = Some volume_roi /\
    roi_contains_roi points_roi volume_roi = true.
Proof.
  unfold AddGtBinaryMapOfPoints.prepare_entry, dict_in, dict_getitem. cbn [fst snd].
  destruct (spec_volumes request !! vt) as [volume_roi|] eqn:Hv;
    destruct (spec_points request !! pt) as [points_roi|] eqn:Hp; obind.
  - destruct (roi_contains_roi points_roi volume_roi) eqn:Hc; [|discriminate].
    rewrite (dict_delitem_Return _ _ _ Hv). obind.
    intros H. inversion H; subst. split; [done|]. split; [done|]. eauto.
  - destruct (dict_delitem p2v pt); obind; discriminate.
  - destruct (dict_delitem p2v pt); obind; discriminate.
  - destruct (dict_delitem p2v pt) as [p2v1| | |]; obind; try discriminate.
    destruct (dict_delitem p2v1 pt); obind; discriminate.
Qed.

Lemma bm_prepare_loop (pts : gmap PointsType Roi) (l : list (PointsType * VolumeType)) :
  forall p2v vols st',
    foldM AddGtBinaryMapOfPoints.prepare_entry (p2v, mkSpec vols pts) l = Return st' ->
    st'.1 = p2v /\
    spec_points st'.2 = pts /\
    (forall pt vt, (pt, vt) ∈ l ->
       exists points_roi volume_roi,
         pts !! pt = Some points_roi /\ vols !! vt = Some volume_roi /\
         roi_contains_roi points_roi volume_roi = true) /\
    forall vt, spec_volumes st'.2 !! vt
               = if decide (vt ∈ l.*2) then None else vols !! vt.
Proof.
  induction l as [|[pt0 vt0] l IH]; intros p2v vols st' H.
  - cbn in H. inversion H; subst. cbn. split; [done|]. split; [done|]. split.
    + intros pt vt Hin. by apply elem_of_nil in Hin.
    + intros vt. rewrite decide_False; [done|]. apply not_elem_of_nil.
  - cbn [foldM] in H.
    destruct (AddGtBinaryMapOfPoints.prepare_entry (p2v, mkSpec vols pts) (pt0, vt0))
      as [[p2v1 request1]| | |] eqn:Hentry; try discriminate H.
    revert H. obind. intros H.
    apply bm_prepare_entry_Return in Hentry
      as (-> & -> & proi & vroi & Hp & Hv & Hc). cbn [spec_volumes spec_points] in *.
    destruct (IH _ _ _ H) as (Hp2v & Hpts & Hall & Hvols).
    split; [done|]. split; [done|]. split.
    + intros pt vt Hin. apply elem_of_cons in Hin as [Heq|Hin].
      * inversion Heq; subst. by exists proi, vroi.
      * destruct (Hall pt vt Hin) as (proi' & vroi' & Hp' & Hv' & Hc').
        apply lookup_delete_Some in Hv' as [_ Hv']. by exists proi', vroi'.
    + intros vt. rewrite Hvols. cbn [fmap list_fmap snd].
      destruct (decide (vt = vt0)) as [->|Hne].
      * rewrite (decide_True (P := vt0 ∈ vt0 :: l.*2)) by by left.
        destruct (decide _); [done|]. apply lookup_delete_eq.
      * rewrite lookup_delete_ne by done.
        destruct (decide (vt ∈ l.*2)) as [Hin|Hnin].
        -- rewrite decide_True; [done|]. by right.
        -- rewrite decide_False; [done|]. by apply not_elem_of_cons.
Qed.

(** X13.  A [prepare] of [AddGtBinaryMapOfPoints] that returns has found
    every points type of the node and every volume type of the node in the
    request, the ROI of the points containing the ROI of the volume; it
    leaves the dict of the node as it was, removes the volume types of the
    node from the request and nothing else, and sets [skip_next] only when
    the dict of the node is empty.  So the branches "do nothing" of lines
    49-55, which delete from the dict of the node, never lead to a
    return. *)
Theorem bm_prepare_returns_unchanged (self self' : AddGtBinaryMapOfPoints.node)
    (request request' : ProviderSpec) :
  AddGtBinaryMapOfPoints.prepare self request = Return (self', request') ->
  AddGtBinaryMapOfPoints.pointstype_to_volumetypes self'
  = AddGtBinaryMapOfPoints.pointstype_to_volumetypes self /\
  (forall pt vt,
     AddGtBinaryMapOfPoints.pointstype_to_volumetypes self !! pt = Some vt ->
     exists points_roi volume_roi,
       spec_points request !! pt = Some points_roi /\
       spec_volumes request !! vt = Some volume_roi /\
       roi_contains_roi points_roi volume_roi = true) /\
  spec_points request' = spec_points request /\
  (forall pt vt,
     AddGtBinaryMapOfPoints.pointstype_to_volumetypes self !! pt = Some vt ->
     spec_volumes request' !! vt = None) /\
  (forall vt,
     (forall pt, AddGtBinaryMapOfPoints.pointstype_to_volumetypes self !! pt <> Some vt) ->
     spec_volumes request' !! vt = spec_volumes request !! vt) /\
  AddGtBinaryMapOfPoints.skip_next self'
  = (if bool_decide (AddGtBinaryMapOfPoints.pointstype_to_volumetypes self = ∅)
     then true else AddGtBinaryMapOfPoints.skip_next self).
Proof.
  unfold AddGtBinaryMapOfPoints.prepare. destruct request as [vols pts].
  destruct (foldM _ _ _) as [st| | |] eqn:Hloop; obind; try discriminate.
  intros H. inversion H; subst self' request'. clear H.
  cbn [AddGtBinaryMapOfPoints.pointstype_to_volumetypes AddGtBinaryMapOfPoints.skip_next
       spec_volumes spec_points].
  destruct (bm_prepare_loop pts _ _ _ _ Hloop) as (Hp2v & Hpts & Hall & Hvols).
  split; [done|]. split; [|split; [done|split; [|split]]].
  - intros pt vt Hin. apply Hall. by apply elem_of_map_to_list.
  - intros pt vt Hin. rewrite Hvols, decide_True; [done|].
    apply list_elem_of_fmap. exists (pt, vt). split; [done|]. by apply elem_of_map_to_list.
  - intros vt Hnone. rewrite Hvols, decide_False; [done|].
    intros Hin. apply list_elem_of_fmap in Hin as ([pt vt'] & -> & Hin).
    apply elem_of_map_to_list in Hin. by apply (Hnone pt).
  - rewrite Hp2v. destruct (decide (AddGtBinaryMapOfPoints.pointstype_to_volumetypes self = ∅))
      as [He|Hne].
    + rewrite He, map_size_empty. by rewrite !bool_decide_eq_true_2.
    + rewrite !bool_decide_eq_false_2; [done|done|]. by rewrite map_size_empty_iff.
Qed.

Lemma bm_prepare_entry_KeyError (p2v : gmap PointsType VolumeType)
    (request : ProviderSpec) (pt : PointsType) (vt : VolumeType) :
  spec_volumes request !! vt = None \/ spec_points request !! pt = None ->
  AddGtBinaryMapOfPoints.prepare_entry (p2v, request) (pt, vt) = Raise KeyError.
Proof.
  unfold AddGtBinaryMapOfPoints.prepare_entry, dict_in, dict_getitem, dict_delitem.
  cbn [fst snd]. intros Hmiss.
  destruct (spec_volumes request !! vt) as [volume_roi|] eqn:Hv;
    destruct (spec_points request !! pt) as [points_roi|] eqn:Hp; obind.
  - by destruct Hmiss.
  - by destruct (p2v !! pt).
  - by destruct (p2v !! pt).
  - destruct (p2v !! pt); obind; [|done]. by rewrite lookup_delete_eq.
Qed.

Lemma bm_prepare_loop_KeyError (vols0 : gmap VolumeType Roi) (pts : gmap PointsType Roi)
    (l : list (PointsType * VolumeType)) :
  (forall pt vt points_roi volume_roi,
     (pt, vt) ∈ l -> pts !! pt = Some points_roi -> vols0 !! vt = Some volume_roi ->
     roi_contains_roi points_roi volume_roi = true) ->
  forall p2v vols,
    (forall vt r, vols !! vt = Some r -> vols0 !! vt = Some r) ->
    (exists pt vt, (pt, vt) ∈ l /\ (vols0 !! vt = None \/ pts !! pt = None)) ->
    foldM AddGtBinaryMapOfPoints.prepare_entry (p2v, mkSpec vols pts) l = Raise KeyError.
Proof.
  induction l as [|[pt0 vt0] l IH]; intros Hcont p2v vols Hsub (pt & vt & Hin & Hmiss).
  { by apply elem_of_nil in Hin. }
  cbn [foldM].
  destruct (vols !! vt0) as [vroi|] eqn:Hv; [destruct (pts !! pt0) as [proi|] eqn:Hp|];
    [|rewrite bm_prepare_entry_KeyError by (by right); done
     |rewrite bm_prepare_entry_KeyError by (by left); done].
  assert (Hc : roi_contains_roi proi vroi = true).
  { apply (Hcont pt0 vt0); [by left|done|by apply Hsub]. }
  assert (Hentry : AddGtBinaryMapOfPoints.prepare_entry (p2v, mkSpec vols pts) (pt0, vt0)
                   = Return (p2v, mkSpec (delete vt0 vols) pts)).
  { unfold AddGtBinaryMapOfPoints.prepare_entry, dict_in, dict_getitem, dict_delitem.
    cbn [fst snd spec_volumes spec_points]. rewrite Hv, Hp. obind. by rewrite Hc. }
  rewrite Hentry. obind. apply IH.
  - intros pt' vt' proi' vroi' Hin'. apply Hcont. by right.
  - intros vt' r Hr. apply lookup_delete_Some in Hr as [_ Hr]. by apply Hsub.
  - apply elem_of_cons in Hin as [Heq|Hin]; [|by exists pt, vt].
    inversion Heq; subst pt0 vt0. exfalso.
    destruct Hmiss as [Hm|Hm]; [|congruence].
    specialize (Hsub vt vroi Hv). congruence.
Qed.

(** X14.  [prepare] of [AddGtBinaryMapOfPoints] does not "do nothing" for a
    binary map that is not requested: when the request lacks a volume type
    of the node, or the points type it is made from, [prepare] raises
    [KeyError] (the ROIs of the pairs that the request does hold being
    contained as line 57 asserts, so that no assertion fails first). *)
Theorem bm_prepare_missing_raises (self : AddGtBinaryMapOfPoints.node)
    (request : ProviderSpec) (pt : PointsType) (vt : VolumeType) :
  AddGtBinaryMapOfPoints.pointstype_to_volumetypes self !! pt = Some vt ->
  spec_volumes request !! vt = None \/ spec_points request !! pt = None ->
  (forall pt' vt' points_roi volume_roi,
     AddGtBinaryMapOfPoints.pointstype_to_volumetypes self !! pt' = Some vt' ->
     spec_points request !! pt' = Some points_roi ->
     spec_volumes request !! vt' = Some volume_roi ->
     roi_contains_roi points_roi volume_roi = true) ->
  AddGtBinaryMapOfPoints.prepare self request = Raise KeyError.
Proof.
  intros Hin Hmiss Hcont. unfold AddGtBinaryMapOfPoints.prepare.
  destruct request as [vols pts]. cbn [spec_volumes spec_points] in *.
  rewrite (bm_prepare_loop_KeyError vols pts); [done| |done|].
  - intros pt' vt' proi vroi Hin'. apply Hcont. by apply elem_of_map_to_list.
  - exists pt, vt. split; [by apply elem_of_map_to_list|done].
Qed.

(** ** [setup] *)

Lemma bm_setup_entry_eq (vols : gmap VolumeType Roi) (pts : gmap PointsType Roi)
    (pt : PointsType) (vt : VolumeType) :
  AddGtBinaryMapOfPoints.setup_entry (mkSpec vols pts) (pt, vt)
  = match pts !! pt with
    | Some roi => Return (mkSpec (<[vt := roi]> vols) pts)
    | None => Raise AssertionError
    end.
Proof.
  unfold AddGtBinaryMapOfPoints.setup_entry, dict_in, dict_getitem.
  cbn [fst snd spec_points spec_volumes]. by destruct (pts !! pt).
Qed.

Lemma bm_setup_loop (pts : gmap PointsType Roi) (l : list (PointsType * VolumeType)) :
  forall vols,
    match foldM AddGtBinaryMapOfPoints.setup_entry (mkSpec vols pts) l with
    | Return spec =>
        (forall pt vt, (pt, vt) ∈ l -> is_Some (pts !! pt)) /\
        spec_points spec = pts /\
        forall vt,
          (vt ∉ l.*2 -> spec_volumes spec !! vt = vols !! vt) /\
          (vt ∈ l.*2 ->
           exists pt roi, (pt, vt) ∈ l /\ pts !! pt = Some roi /\
                          spec_volumes spec !! vt = Some roi)
    | Raise e => e = AssertionError /\ exists pt vt, (pt, vt) ∈ l /\ pts !! pt = None
    | _ => False
    end.
Proof.
  induction l as [|[pt0 vt0] l IH]; intros vols.
  - cbn. split; [|split; [done|]].
    + intros pt vt Hin. by apply elem_of_nil in Hin.
    + intros vt. split; [done|]. intros Hin. by apply elem_of_nil in Hin.
  - cbn [foldM]. rewrite bm_setup_entry_eq.
    destruct (pts !! pt0) as [roi0|] eqn:Hp; obind; last first.
    { split; [done|]. exists pt0, vt0. split; [by left|done]. }
    specialize (IH (<[vt0 := roi0]> vols)).
    destruct (foldM _ _ l) as [spec| | |]; [| |done..].
    + destruct IH as (Hall & Hpts & Hvols). split; [|split; [done|]].
      * intros pt vt Hin. apply elem_of_cons in Hin as [Heq|Hin]; [|by apply (Hall pt vt)].
        inversion Heq; subst. by eexists.
      * intros vt. destruct (Hvols vt) as [Hout Hin]. cbn [fmap list_fmap snd]. split.
        -- intros Hnot. apply not_elem_of_cons in Hnot as [Hne Hnot].
           rewrite (Hout Hnot). by apply lookup_insert_ne.
        -- intros Hvt. destruct (decide (vt ∈ l.*2)) as [Hl|Hl].
           ++ destruct (Hin Hl) as (pt & roi & Hi & Hr & Hs).
              exists pt, roi. split; [by right|done].
           ++ apply elem_of_cons in Hvt as [->|Hvt]; [|done].
              exists pt0, roi0. split; [by left|]. split; [done|].
              rewrite (Hout Hl). apply lookup_insert_eq.
    + destruct IH as (-> & pt & vt & Hin & Hnone). split; [done|].
      exists pt, vt. split; [by right|done].
Qed.

(** X15.  [setup] of [AddGtBinaryMapOfPoints] returns exactly when the
    upstream spec provides every points type of the node, and raises
    [AssertionError] otherwise.  The spec of the node then has the points
    of the upstream spec; its volumes are those of the upstream spec,
    except that every volume type of the node has the ROI that the upstream
    spec gives to a points type mapped to it. *)
Theorem bm_setup_spec (self : AddGtBinaryMapOfPoints.node) (upstream : ProviderSpec) :
  match AddGtBinaryMapOfPoints.setup self upstream with
  | Return self' =>
      (forall pt vt,
         AddGtBinaryMapOfPoints.pointstype_to_volumetypes self !! pt = Some vt ->
         is_Some (spec_points upstream !! pt)) /\
      AddGtBinaryMapOfPoints.pointstype_to_volumetypes self'
      = AddGtBinaryMapOfPoints.pointstype_to_volumetypes self /\
      exists spec,
        AddGtBinaryMapOfPoints.get_spec self' = Return spec /\
        spec_points spec = spec_points upstream /\
        (forall vt,
           (forall pt, AddGtBinaryMapOfPoints.pointstype_to_volumetypes self !! pt <> Some vt) ->
           spec_volumes spec !! vt = spec_volumes upstream !! vt) /\
        (forall pt vt,
           AddGtBinaryMapOfPoints.pointstype_to_volumetypes self !! pt = Some vt ->
           exists pt' roi,
             AddGtBinaryMapOfPoints.pointstype_to_volumetypes self !! pt' = Some vt /\
             spec_points upstream !! pt' = Some roi /\
             spec_volumes spec !! vt = Some roi)
  | Raise e =>
      e = AssertionError /\
      exists pt vt,
        AddGtBinaryMapOfPoints.pointstype_to_volumetypes self !! pt = Some vt /\
        spec_points upstream !! pt = None
  | _ => False
  end.
Proof.
  unfold AddGtBinaryMapOfPoints.setup. destruct upstream as [vols pts].
  assert (H := bm_setup_loop pts
                 (map_to_list (AddGtBinaryMapOfPoints.pointstype_to_volumetypes self)) vols).
  destruct (foldM _ _ _) as [spec| | |]; obind; [| |done..].
  - destruct H as (Hall & Hpts & Hvols). cbn [spec_points spec_volumes].
    split; [|split; [done|]].
    { intros pt vt Hin. apply (Hall pt vt). by apply elem_of_map_to_list. }
    exists spec. split; [done|]. split; [done|]. split.
    + intros vt Hnone. apply Hvols. intros Hin.
      apply list_elem_of_fmap in Hin as ([pt vt'] & -> & Hin).
      apply elem_of_map_to_list in Hin. by apply (Hnone pt).
    + intros pt vt Hin. destruct (Hvols vt) as [_ Hsome].
      destruct Hsome as (pt' & roi & Hin' & Hr & Hs).
      { apply list_elem_of_fmap. exists (pt, vt). split; [done|].
        by apply elem_of_map_to_list. }
      exists pt', roi. split; [by apply elem_of_map_to_list|done].
  - destruct H as (-> & pt & vt & Hin & Hnone). split; [done|].
    exists pt, vt. split; [by apply elem_of_map_to_list|done].
Qed.

Lemma bm_prepare_returns_unchanged_witness :
  AddGtBinaryMapOfPoints.pointstype_to_volumetypes presyn_node
  = AddGtBinaryMapOfPoints.pointstype_to_volumetypes presyn_node /\
  (forall pt vt,
     AddGtBinaryMapOfPoints.pointstype_to_volumetypes presyn_node !! pt = Some vt ->
     exists points_roi volume_roi,
       spec_points presyn_request !! pt = Some points_roi /\
       spec_volumes presyn_request !! vt = Some volume_roi /\
       roi_contains_roi points_roi volume_roi = true) /\
  spec_points raw_request = spec_points presyn_request /\
  (forall pt vt,
     AddGtBinaryMapOfPoints.pointstype_to_volumetypes presyn_node !! pt = Some vt ->
     spec_volumes raw_request !! vt = None) /\
  (forall vt,
     (forall pt, AddGtBinaryMapOfPoints.pointstype_to_volumetypes presyn_node !! pt <> Some vt) ->
     spec_volumes raw_request !! vt = spec_volumes presyn_request !! vt) /\
  AddGtBinaryMapOfPoints.skip_next presyn_node
  = (if bool_decide (AddGtBinaryMapOfPoints.pointstype_to_volumetypes presyn_node = ∅)
     then true else AddGtBinaryMapOfPoints.skip_next presyn_node).
Proof.
  apply (bm_prepare_returns_unchanged presyn_node presyn_node presyn_request raw_request).
  vm_compute. reflexivity.
Defined.

Lemma bm_prepare_missing_raises_witness :
  AddGtBinaryMapOfPoints.prepare presyn_node raw_request = Raise KeyError.
Proof.
  apply (bm_prepare_missing_raises presyn_node raw_request PRESYN GT_BM_PRESYN).
  - vm_compute. reflexivity.
  - left. vm_compute. reflexivity.
  - intros pt' vt' points_roi volume_roi H1 H2 H3.
    destruct pt'; vm_compute in H1; [|discriminate H1].
    inversion H1; subst vt'. vm_compute in H3. discriminate H3.
Defined.

(** * The node [AddGtMaskExclusiveZone] *)

Lemma EZ_table_lookup (vt : VolumeType) :
  AddGtMaskExclusiveZone.EZ_table !! vt
  = match vt with
    | GT_MASK_EXCLUSIVEZONE_PRESYN => Some GT_BM_PRESYN
    | GT_MASK_EXCLUSIVEZONE_POSTSYN => Some GT_BM_POSTSYN
    | _ => None
    end.
Proof. destruct vt; vm_compute; reflexivity. Qed.

Lemma EZ_table_items :
  map_to_list AddGtMaskExclusiveZone.EZ_table
  = [(GT_MASK_EXCLUSIVEZONE_PRESYN, GT_BM_PRESYN);
     (GT_MASK_EXCLUSIVEZONE_POSTSYN, GT_BM_POSTSYN)].
Proof. vm_compute. reflexivity. Qed.

(** X16.  [setup] of [AddGtMaskExclusiveZone] always returns.  The spec of
    the node has the points of the upstream spec; its volumes are those of
    the upstream spec, except that each exclusive-zone mask whose binary
    map the upstream spec provides has the ROI of that binary map. *)
Theorem ez_setup_spec (self : AddGtMaskExclusiveZone.node) (upstream : ProviderSpec) :
  exists spec,
    AddGtMaskExclusiveZone.setup self upstream
    = Return (AddGtMaskExclusiveZone.mkNode
                (AddGtMaskExclusiveZone.skip_next self) (Some upstream) (Some spec)
                (Some AddGtMaskExclusiveZone.EZ_table)
                (AddGtMaskExclusiveZone.EZ_masks_to_create self)) /\
    spec_points spec = spec_points upstream /\
    forall vt,
      spec_volumes spec !! vt
      = match AddGtMaskExclusiveZone.EZ_table !! vt with
        | Some binary_map_type =>
            match spec_volumes upstream !! binary_map_type with
            | Some roi => Some roi
            | None => spec_volumes upstream !! vt
            end
        | None => spec_volumes upstream !! vt
        end.
Proof.
  unfold AddGtMaskExclusiveZone.setup. rewrite EZ_table_items.
  destruct upstream as [vols pts]. cbn [foldM].
  unfold AddGtMaskExclusiveZone.setup_entry, dict_in, dict_getitem.
  cbn [fst snd spec_volumes spec_points].
  destruct (vols !! GT_BM_PRESYN) as [pre|] eqn:Hpre;
    destruct (vols !! GT_BM_POSTSYN) as [post|] eqn:Hpost; obind;
    cbn [spec_volumes spec_points];
    rewrite ?lookup_insert_ne by discriminate; rewrite ?Hpost; obind;
    (eexists; split; [reflexivity|]; split; [reflexivity|]);
    intros vt; rewrite EZ_table_lookup; cbn [spec_volumes];
    destruct vt;
    repeat (rewrite lookup_insert_eq || rewrite lookup_insert_ne by discriminate);
    rewrite ?Hpre, ?Hpost; reflexivity.
Qed.

(** ** [prepare] *)

Lemma ez_prepare_entry_eq (masks : list VolumeType) (vols : gmap VolumeType Roi)
    (pts : gmap PointsType Roi) (ez bm : VolumeType) :
  AddGtMaskExclusiveZone.prepare_entry (masks, mkSpec vols pts) (ez, bm)
  = match vols !! ez with
    | None => Return (masks, mkSpec vols pts)
    | Some mask_roi =>
        match vols !! bm with
        | None => Raise AssertionError
        | Some binary_map_roi =>
            if roi_contains_roi binary_map_roi mask_roi
            then Return (masks ++ [ez], mkSpec (delete ez vols) pts)
            else Raise AssertionError
        end
    end.
Proof.
  unfold AddGtMaskExclusiveZone.prepare_entry, dict_in, dict_getitem, dict_delitem.
  cbn [fst snd spec_volumes spec_points].
  destruct (vols !! ez) as [mask_roi|] eqn:Hez; [|done].
  destruct (vols !! bm) as [binary_map_roi|]; [|done]. obind.
  by destruct (roi_contains_roi binary_map_roi mask_roi).
Qed.

Lemma ez_prepare_loop (pts : gmap PointsType Roi) (l : list (VolumeType * VolumeType)) :
  NoDup (l.*1) ->
  (forall ez bm, ez ∈ l.*1 -> bm ∈ l.*2 -> ez <> bm) ->
  forall masks vols,
    match foldM AddGtMaskExclusiveZone.prepare_entry (masks, mkSpec vols pts) l with
    | Return st =>
        spec_points st.2 = pts /\
        (forall vt, spec_volumes st.2 !! vt = if decide (vt ∈ l.*1) then None else vols !! vt) /\
        (exists new, st.1 = masks ++ new /\ NoDup new /\
           forall vt, vt ∈ new <-> (vt ∈ l.*1) /\ is_Some (vols !! vt)) /\
        (forall ez bm mask_roi, (ez, bm) ∈ l -> vols !! ez = Some mask_roi ->
           exists binary_map_roi, vols !! bm = Some binary_map_roi /\
             roi_contains_roi binary_map_roi mask_roi = true)
    | Raise e =>
        e = AssertionError /\
        exists ez bm mask_roi, (ez, bm) ∈ l /\ vols !! ez = Some mask_roi /\
          match vols !! bm with
          | Some binary_map_roi => roi_contains_roi binary_map_roi mask_roi = false
          | None => True
          end
    | _ => False
    end.
Proof.
  induction l as [|[ez0 bm0] l IH]; intros Hnd Hdisj masks vols.
  - cbn. split; [done|]. split.
    { intros vt. rewrite decide_False; [done|]. apply not_elem_of_nil. }
    split.
    + exists []. rewrite app_nil_r. split; [done|]. split; [constructor|].
      intros vt. split; [intros H; by apply elem_of_nil in H|].
      intros [H _]. by apply elem_of_nil in H.
    + intros ez bm r H. by apply elem_of_nil in H.
  - cbn [fmap list_fmap fst snd] in Hnd, Hdisj. apply NoDup_cons in Hnd as [Hez0 Hnd].
    assert (Hdisj' : forall ez bm, ez ∈ l.*1 -> bm ∈ l.*2 -> ez <> bm).
    { intros ez bm H1 H2. apply Hdisj; by right. }
    (* the entries after this one do not look at [ez0] *)
    assert (Hlater : forall ez bm, (ez, bm) ∈ l -> ez <> ez0 /\ bm <> ez0).
    { intros ez bm Hin. split.
      - intros ->. apply Hez0. apply list_elem_of_fmap. by exists (ez0, bm).
      - intros ->. apply (Hdisj ez0 ez0); [by left| |done]. right.
        apply list_elem_of_fmap. by exists (ez, ez0). }
    cbn [foldM]. rewrite ez_prepare_entry_eq.
    destruct (vols !! ez0) as [mask_roi0|] eqn:Hez.
    2: { (* not requested: nothing happens *)
      obind. specialize (IH Hnd Hdisj' masks vols).
      destruct (foldM _ _ l) as [st| | |]; [| |done..].
      - destruct IH as (Hpts & Hvols & (new & Hnew & Hndn & Hin) & Hcont).
        split; [done|]. split; [|split].
        + intros vt. rewrite Hvols. cbn [fmap list_fmap fst].
          destruct (decide (vt = ez0)) as [->|Hne].
          * rewrite (decide_True (P := ez0 ∈ ez0 :: l.*1)) by by left.
            by destruct (decide _).
          * destruct (decide (vt ∈ l.*1)) as [Hi|Hi].
            -- rewrite decide_True; [done|]. by right.
            -- rewrite decide_False; [done|]. by apply not_elem_of_cons.
        + exists new. split; [done|]. split; [done|]. intros vt. rewrite Hin.
          cbn [fmap list_fmap fst]. rewrite elem_of_cons. split; [tauto|].
          intros [[->|H] Hs]; [|done]. rewrite Hez in Hs. by destruct Hs.
        + intros ez bm r Hi Hr. apply elem_of_cons in Hi as [Heq|Hi]; [|by apply (Hcont ez bm)].
          inversion Heq; subst. congruence.
      - destruct IH as (-> & ez & bm & r & Hi & Hr & Hc). split; [done|].
        exists ez, bm, r. split; [by right|done]. }
    destruct (vols !! bm0) as [bm_roi0|] eqn:Hbm; last first.
    { obind. split; [done|]. exists ez0, bm0, mask_roi0. split; [by left|].
      split; [done|]. by rewrite Hbm. }
    destruct (roi_contains_roi bm_roi0 mask_roi0) eqn:Hc0; obind; last first.
    { split; [done|]. exists ez0, bm0, mask_roi0. split; [by left|].
      split; [done|]. by rewrite Hbm. }
    specialize (IH Hnd Hdisj' (masks ++ [ez0]) (delete ez0 vols)).
    destruct (foldM _ _ l) as [st| | |]; [| |done..].
    + destruct IH as (Hpts & Hvols & (new & Hnew & Hndn & Hin) & Hcont).
      split; [done|]. split; [|split].
      * intros vt. rewrite Hvols. cbn [fmap list_fmap fst].
        destruct (decide (vt = ez0)) as [->|Hne].
        -- rewrite (decide_True (P := ez0 ∈ ez0 :: l.*1)) by by left.
           destruct (decide _); [done|]. apply lookup_delete_eq.
        -- rewrite lookup_delete_ne by done.
           destruct (decide (vt ∈ l.*1)) as [Hi|Hi].
           ++ rewrite decide_True; [done|]. by right.
           ++ rewrite decide_False; [done|]. by apply not_elem_of_cons.
      * exists (ez0 :: new). rewrite Hnew, <- app_assoc. split; [done|]. split.
        -- constructor; [|done]. rewrite Hin. intros [H _]. by apply Hez0.
        -- intros vt. cbn [fmap list_fmap fst]. rewrite !elem_of_cons, Hin. split.
           ++ intros [->|[Hi Hs]]; [split; [by left|by eexists]|].
              split; [by right|]. destruct Hs as [r Hr].
              apply lookup_delete_Some in Hr as [_ Hr]. by eexists.
           ++ intros [[->|Hi] Hs]; [by left|]. right. split; [done|].
              destruct Hs as [r Hr]. exists r. apply lookup_delete_Some. split; [|done].
              intros <-. by apply Hez0.
      * intros ez bm r Hi Hr. apply elem_of_cons in Hi as [Heq|Hi].
        -- inversion Heq; subst. rewrite Hez in Hr. inversion Hr; subst. by exists bm_roi0.
        -- destruct (Hlater ez bm Hi) as [Hne1 Hne2].
           destruct (Hcont ez bm r Hi) as (bmr & Hbmr & Hcr).
           { by rewrite lookup_delete_ne. }
           rewrite lookup_delete_ne in Hbmr by done. by exists bmr.
    + destruct IH as (-> & ez & bm & r & Hi & Hr & Hc). split; [done|].
      destruct (Hlater ez bm Hi) as [Hne1 Hne2].
      rewrite lookup_delete_ne in Hr by done. rewrite lookup_delete_ne in Hc by done.
      exists ez, bm, r. split; [by right|done].
Qed.

(** X17.  [prepare] of [AddGtMaskExclusiveZone], after [setup]: it returns
    or raises [AssertionError], never [KeyError].  It raises when a
    requested exclusive-zone mask has no requested binary map, or one whose
    ROI does not contain the ROI of the mask.  When it returns, every
    requested mask lies within its requested binary map; the request sent
    upstream keeps its points and its volumes except for the
    exclusive-zone masks, which are removed; [EZ_masks_to_create] lists
    exactly the requested masks, each once; and [skip_next] is set only
    when no mask was requested. *)
Theorem ez_prepare_cases (self : AddGtMaskExclusiveZone.node) (request : ProviderSpec) :
  AddGtMaskExclusiveZone.EZ_masks_to_binary_map self = Some AddGtMaskExclusiveZone.EZ_table ->
  match AddGtMaskExclusiveZone.prepare self request with
  | Return (self', request') =>
      spec_points request' = spec_points request /\
      (forall vt,
         spec_volumes request' !! vt
         = match AddGtMaskExclusiveZone.EZ_table !! vt with
           | Some _ => None
           | None => spec_volumes request !! vt
           end) /\
      (exists masks,
         AddGtMaskExclusiveZone.EZ_masks_to_create self' = Some masks /\
         NoDup masks /\
         (forall vt, vt ∈ masks <->
                     is_Some (AddGtMaskExclusiveZone.EZ_table !! vt) /\
                     is_Some (spec_volumes request !! vt)) /\
         AddGtMaskExclusiveZone.skip_next self'
         = (if bool_decide (masks = []) then true
            else AddGtMaskExclusiveZone.skip_next self)) /\
      (forall ez bm mask_roi,
         AddGtMaskExclusiveZone.EZ_table !! ez = Some bm ->
         spec_volumes request !! ez = Some mask_roi ->
         exists binary_map_roi,
           spec_volumes request !! bm = Some binary_map_roi /\
           roi_contains_roi binary_map_roi mask_roi = true)
  | Raise e =>
      e = AssertionError /\
      exists ez bm mask_roi,
        AddGtMaskExclusiveZone.EZ_table !! ez = Some bm /\
        spec_volumes request !! ez = Some mask_roi /\
        match spec_volumes request !! bm with
        | Some binary_map_roi => roi_contains_roi binary_map_roi mask_roi = false
        | None => True
        end
  | _ => False
  end.
Proof.
  intros Htable. unfold AddGtMaskExclusiveZone.prepare. rewrite Htable.
  destruct request as [vols pts].
  assert (H := ez_prepare_loop pts (map_to_list AddGtMaskExclusiveZone.EZ_table)
                 (NoDup_fst_map_to_list _)).
  assert (Hdisj : forall ez bm,
            ez ∈ (map_to_list AddGtMaskExclusiveZone.EZ_table).*1 ->
            bm ∈ (map_to_list AddGtMaskExclusiveZone.EZ_table).*2 -> ez <> bm).
  { rewrite EZ_table_items. cbn. intros ez bm Hez Hbm.
    repeat (apply elem_of_cons in Hez as [->|Hez]);
      repeat (apply elem_of_cons in Hbm as [->|Hbm]);
      try discriminate; by apply elem_of_nil in Hez || by apply elem_of_nil in Hbm. }
  specialize (H Hdisj [] vols). clear Hdisj.
  assert (Hkeys : forall vt,
            vt ∈ (map_to_list AddGtMaskExclusiveZone.EZ_table).*1
            <-> is_Some (AddGtMaskExclusiveZone.EZ_table !! vt)).
  { intros vt. split.
    - intros Hin. apply list_elem_of_fmap in Hin as ([ez bm] & -> & Hin).
      apply elem_of_map_to_list in Hin. by eexists.
    - intros [bm Hbm]. apply list_elem_of_fmap. exists (vt, bm).
      split; [done|]. by apply elem_of_map_to_list. }
  destruct (foldM _ _ _) as [[masks request']| | |]; obind; [| |done..].
  - cbn [fst snd spec_points spec_volumes AddGtMaskExclusiveZone.EZ_masks_to_create
         AddGtMaskExclusiveZone.skip_next] in *.
    destruct H as (Hpts & Hvols & (new & -> & Hnd & Hin) & Hcont).
    split; [done|]. split; [|split].
    + intros vt. rewrite Hvols.
      destruct (decide _) as [Hi|Hi].
      * apply Hkeys in Hi as [bm ->]. done.
      * destruct (AddGtMaskExclusiveZone.EZ_table !! vt) eqn:Ht; [|done].
        exfalso. apply Hi, Hkeys. by eexists.
    + exists new. cbn [app]. split; [done|]. split; [done|]. split.
      * intros vt. by rewrite Hin, Hkeys.
      * destruct new; [by rewrite !bool_decide_eq_true_2|].
        by rewrite !bool_decide_eq_false_2.
    + intros ez bm r Ht Hr. apply (Hcont ez bm r); [|done]. by apply elem_of_map_to_list.
  - destruct H as (-> & ez & bm & r & Hin & Hr & Hc). split; [done|].
    exists ez, bm, r. split; [by apply elem_of_map_to_list|done].
Qed.

Lemma ez_prepare_cases_witness :
  AddGtMaskExclusiveZone.prepare zone_node zone_request
  = Return (AddGtMaskExclusiveZone.mkNode false None None
              (Some AddGtMaskExclusiveZone.EZ_table) (Some [GT_MASK_EXCLUSIVEZONE_PRESYN]),
            mkSpec {[ GT_BM_PRESYN := roi_1d 0 100 ]} ∅) /\
  match AddGtMaskExclusiveZone.prepare zone_node zone_request with
  | Return (self', request') =>
      spec_points request' = spec_points zone_request /\
      (forall vt,
         spec_volumes request' !! vt
         = match AddGtMaskExclusiveZone.EZ_table !! vt with
           | Some _ => None
           | None => spec_volumes zone_request !! vt
           end) /\
      (exists masks,
         AddGtMaskExclusiveZone.EZ_masks_to_create self' = Some masks /\
         NoDup masks /\
         (forall vt, vt ∈ masks <->
                     is_Some (AddGtMaskExclusiveZone.EZ_table !! vt) /\
                     is_Some (spec_volumes zone_request !! vt)) /\
         AddGtMaskExclusiveZone.skip_next self'
         = (if bool_decide (masks = []) then true
            else AddGtMaskExclusiveZone.skip_next zone_node)) /\
      (forall ez bm mask_roi,
         AddGtMaskExclusiveZone.EZ_table !! ez = Some bm ->
         spec_volumes zone_request !! ez = Some mask_roi ->
         exists binary_map_roi,
           spec_volumes zone_request !! bm = Some binary_map_roi /\
           roi_contains_roi binary_map_roi mask_roi = true)
  | Raise e =>
      e = AssertionError /\
      exists ez bm mask_roi,
        AddGtMaskExclusiveZone.EZ_table !! ez = Some bm /\
        spec_volumes zone_request !! ez = Some mask_roi /\
        match spec_volumes zone_request !! bm with
        | Some binary_map_roi => roi_contains_roi binary_map_roi mask_roi = false
        | None => True
        end
  | _ => False
  end.
Proof.
  split; [vm_compute; reflexivity|].
  apply (ez_prepare_cases zone_node zone_request). reflexivity.
Defined.

(** ** A request without exclusive-zone masks *)

(** X18.  When the request names no exclusive-zone mask, [prepare] leaves
    it as it is and sets [skip_next]; the next [process] then returns the
    batch untouched, without computing a mask, and clears [skip_next]. *)
Theorem ez_nothing_requested
    (get_exclusivezone_mask : ndarray -> Coordinate -> outcome ndarray)
    (self : AddGtMaskExclusiveZone.node) (request : ProviderSpec) (batch : Batch) :
  AddGtMaskExclusiveZone.EZ_masks_to_binary_map self = Some AddGtMaskExclusiveZone.EZ_table ->
  spec_volumes request !! GT_MASK_EXCLUSIVEZONE_PRESYN = None ->
  spec_volumes request !! GT_MASK_EXCLUSIVEZONE_POSTSYN = None ->
  exists self' self'',
    AddGtMaskExclusiveZone.prepare self request = Return (self', request) /\
    AddGtMaskExclusiveZone.skip_next self' = true /\
    AddGtMaskExclusiveZone.EZ_masks_to_create self' = Some [] /\
    AddGtMaskExclusiveZone.process get_exclusivezone_mask self' batch request
    = Return (self'', batch) /\
    AddGtMaskExclusiveZone.skip_next self'' = false.
Proof.
  intros Htable Hpre Hpost. unfold AddGtMaskExclusiveZone.prepare.
  rewrite Htable, EZ_table_items. destruct request as [vols pts].
  cbn [spec_volumes] in Hpre, Hpost. cbn [foldM].
  rewrite ez_prepare_entry_eq, Hpre. obind.
  rewrite ez_prepare_entry_eq, Hpost. obind. cbn [fst snd length].
  rewrite bool_decide_eq_true_2 by done.
  eexists _, _. split; [reflexivity|]. split; [done|]. split; [done|].
  unfold AddGtMaskExclusiveZone.process. cbn [AddGtMaskExclusiveZone.skip_next].
  split; [reflexivity|done].
Qed.

Lemma ez_nothing_requested_witness :
  exists self' self'',
    AddGtMaskExclusiveZone.prepare zone_node raw_request = Return (self', raw_request) /\
    AddGtMaskExclusiveZone.skip_next self' = true /\
    AddGtMaskExclusiveZone.EZ_masks_to_create self' = Some [] /\
    AddGtMaskExclusiveZone.process (fun _ _ => Raise ValueError) self' overlap_first raw_request
    = Return (self'', overlap_first) /\
    AddGtMaskExclusiveZone.skip_next self'' = false.
Proof.
  apply (ez_nothing_requested (fun _ _ => Raise ValueError) zone_node raw_request overlap_first).
  - reflexivity.
  - vm_compute. reflexivity.
  - vm_compute. reflexivity.
Defined.

(** ** [process] *)

Lemma ez_process_loop (get_exclusivezone_mask : ndarray -> Coordinate -> outcome ndarray)
    (request : ProviderSpec) (batch : Batch) (masks : list VolumeType) :
  (forall ez, ez ∈ masks ->
     exists bm bmvol roi m,
       AddGtMaskExclusiveZone.EZ_table !! ez = Some bm /\ batch !! bm = Some bmvol /\
       spec_volumes request !! ez = Some roi /\
       get_exclusivezone_mask (data bmvol) (get_shape roi) = Return m) ->
  forall cur,
    (forall vt, AddGtMaskExclusiveZone.EZ_table !! vt = None -> cur !! vt = batch !! vt) ->
    exists batch',
      foldM (AddGtMaskExclusiveZone.process_mask get_exclusivezone_mask
               AddGtMaskExclusiveZone.EZ_table request) cur masks = Return batch' /\
      (forall vt, vt ∉ masks -> batch' !! vt = cur !! vt) /\
      (forall ez, ez ∈ masks ->
         exists bm bmvol roi m,
           AddGtMaskExclusiveZone.EZ_table !! ez = Some bm /\ batch !! bm = Some bmvol /\
           spec_volumes request !! ez = Some roi /\
           get_exclusivezone_mask (data bmvol) (get_shape roi) = Return m /\
           batch' !! ez = Some (mkVolume m roi (resolution bmvol) true)).
Proof.
  induction masks as [|ez masks IH]; intros Hall cur Hcur.
  - exists cur. split; [done|]. split; [done|]. intros ez H. by apply elem_of_nil in H.
  - destruct (Hall ez) as (bm & bmvol & roi & m & Ht & Hbm & Hr & Hm); [by left|].
    assert (Hbmt : AddGtMaskExclusiveZone.EZ_table !! bm = None).
    { rewrite EZ_table_lookup in Ht |- *. destruct ez; inversion Ht; done. }
    assert (Hi : AddGtMaskExclusiveZone.interpolate_table ez = Return true).
    { rewrite EZ_table_lookup in Ht. by destruct ez. }
    assert (Hstep : AddGtMaskExclusiveZone.process_mask get_exclusivezone_mask
                      AddGtMaskExclusiveZone.EZ_table request cur ez
                    = Return (<[ez := mkVolume m roi (resolution bmvol) true]> cur)).
    { unfold AddGtMaskExclusiveZone.process_mask, dict_getitem.
      rewrite Ht. obind. rewrite (Hcur bm Hbmt), Hbm. obind.
      rewrite Hi. obind. rewrite Hr. obind. rewrite Hm. obind. done. }
    destruct (IH (fun e He => Hall e (list_elem_of_further _ _ _ He))
                 (<[ez := mkVolume m roi (resolution bmvol) true]> cur))
      as (batch' & Hfold & Hout & Hin).
    { intros vt Hvt. rewrite lookup_insert_ne; [by apply Hcur|]. intros ->. congruence. }
    exists batch'. cbn [foldM]. rewrite Hstep. obind. split; [done|]. split.
    + intros vt Hvt. apply not_elem_of_cons in Hvt as [Hne Hvt].
      rewrite (Hout vt Hvt). by apply lookup_insert_ne.
    + intros e He. destruct (decide (e ∈ masks)) as [Hm'|Hm']; [by apply Hin|].
      apply elem_of_cons in He as [->|He]; [|done].
      exists bm, bmvol, roi, m. do 4 (split; [done|]).
      rewrite (Hout ez Hm'). apply lookup_insert_eq.
Qed.

(** X19.  [process] of [AddGtMaskExclusiveZone], when masks are to be
    created: if the batch holds the binary map of every mask of
    [EZ_masks_to_create], the request holds the ROI of every such mask and
    the mask computation returns, then [process] returns the batch with
    one volume added per mask - the computed mask, with the ROI of the
    request, the resolution of its binary map and [interpolate] set - and
    with every other volume as it was. *)
Theorem ez_process_adds_masks
    (get_exclusivezone_mask : ndarray -> Coordinate -> outcome ndarray)
    (self : AddGtMaskExclusiveZone.node) (batch : Batch) (request : ProviderSpec)
    (masks : list VolumeType) :
  AddGtMaskExclusiveZone.skip_next self = false ->
  AddGtMaskExclusiveZone.EZ_masks_to_binary_map self = Some AddGtMaskExclusiveZone.EZ_table ->
  AddGtMaskExclusiveZone.EZ_masks_to_create self = Some masks ->
  (forall ez, ez ∈ masks ->
     exists bm bmvol roi m,
       AddGtMaskExclusiveZone.EZ_table !! ez = Some bm /\ batch !! bm = Some bmvol /\
       spec_volumes request !! ez = Some roi /\
       get_exclusivezone_mask (data bmvol) (get_shape roi) = Return m) ->
  exists batch',
    AddGtMaskExclusiveZone.process get_exclusivezone_mask self batch request
    = Return (self, batch') /\
    (forall vt, vt ∉ masks -> batch' !! vt = batch !! vt) /\
    (forall ez, ez ∈ masks ->
       exists bm bmvol roi m,
         AddGtMaskExclusiveZone.EZ_table !! ez = Some bm /\ batch !! bm = Some bmvol /\
         spec_volumes request !! ez = Some roi /\
         get_exclusivezone_mask (data bmvol) (get_shape roi) = Return m /\
         batch' !! ez = Some (mkVolume m roi (resolution bmvol) true)).
Proof.
  intros Hskip Htable Hmasks Hall.
  destruct (ez_process_loop get_exclusivezone_mask request batch masks Hall batch)
    as (batch' & Hfold & Hout & Hin); [done|].
  exists batch'. unfold AddGtMaskExclusiveZone.process.
  rewrite Hskip, Hmasks, Htable, Hfold. obind. done.
Qed.

Lemma ez_process_adds_masks_witness :
  exists batch',
    AddGtMaskExclusiveZone.process (fun a shape => np_zeros_nd shape)
      (AddGtMaskExclusiveZone.mkNode false None None
         (Some AddGtMaskExclusiveZone.EZ_table) (Some [GT_MASK_EXCLUSIVEZONE_PRESYN]))
      {[ GT_BM_PRESYN := constant_volume 1 (roi_1d 0 100) ]} zone_request
    = Return (AddGtMaskExclusiveZone.mkNode false None None
                (Some AddGtMaskExclusiveZone.EZ_table) (Some [GT_MASK_EXCLUSIVEZONE_PRESYN]),
              batch') /\
    (forall vt, vt ∉ [GT_MASK_EXCLUSIVEZONE_PRESYN] ->
       batch' !! vt
       = ({[ GT_BM_PRESYN := constant_volume 1 (roi_1d 0 100) ]} : Batch) !! vt) /\
    (forall ez, ez ∈ [GT_MASK_EXCLUSIVEZONE_PRESYN] ->
       exists bm bmvol roi m,
         AddGtMaskExclusiveZone.EZ_table !! ez = Some bm /\
         ({[ GT_BM_PRESYN := constant_volume 1 (roi_1d 0 100) ]} : Batch) !! bm = Some bmvol /\
         spec_volumes zone_request !! ez = Some roi /\
         np_zeros_nd (get_shape roi) = Return m /\
         batch' !! ez = Some (mkVolume m roi (resolution bmvol) true)).
Proof.
  apply (ez_process_adds_masks (fun a shape => np_zeros_nd shape)
           (AddGtMaskExclusiveZone.mkNode false None None
              (Some AddGtMaskExclusiveZone.EZ_table) (Some [GT_MASK_EXCLUSIVEZONE_PRESYN]))
           {[ GT_BM_PRESYN := constant_volume 1 (roi_1d 0 100) ]} zone_request
           [GT_MASK_EXCLUSIVEZONE_PRESYN]).
  - reflexivity.
  - reflexivity.
  - reflexivity.
  - intros ez Hez. apply list_elem_of_singleton in Hez as ->.
    eexists _, _, _, _. split; [vm_compute; reflexivity|].
    split; [vm_compute; reflexivity|]. split; [vm_compute; reflexivity|].
    vm_compute. reflexivity.
Defined.
